(** * PopKing AI: the API service layer (src/services/apiService.js)

    A shallow embedding of the request/response and audio-transcoding
    layer of the application: the PCM16-to-WAV container encoder
    [pcmToWav], the base64 decoder [base64ToArrayBuffer], the retrying
    HTTP invoker [fetchWithRetry] and the four generators built on it
    ([generateTextContent], [generateStructuredStudyContent],
    [generateImageContent], [generateTTSAudio]).

    Conventions of the embedding.
    - A byte is a [Z] in [0, 256); an [ArrayBuffer] is a [list Z].
    - A JavaScript number is a [Z]: the service uses numbers as integers
      only (sample rate, sample, HTTP status, length).  The wrap-around
      of the [DataView] setters is written out with [Z.land] and
      [Z.shiftr].  The backoff delay, which involves [Math.random()], is
      a rational.
    - A JavaScript string is a [string] of one-byte characters (the code
      inspects ASCII prefixes, digits and base64 characters only).
    - A thrown exception, and a rejected promise, is the left summand of
      [result]; [undefined] is [None] of [option JSON].
    - The network, [Math.random], [setTimeout] and the console are an
      explicit [World] threaded through the asynchronous functions.
    - [JSON.parse] and the numeric reading of strings belong to the
      platform and are a parameter ([Platform]); a reference instance is
      given for concrete runs. *)

From Stdlib Require Import ZArith QArith String Ascii List Lia Bool.
From Stdlib Require Import DecimalString DecimalZ Lqa.
From Equations Require Import Equations.
Import ListNotations.

Set Implicit Arguments.
Open Scope string_scope.
Open Scope list_scope.
Open Scope Z_scope.

(** ** Exceptions and the error monad *)

(** The exceptions the service layer can see.  [Error msg] is
    [new Error(msg)] of the source; the others are raised by the
    platform ([DataView] and typed-array constructors raise [RangeError],
    property access on [null] raises [TypeError], [JSON.parse] raises
    [SyntaxError], [atob] raises the [InvalidCharacterError]
    DOMException, [fetch] rejects with a [NetworkError]). *)
Inductive Exn : Type :=
| Error (message : string)
| TypeError
| RangeError
| SyntaxError
| InvalidCharacterError
| NetworkError (message : string).

Definition result (A : Type) : Type := (Exn + A)%type.

Definition ret {A : Type} (a : A) : result A := inr a.
Definition throw {A : Type} (e : Exn) : result A := inl e.
Definition bind {A B : Type} (m : result A) (k : A -> result B) : result B :=
  match m with
  | inl e => inl e
  | inr a => k a
  end.

Notation "x <- m ;; k" := (bind m (fun x => k))
  (at level 61, m at next level, right associativity).

(** ** ArrayBuffer, DataView and Int16Array *)

Module Buffer.

Definition ArrayBuffer : Type := list Z.

(** [new ArrayBuffer(n)]: [n] zero bytes. *)
Definition alloc (n : nat) : ArrayBuffer := repeat 0 n.

(** The [n] low-order bytes of [v], least significant first.  Taking
    [Z.land _ 255] of the arithmetic shift is the two's-complement
    truncation ([ToUint32], [ToUint16], [ToInt16], [ToUint8]) that the
    setters apply before storing. *)
Definition le_bytes (n : nat) (v : Z) : list Z :=
  map (fun i => Z.land (Z.shiftr v (8 * Z.of_nat i)) 255) (seq 0 n).

(** Store [bs] at byte offset [off]; a [DataView] raises [RangeError]
    when the store does not fit. *)
Definition write_bytes (off : nat) (bs : list Z) (buf : ArrayBuffer)
  : result ArrayBuffer :=
  if (off + length bs <=? length buf)%nat
  then ret (firstn off buf ++ bs ++ skipn (off + length bs) buf)
  else throw RangeError.

(** [view.setUint8(off, v)] *)
Definition setUint8 (off : nat) (v : Z) := write_bytes off (le_bytes 1 v).
(** [view.setUint16(off, v, true)] *)
Definition setUint16 (off : nat) (v : Z) := write_bytes off (le_bytes 2 v).
(** [view.setInt16(off, v, true)] *)
Definition setInt16 (off : nat) (v : Z) := write_bytes off (le_bytes 2 v).
(** [view.setUint32(off, v, true)] *)
Definition setUint32 (off : nat) (v : Z) := write_bytes off (le_bytes 4 v).

(** Little-endian value of a byte list. *)
Fixpoint le_value (bs : list Z) : Z :=
  match bs with
  | [] => 0
  | b :: bs' => b + 256 * le_value bs'
  end.

Definition slice (off len : nat) (buf : ArrayBuffer) : list Z :=
  firstn len (skipn off buf).

(** [view.getUint16(off, true)] and [view.getUint32(off, true)];
    [None] stands for the [RangeError] of an out-of-range read. *)
Definition getUint (len off : nat) (buf : ArrayBuffer) : option Z :=
  if (off + len <=? length buf)%nat
  then Some (le_value (slice off len buf))
  else None.
Definition getUint16 := getUint 2.
Definition getUint32 := getUint 4.

(** Reinterpretation of an unsigned 16-bit value as signed. *)
Definition to_int16 (u : Z) : Z := if u <? 32768 then u else u - 65536.

(** The elements of [new Int16Array(buffer)] on a little-endian
    platform: consecutive byte pairs, each read as a signed 16-bit
    integer.  An odd number of bytes is not a multiple of the element
    size, and the constructor raises [RangeError]. *)
Fixpoint Int16Array (buf : ArrayBuffer) : result (list Z) :=
  match buf with
  | [] => ret []
  | [_] => throw RangeError
  | lo :: hi :: rest =>
      xs <- Int16Array rest ;;
      ret (to_int16 (lo + 256 * hi) :: xs)
  end.

(** An element of an [Int16Array]. *)
Definition is_int16 (v : Z) : Prop := -32768 <= v <= 32767.

(** ASCII text of a byte range, for reading chunk identifiers. *)
Definition ascii_codes (s : string) : list Z :=
  map (fun c => Z.of_nat (nat_of_ascii c)) (list_ascii_of_string s).

End Buffer.

(** ** The WAV encoder *)

Module Wav.
Import Buffer.

(** [new Blob([buffer], { type })] *)
Record Blob : Type := mkBlob { blob_bytes : ArrayBuffer; blob_type : string }.

(** The inner helper [writeString(view, offset, string)]: one
    [setUint8] per character, at [offset + i]. *)
Fixpoint writeString_from (i : nat) (offset : nat) (cs : list ascii)
         (buf : ArrayBuffer) : result ArrayBuffer :=
  match cs with
  | [] => ret buf
  | c :: cs' =>
      buf' <- setUint8 (offset + i) (Z.of_nat (nat_of_ascii c)) buf ;;
      writeString_from (S i) offset cs' buf'
  end.

Definition writeString (offset : nat) (s : string) (buf : ArrayBuffer)
  : result ArrayBuffer :=
  writeString_from 0 offset (list_ascii_of_string s) buf.

(** The sample loop:
    [for (i...) { view.setInt16(offset, pcm16[i], true); offset += 2; }] *)
Fixpoint write_samples (offset : nat) (pcm16 : list Z) (buf : ArrayBuffer)
  : result ArrayBuffer :=
  match pcm16 with
  | [] => ret buf
  | s :: rest =>
      buf' <- setInt16 offset s buf ;;
      write_samples (offset + 2) rest buf'
  end.

(** [pcm16.byteLength] *)
Definition byteLength (pcm16 : list Z) : nat := (2 * length pcm16)%nat.

Definition pcmToWav (pcm16 : list Z) (sampleRate : Z) : result Blob :=
  let numChannels := 1 in
  let bytesPerSample := 2 in
  let blockAlign := numChannels * bytesPerSample in
  let byteRate := sampleRate * blockAlign in
  let buffer := alloc (44 + byteLength pcm16) in
  b <- writeString 0 "RIFF" buffer ;;
  b <- setUint32 4 (36 + Z.of_nat (byteLength pcm16)) b ;;
  b <- writeString 8 "WAVE" b ;;
  b <- writeString 12 "fmt " b ;;
  b <- setUint32 16 16 b ;;
  b <- setUint16 20 1 b ;;
  b <- setUint16 22 numChannels b ;;
  b <- setUint32 24 sampleRate b ;;
  b <- setUint32 28 byteRate b ;;
  b <- setUint16 32 blockAlign b ;;
  b <- setUint16 34 16 b ;;
  b <- writeString 36 "data" b ;;
  b <- setUint32 40 (Z.of_nat (byteLength pcm16)) b ;;
  b <- write_samples 44 pcm16 b ;;
  ret (mkBlob b "audio/wav").

(** The 44 header bytes, as the sequence of stores lays them out. *)
Definition wav_header (n : nat) (sampleRate : Z) : list Z :=
  ascii_codes "RIFF" ++ le_bytes 4 (36 + Z.of_nat (2 * n)) ++
  ascii_codes "WAVE" ++ ascii_codes "fmt " ++
  le_bytes 4 16 ++ le_bytes 2 1 ++ le_bytes 2 1 ++
  le_bytes 4 sampleRate ++ le_bytes 4 (sampleRate * 2) ++
  le_bytes 2 2 ++ le_bytes 2 16 ++
  ascii_codes "data" ++ le_bytes 4 (Z.of_nat (2 * n)).

Definition wav_payload (pcm16 : list Z) : list Z :=
  flat_map (le_bytes 2) pcm16.

End Wav.

(** ** Base64 decoding *)

Module Base64.
Import Buffer.

(** ASCII whitespace, which [atob] removes before decoding. *)
Definition is_ascii_whitespace (c : ascii) : bool :=
  let n := nat_of_ascii c in
  ((n =? 9) || (n =? 10) || (n =? 12) || (n =? 13) || (n =? 32))%nat.

(** Value of a character of the base64 alphabet. *)
Definition b64_value (c : ascii) : option Z :=
  let n := Z.of_nat (nat_of_ascii c) in
  if (65 <=? n) && (n <=? 90) then Some (n - 65)
  else if (97 <=? n) && (n <=? 122) then Some (n - 71)
  else if (48 <=? n) && (n <=? 57) then Some (n + 4)
  else if n =? 43 then Some 62
  else if n =? 47 then Some 63
  else None.

Definition is_equals (c : ascii) : bool := (nat_of_ascii c =? 61)%nat.

(** Removal of one or two trailing [=], applied when the length is a
    multiple of four. *)
Definition strip_padding (cs : list ascii) : list ascii :=
  if (length cs mod 4 =? 0)%nat then
    match rev cs with
    | c1 :: c2 :: r =>
        if is_equals c1 then (if is_equals c2 then rev r else rev (c2 :: r))
        else cs
    | [c1] => if is_equals c1 then [] else cs
    | [] => cs
    end
  else cs.

(** All characters mapped to their six-bit values, or [None] when one
    is outside the alphabet. *)
Fixpoint sextets (cs : list ascii) : option (list Z) :=
  match cs with
  | [] => Some []
  | c :: cs' =>
      match b64_value c, sextets cs' with
      | Some v, Some vs => Some (v :: vs)
      | _, _ => None
      end
  end.

(** Four sextets give three bytes; a final group of two gives one byte
    and a final group of three gives two (the surplus bits are dropped). *)
Fixpoint decode_groups (vs : list Z) : list Z :=
  match vs with
  | a :: b :: c :: d :: rest =>
      let n := a * 262144 + b * 4096 + c * 64 + d in
      Z.land (Z.shiftr n 16) 255 :: Z.land (Z.shiftr n 8) 255
        :: Z.land n 255 :: decode_groups rest
  | [a; b; c] =>
      let n := a * 4096 + b * 64 + c in
      [Z.land (Z.shiftr n 10) 255; Z.land (Z.shiftr n 2) 255]
  | [a; b] =>
      let n := a * 64 + b in
      [Z.land (Z.shiftr n 4) 255]
  | _ => []
  end.

Definition binary_string (bs : list Z) : string :=
  string_of_list_ascii (map (fun b => ascii_of_nat (Z.to_nat b)) bs).

(** [atob(data)]: the forgiving base64 decoding of the platform.  The
    result is a binary string, one character per byte; malformed input
    raises the [InvalidCharacterError] DOMException. *)
Definition atob (data : string) : result string :=
  let cs := filter (fun c => negb (is_ascii_whitespace c))
                   (list_ascii_of_string data) in
  let cs := strip_padding cs in
  if (length cs mod 4 =? 1)%nat then throw InvalidCharacterError
  else
    match sextets cs with
    | None => throw InvalidCharacterError
    | Some vs => ret (binary_string (decode_groups vs))
    end.

(** [binaryString.charCodeAt(i)] for [i] from [0] to [len - 1], stored
    into a fresh [Uint8Array]. *)
Fixpoint char_codes (s : string) : list Z :=
  match s with
  | EmptyString => []
  | String c s' => Z.of_nat (nat_of_ascii c) :: char_codes s'
  end.

Definition base64ToArrayBuffer (base64 : string) : result ArrayBuffer :=
  binaryString <- atob base64 ;;
  ret (char_codes binaryString).

End Base64.

(** ** JSON values and the JavaScript operations applied to them *)

Module Js.

(** A parsed response body.  Numbers are the integer-valued ones;
    an object is its list of own properties. *)
#[local] Unset Elimination Schemes.
Inductive JSON : Type :=
| JNull
| JBool (b : bool)
| JNum (n : Z)
| JStr (s : string)
| JArr (items : list JSON)
| JObj (fields : list (string * JSON)).
#[local] Set Elimination Schemes.

(** A JavaScript value reached from a response: [None] is [undefined]. *)
Definition JSValue : Type := option JSON.

(** Truthiness: [undefined], [null], [false], [0] and the empty string
    are falsy. *)
Definition truthy (v : JSValue) : bool :=
  match v with
  | None => false
  | Some JNull => false
  | Some (JBool b) => b
  | Some (JNum n) => negb (n =? 0)
  | Some (JStr s) => negb (String.eqb s EmptyString)
  | Some (JArr _) => true
  | Some (JObj _) => true
  end.

Fixpoint lookup (k : string) (fields : list (string * JSON)) : JSValue :=
  match fields with
  | [] => None
  | (k', v) :: rest => if String.eqb k k' then Some v else lookup k rest
  end.

(** Decimal text of an integer ([String(n)] for a safe integer). *)
Definition decimal (n : Z) : string :=
  NilZero.string_of_int (Z.to_int n).

(** [v.k] for a value [v] that is neither [null] nor [undefined] and a
    name [k] that no prototype defines: an own property of an object, or
    [length] of an array or a string.  Every name the service reads
    ([candidates], [content], [parts], [text], [predictions], ...) is
    of that kind. *)
Definition own_prop (v : JSON) (k : string) : JSValue :=
  match v with
  | JObj fields => lookup k fields
  | JArr items =>
      if String.eqb k "length" then Some (JNum (Z.of_nat (length items)))
      else None
  | JStr s =>
      if String.eqb k "length" then Some (JNum (Z.of_nat (String.length s)))
      else None
  | _ => None
  end.

(** [v[0]] for a value [v] that is neither [null] nor [undefined]. *)
Definition first_item (v : JSON) : JSValue :=
  match v with
  | JArr items => nth_error items 0
  | JStr (String c _) => Some (JStr (String c EmptyString))
  | JObj fields => lookup "0" fields
  | _ => None
  end.

(** [v.k]: a [TypeError] on [null] and [undefined]. *)
Definition get (v : JSValue) (k : string) : result JSValue :=
  match v with
  | None | Some JNull => throw TypeError
  | Some j => ret (own_prop j k)
  end.

(** [v?.k]: [undefined] on [null] and [undefined]. *)
Definition get_opt (v : JSValue) (k : string) : JSValue :=
  match v with
  | None | Some JNull => None
  | Some j => own_prop j k
  end.

(** [v[0]] and [v?.[0]]. *)
Definition get0 (v : JSValue) : result JSValue :=
  match v with
  | None | Some JNull => throw TypeError
  | Some j => ret (first_item j)
  end.

Definition get0_opt (v : JSValue) : JSValue :=
  match v with
  | None | Some JNull => None
  | Some j => first_item j
  end.

(** [String(v)], as template literals, [atob] and [JSON.parse] apply it
    to their argument. *)
Fixpoint toString (v : JSON) : string :=
  match v with
  | JNull => "null"
  | JBool true => "true"
  | JBool false => "false"
  | JNum n => decimal n
  | JStr s => s
  | JArr items =>
      let piece (x : JSON) : string :=
        match x with JNull => EmptyString | _ => toString x end in
      String.concat "," (map piece items)
  | JObj _ => "[object Object]"
  end.

(** The parts of the platform that the service calls and that are
    taken as given: [JSON.parse], and whether the numeric value of a
    string is greater than zero (the string case of [x > 0]). *)
Record Platform : Type := mkPlatform {
  JSON_parse : string -> result JSON;
  string_gt_zero : string -> bool
}.

(** [v > 0] *)
Definition gt_zero (P : Platform) (v : JSValue) : bool :=
  match v with
  | None => false
  | Some JNull => false
  | Some (JBool b) => b
  | Some (JNum n) => 0 <? n
  | Some (JStr s) => string_gt_zero P s
  | Some (JArr items) => string_gt_zero P (toString (JArr items))
  | Some (JObj _) => false
  end.

End Js.

(** ** The network, the clock and the random source *)

Module Net.
Import Js.

(** The [options] argument of [fetch].  [body] is the payload object;
    its serialisation by [JSON.stringify] is left implicit. *)
Record Options : Type := mkOptions {
  method : string;
  headers : list (string * string);
  body : JSON
}.

(** What the service reads of a [Response]: [status], and the outcomes
    of [text()] and [json()]. *)
Record Response : Type := mkResponse {
  status : Z;
  text : result string;
  json : result JSON
}.

(** [response.ok] *)
Definition ok (r : Response) : bool := (200 <=? status r) && (status r <=? 299).

(** A call of [fetch] rejects (transport failure) or resolves. *)
Inductive FetchOutcome : Type :=
| Rejected (e : Exn)
| Fulfilled (r : Response).

Inductive Event : Type :=
| Fetched (url : string) (options : Options)
| Slept (ms : Q)
| ConsoleError (label : string).

(** The environment of one run: [network i] is the outcome of the
    [i]-th call of [fetch], [random i] the [i]-th value of
    [Math.random()]; [events] records what the run did, in order. *)
Record World : Type := mkWorld {
  network : nat -> FetchOutcome;
  random : nat -> Q;
  fetches : nat;
  draws : nat;
  events : list Event
}.

(** A value of [Math.random()] lies in [0, 1). *)
Definition fair (w : World) : Prop :=
  forall i, (0 <= random w i /\ random w i < 1)%Q.

(** The jitter after rounding.  The code evaluates
    [Math.random() * 1000] and the sum with the base delay in double
    arithmetic, each operation rounded to nearest: for the largest value
    of [Math.random()], [1 - 2^-53], the delay of attempt 0 is exactly
    [2000], the value of the unrounded formula at 1.  Rounding is
    monotone and keeps the integers that bound the delay, so every delay
    the code computes is the value of the unrounded formula at some
    point of the closed interval [[0, 1]]; in such a world [random w i]
    stands for that point. *)
Definition fair_rounded (w : World) : Prop :=
  forall i, (0 <= random w i /\ random w i <= 1)%Q.

(** An asynchronous computation: it runs in a world and fulfils or rejects. *)
Definition Async (A : Type) : Type := World -> result A * World.

Definition aret {A : Type} (a : A) : Async A := fun w => (inr a, w).
Definition athrow {A : Type} (e : Exn) : Async A := fun w => (inl e, w).
Definition abind {A B : Type} (m : Async A) (k : A -> Async B) : Async B :=
  fun w =>
    match m w with
    | (inl e, w1) => (inl e, w1)
    | (inr a, w1) => k a w1
    end.
Definition lift {A : Type} (r : result A) : Async A := fun w => (r, w).

Notation "x <~ m ;; k" := (abind m (fun x => k))
  (at level 61, m at next level, right associativity).

Definition log (e : Event) (w : World) : World :=
  mkWorld (network w) (random w) (fetches w) (draws w) (events w ++ [e]).

(** [await fetch(url, options)] *)
Definition fetch (url : string) (options : Options) : Async Response :=
  fun w =>
    let w1 := mkWorld (network w) (random w) (S (fetches w)) (draws w)
                      (events w ++ [Fetched url options]) in
    match network w (fetches w) with
    | Rejected e => (inl e, w1)
    | Fulfilled r => (inr r, w1)
    end.

(** [Math.random()] *)
Definition Math_random : Async Q :=
  fun w =>
    (inr (random w (draws w)),
     mkWorld (network w) (random w) (fetches w) (S (draws w)) (events w)).

(** [await new Promise(resolve => setTimeout(resolve, delay))] *)
Definition sleep (delay : Q) : Async unit :=
  fun w => (inr tt, log (Slept delay) w).

(** [console.error(label, ...)] *)
Definition console_error (label : string) : Async unit :=
  fun w => (inr tt, log (ConsoleError label) w).

(** The delays slept so far, in order, and their sum. *)
Fixpoint delays (es : list Event) : list Q :=
  match es with
  | [] => []
  | Slept d :: es' => d :: delays es'
  | _ :: es' => delays es'
  end.

Definition total_delay (es : list Event) : Q :=
  fold_right Qplus (0 # 1)%Q (delays es).

Definition fetch_count (es : list Event) : nat :=
  length (filter (fun e => match e with Fetched _ _ => true | _ => false end) es).

End Net.

(** ** The retrying invoker *)

Module Invoker.
Import Js Net.

Definition maxRetries : nat := 3.

(** [Math.pow(2, retries) * 1000 + Math.random() * 1000], for the
    value [r] of [Math.random()]: the formula over the rationals, before
    the rounding of double arithmetic (see [fair_rounded]). *)
Definition delay_for (retries : nat) (r : Q) : Q :=
  (inject_Z (2 ^ Z.of_nat retries) * inject_Z 1000 + r * inject_Z 1000)%Q.

(** The two statements shared by both retry sites: compute [delay],
    then sleep for it. *)
Definition backoff (retries : nat) : Async unit :=
  r <~ Math_random ;;
  sleep (delay_for retries r).

(** How the [try] block ends when it does not throw: with the tail call
    [return fetchWithRetry(url, options, retries + 1)] or with
    [return response.json()].  Neither promise is awaited inside the
    block, so its rejection bypasses the [catch] clause. *)
Inductive Control (retries : nat) : Type :=
| Retry (H : (retries < maxRetries)%nat)
| ReturnJson (r : Response).
Arguments Retry {retries} H.
Arguments ReturnJson {retries} r.

Definition status_error (st : Z) (errorText : string) : Exn :=
  Error (String.append "API Request failed with status "
           (String.append (decimal st) (String.append ": " errorText))).

(** The body of the [try] block. *)
Definition attempt (url : string) (options : Options) (retries : nat)
  : Async (Control retries) :=
  response <~ fetch url options ;;
  if negb (ok response) then
    match status response =? 429, lt_dec retries maxRetries with
    | true, left H =>
        _ <~ backoff retries ;;
        aret (Retry H)
    | _, _ =>
        errorText <~ lift (text response) ;;
        athrow (status_error (status response) errorText)
    end
  else aret (ReturnJson response).

Equations? fetchWithRetry (url : string) (options : Options) (retries : nat)
  (w : World) : result JSON * World by wf (maxRetries - retries)%nat lt :=
fetchWithRetry url options retries w :=
  match attempt url options retries w with
  | (inr (Retry H), w1) => fetchWithRetry url options (S retries) w1
  | (inr (ReturnJson response), w1) => (json response, w1)
  | (inl error, w1) =>
      match lt_dec retries maxRetries with
      | left H =>
          fetchWithRetry url options (S retries) (snd (backoff retries w1))
      | right _ => (inl error, w1)
      end
  end.
Proof.
  all: unfold maxRetries in *; destruct retries as [|[|[|?]]]; cbn; lia.
Qed.

End Invoker.

(** ** The generators *)

Module Service.
Import Buffer Wav Base64 Js Net Invoker.

Definition API_KEY : string := EmptyString.

Definition BASE_URL_GEMINI_FLASH : string :=
  "https://generativelanguage.googleapis.com/v1beta/models/gemini-2.5-flash-preview-09-2025:generateContent".

Definition BASE_URL_IMAGEN : string :=
  "https://generativelanguage.googleapis.com/v1beta/models/imagen-4.0-generate-001:predict".

Definition BASE_URL_TTS : string :=
  "https://generativelanguage.googleapis.com/v1beta/models/gemini-2.5-flash-preview-tts:generateContent".

Definition with_key (base : string) : string :=
  String.append base (String.append "?key=" API_KEY).

Definition post (payload : JSON) : Options :=
  mkOptions "POST" [("Content-Type", "application/json")] payload.

(** [{ parts: [{ text: t }] }] *)
Definition parts_of (t : string) : JSON :=
  JObj [("parts", JArr [JObj [("text", JStr t)]])].

(** *** Text generation *)

Record Source : Type := mkSource { uri : JSValue; title : JSValue }.

Record TextResult : Type := mkTextResult {
  result_text : JSValue;
  sources : list Source
}.

(** [attribution => ({ uri: attribution.web?.uri, title: attribution.web?.title })] *)
Definition source_of (attribution : JSON) : result Source :=
  web <- get (Some attribution) "web" ;;
  ret (mkSource (get_opt web "uri") (get_opt web "title")).

Fixpoint array_map {A B : Type} (f : A -> result B) (items : list A)
  : result (list B) :=
  match items with
  | [] => ret []
  | x :: rest =>
      y <- f x ;;
      ys <- array_map f rest ;;
      ret (y :: ys)
  end.

(** [source => source.uri && source.title] *)
Definition has_both (source : Source) : bool :=
  truthy (uri source) && truthy (title source).

(** [groundingAttributions.map(...).filter(...)]; a value that is not
    an array has no [map] method. *)
Definition extract_sources (groundingAttributions : JSValue)
  : result (list Source) :=
  match groundingAttributions with
  | Some (JArr items) =>
      mapped <- array_map source_of items ;;
      ret (filter has_both mapped)
  | _ => throw TypeError
  end.

Definition text_failure : TextResult :=
  mkTextResult
    (Some (JStr "Error: Could not generate a response. Please check the API status."))
    [].

Definition text_payload (userQuery systemInstruction : string)
  (useGrounding : bool) : JSON :=
  JObj ([("contents", JArr [parts_of userQuery]);
         ("systemInstruction", parts_of systemInstruction)]
        ++ (if useGrounding
            then [("tools", JArr [JObj [("google_search", JObj [])]])]
            else [])).

(** [candidate && candidate.content?.parts?.[0]?.text] *)
Definition candidate_text (candidate : JSValue) : JSValue :=
  if truthy candidate
  then get_opt (get0_opt (get_opt (get_opt candidate "content") "parts")) "text"
  else candidate.

(** The statements of [generateTextContent] after the [await]. *)
Definition text_of_result (res : JSON) : Async TextResult :=
  candidates <~ lift (get (Some res) "candidates") ;;
  let candidate := get0_opt candidates in
  if truthy (candidate_text candidate) then
    lift (content <- get candidate "content" ;;
          parts <- get content "parts" ;;
          part <- get0 parts ;;
          text <- get part "text" ;;
          groundingMetadata <- get candidate "groundingMetadata" ;;
          srcs <- (if truthy groundingMetadata
                      && truthy (get_opt groundingMetadata "groundingAttributions")
                   then extract_sources
                          (get_opt groundingMetadata "groundingAttributions")
                   else ret []) ;;
          ret (mkTextResult text srcs))
  else
    _ <~ console_error "Gemini text generation failed:" ;;
    aret text_failure.

Definition generateTextContent (userQuery systemInstruction : string)
  (useGrounding : bool) : Async TextResult :=
  let apiUrl := with_key BASE_URL_GEMINI_FLASH in
  let payload := text_payload userQuery systemInstruction useGrounding in
  let options := post payload in
  res <~ fetchWithRetry apiUrl options 0 ;;
  text_of_result res.

(** *** Structured study content *)

Definition study_schema : JSON :=
  JObj [("type", JStr "ARRAY");
        ("description",
         JStr "A list of structured study items (flashcards or quiz questions).");
        ("items",
         JObj [("type", JStr "OBJECT");
               ("properties",
                JObj [("type", JObj [("type", JStr "STRING");
                                     ("enum", JArr [JStr "flashcard"; JStr "quiz"])]);
                      ("question", JObj [("type", JStr "STRING")]);
                      ("answer", JObj [("type", JStr "STRING")]);
                      ("options",
                       JObj [("type", JStr "ARRAY");
                             ("items", JObj [("type", JStr "STRING")]);
                             ("description",
                              JStr "Only used for quiz type. Contains 3 incorrect options and 1 correct one (which is the 'answer' field).")])]);
               ("required", JArr [JStr "type"; JStr "question"; JStr "answer"])])].

Definition study_payload (userQuery systemInstruction : string) : JSON :=
  JObj [("contents", JArr [parts_of userQuery]);
        ("systemInstruction", parts_of systemInstruction);
        ("generationConfig",
         JObj [("responseMimeType", JStr "application/json");
               ("responseSchema", study_schema)])].

(** The single-element fallback of the [catch] clause. *)
Definition study_failure : JSON :=
  JArr [JObj [("type", JStr "error");
              ("question", JStr "Error generating study material.");
              ("answer", JStr "Please try again with a clearer prompt.")]].

(** The body of the [try] block of [generateStructuredStudyContent]. *)
Definition parse_study (P : Platform) (res : JSON) : result JSON :=
  candidates <- get (Some res) "candidates" ;;
  let jsonString :=
    get_opt (get0_opt (get_opt (get_opt (get0_opt candidates) "content") "parts"))
            "text" in
  match jsonString with
  | Some j =>
      if truthy jsonString then JSON_parse P (toString j)
      else throw (Error "Received empty or malformed JSON string.")
  | None => throw (Error "Received empty or malformed JSON string.")
  end.

Definition study_of_result (P : Platform) (res : JSON) : Async JSON :=
  match parse_study P res with
  | inr parsed => aret parsed
  | inl e =>
      _ <~ console_error "Gemini structured generation failed:" ;;
      aret study_failure
  end.

Definition generateStructuredStudyContent (P : Platform)
  (userQuery systemInstruction : string) : Async JSON :=
  let apiUrl := with_key BASE_URL_GEMINI_FLASH in
  let payload := study_payload userQuery systemInstruction in
  let options := post payload in
  res <~ fetchWithRetry apiUrl options 0 ;;
  study_of_result P res.

(** *** Image generation *)

Definition image_payload (prompt : string) : JSON :=
  JObj [("instances", JArr [JObj [("prompt", JStr prompt)]]);
        ("parameters", JObj [("sampleCount", JNum 1)])].

(** [result.predictions && result.predictions.length > 0 &&
     result.predictions[0].bytesBase64Encoded]: the payload when the
    condition is truthy, [None] when it is falsy. *)
Definition image_bytes (P : Platform) (res : JSON) : result (option JSON) :=
  predictions <- get (Some res) "predictions" ;;
  if truthy predictions then
    len <- get predictions "length" ;;
    if gt_zero P len then
      first <- get0 predictions ;;
      bytes <- get first "bytesBase64Encoded" ;;
      ret (if truthy bytes then bytes else None)
    else ret None
  else ret None.

(** The statements of [generateImageContent] after the [await];
    [None] is [null]. *)
Definition image_of_result (P : Platform) (res : JSON) : Async (option string) :=
  bytes <~ lift (image_bytes P res) ;;
  match bytes with
  | Some b => aret (Some (String.append "data:image/png;base64," (toString b)))
  | None =>
      _ <~ console_error "Imagen generation failed:" ;;
      aret None
  end.

Definition generateImageContent (P : Platform) (prompt : string)
  : Async (option string) :=
  let apiUrl := with_key BASE_URL_IMAGEN in
  let payload := image_payload prompt in
  let options := post payload in
  res <~ fetchWithRetry apiUrl options 0 ;;
  image_of_result P res.

(** *** Speech synthesis *)

Definition is_digit (c : ascii) : bool :=
  let n := nat_of_ascii c in ((48 <=? n) && (n <=? 57))%nat.

(** The longest run of digits at the head of [s]: what [\d+] consumes. *)
Fixpoint leading_digits (s : string) : string :=
  match s with
  | String c s' => if is_digit c then String c (leading_digits s') else EmptyString
  | EmptyString => EmptyString
  end.

(** [s] without the prefix [p], when [s] starts with [p]. *)
Fixpoint strip_prefix (p s : string) : option string :=
  match p, s with
  | EmptyString, _ => Some s
  | String a p', String b s' =>
      if Ascii.eqb a b then strip_prefix p' s' else None
  | String _ _, EmptyString => None
  end.

(** Capture group 1 of [mimeType.match(/rate=(\d+)/)]: the digits of
    the leftmost place where [rate=] is followed by a digit; [None] when
    the match is [null]. *)
Fixpoint match_rate (s : string) : option string :=
  match strip_prefix "rate=" s with
  | Some (String d rest) =>
      if is_digit d then Some (leading_digits (String d rest))
      else match s with
           | String _ s' => match_rate s'
           | EmptyString => None
           end
  | _ =>
      match s with
      | String _ s' => match_rate s'
      | EmptyString => None
      end
  end.

(** [parseInt(digits, 10)] on a string of decimal digits: the integer
    that the digits write.  The result of the platform is the double
    nearest to that integer, which is the integer itself below [2^53]
    (a safe integer); above, the platform rounds. *)
Definition parseInt (digits : string) : Z :=
  fold_left (fun acc c => 10 * acc + (Z.of_nat (nat_of_ascii c) - 48))
            (list_ascii_of_string digits) 0.

(** [rateMatch ? parseInt(rateMatch[1], 10) : 24000] *)
Definition sample_rate_of (mimeType : string) : Z :=
  match match_rate mimeType with
  | Some digits => parseInt digits
  | None => 24000
  end.

(** [mimeType.startsWith("audio/L16")]; a truthy value that is not a
    string has no such method. *)
Definition startsWith_L16 (mimeType : JSON) : result bool :=
  match mimeType with
  | JStr s => ret (String.prefix "audio/L16" s)
  | _ => throw TypeError
  end.

(** A blob URL: [URL.createObjectURL(blob)]. *)
Inductive ObjectURL : Type := createObjectURL (blob : Blob).

Definition dquote : string := String (ascii_of_nat 34) EmptyString.

Definition tts_payload (text voiceName : string) : JSON :=
  let ttsPrompt :=
    String.append "Say clearly: " (String.append dquote (String.append text dquote)) in
  JObj [("contents", JArr [parts_of ttsPrompt]);
        ("generationConfig",
         JObj [("responseModalities", JArr [JStr "AUDIO"]);
               ("speechConfig",
                JObj [("voiceConfig",
                       JObj [("prebuiltVoiceConfig",
                              JObj [("voiceName", JStr voiceName)])])])]);
        ("model", JStr "gemini-2.5-flash-preview-tts")].

(** The [then] branch of [generateTTSAudio], steps 1 to 4. *)
Definition wav_url (audioData : JSON) (mimeType : string) : result ObjectURL :=
  let sampleRate := sample_rate_of mimeType in
  pcmData <- base64ToArrayBuffer (toString audioData) ;;
  pcm16 <- Int16Array pcmData ;;
  wavBlob <- pcmToWav pcm16 sampleRate ;;
  ret (createObjectURL wavBlob).

(** The synchronous decision of [generateTTSAudio]: [None] when the
    condition of the [if] is falsy. *)
Definition tts_decode (res : JSON) : result (option ObjectURL) :=
  let part :=
    get0_opt (get_opt (get_opt (get0_opt (get_opt (Some res) "candidates"))
                               "content") "parts") in
  let audioData := get_opt (get_opt part "inlineData") "data" in
  let mimeType := get_opt (get_opt part "inlineData") "mimeType" in
  match audioData, mimeType with
  | Some a, Some m =>
      if truthy audioData && truthy mimeType then
        starts <- startsWith_L16 m ;;
        if starts then
          url <- wav_url a (toString m) ;;
          ret (Some url)
        else ret None
      else ret None
  | _, _ => ret None
  end.

(** The statements of [generateTTSAudio] after the [await];
    [None] is [null]. *)
Definition tts_of_result (res : JSON) : Async (option ObjectURL) :=
  decoded <~ lift (tts_decode res) ;;
  match decoded with
  | Some url => aret (Some url)
  | None =>
      _ <~ console_error "TTS generation failed or returned invalid data:" ;;
      aret None
  end.

Definition generateTTSAudio (text voiceName : string)
  : Async (option ObjectURL) :=
  let apiUrl := with_key BASE_URL_TTS in
  let payload := tts_payload text voiceName in
  let options := post payload in
  res <~ fetchWithRetry apiUrl options 0 ;;
  tts_of_result res.

End Service.


(** ** A reference platform *)

Module JsonText.
Import Js.

(** JSON whitespace: space, tab, line feed, carriage return. *)
Definition is_json_ws (c : ascii) : bool :=
  let n := nat_of_ascii c in
  ((n =? 32) || (n =? 9) || (n =? 10) || (n =? 13))%nat.

Fixpoint skip_ws (cs : list ascii) : list ascii :=
  match cs with
  | c :: rest => if is_json_ws c then skip_ws rest else cs
  | [] => []
  end.

Definition digit_value (c : ascii) : option Z :=
  let n := Z.of_nat (nat_of_ascii c) in
  if (48 <=? n) && (n <=? 57) then Some (n - 48) else None.

Definition hex_value (c : ascii) : option Z :=
  let n := Z.of_nat (nat_of_ascii c) in
  if (48 <=? n) && (n <=? 57) then Some (n - 48)
  else if (65 <=? n) && (n <=? 70) then Some (n - 55)
  else if (97 <=? n) && (n <=? 102) then Some (n - 87)
  else None.

(** The digits at the head of [cs], folded into [acc], and what follows. *)
Fixpoint read_digits (acc : Z) (cs : list ascii) : Z * list ascii :=
  match cs with
  | c :: rest =>
      match digit_value c with
      | Some d => read_digits (10 * acc + d) rest
      | None => (acc, cs)
      end
  | [] => (acc, [])
  end.

(** A number may not continue with a fraction or an exponent: those
    literals denote values outside the integer model of [JNum], and this
    parser does not accept them. *)
Definition ends_integer (cs : list ascii) : bool :=
  match cs with
  | c :: _ =>
      let n := nat_of_ascii c in
      negb ((n =? 46) || (n =? 101) || (n =? 69))%nat
  | [] => true
  end.

(** An unsigned integer literal: [0], or a non-zero digit followed by digits. *)
Definition read_natural (cs : list ascii) : option (Z * list ascii) :=
  match cs with
  | c :: rest =>
      match digit_value c with
      | Some 0 => if ends_integer rest
                  then match rest with
                       | c' :: _ => match digit_value c' with
                                    | Some _ => None
                                    | None => Some (0, rest)
                                    end
                       | [] => Some (0, rest)
                       end
                  else None
      | Some d => let '(v, rest') := read_digits d rest in
                  if ends_integer rest' then Some (v, rest') else None
      | None => None
      end
  | [] => None
  end.

(** The characters of a string literal after its opening quote, up to
    the closing quote.  Escapes [\uXXXX] are accepted for code units
    below 256. *)
Fixpoint read_string (cs : list ascii) : option (string * list ascii) :=
  match cs with
  | [] => None
  | c :: rest =>
      let n := nat_of_ascii c in
      if (n =? 34)%nat then Some (EmptyString, rest)
      else if (n <? 32)%nat then None
      else if (n =? 92)%nat then
        match rest with
        | e :: rest1 =>
            let m := nat_of_ascii e in
            let plain (code : nat) :=
              match read_string rest1 with
              | Some (s, rest2) => Some (String (ascii_of_nat code) s, rest2)
              | None => None
              end in
            if (m =? 34)%nat then plain 34%nat
            else if (m =? 92)%nat then plain 92%nat
            else if (m =? 47)%nat then plain 47%nat
            else if (m =? 98)%nat then plain 8%nat
            else if (m =? 102)%nat then plain 12%nat
            else if (m =? 110)%nat then plain 10%nat
            else if (m =? 114)%nat then plain 13%nat
            else if (m =? 116)%nat then plain 9%nat
            else if (m =? 117)%nat then
              match rest1 with
              | h1 :: h2 :: h3 :: h4 :: rest2 =>
                  match hex_value h1, hex_value h2, hex_value h3, hex_value h4 with
                  | Some 0, Some 0, Some a, Some b =>
                      match read_string rest2 with
                      | Some (s, rest3) =>
                          Some (String (ascii_of_nat (Z.to_nat (16 * a + b))) s, rest3)
                      | None => None
                      end
                  | _, _, _, _ => None
                  end
              | _ => None
              end
            else None
        | [] => None
        end
      else
        match read_string rest with
        | Some (s, rest1) => Some (String c s, rest1)
        | None => None
        end
  end.

(** A later member with the same name replaces the value of the earlier one. *)
Fixpoint set_field (k : string) (v : JSON) (fields : list (string * JSON))
  : list (string * JSON) :=
  match fields with
  | [] => [(k, v)]
  | (k', v') :: rest =>
      if String.eqb k k' then (k, v) :: rest else (k', v') :: set_field k v rest
  end.

Definition starts_with (p : string) (cs : list ascii) : option (list ascii) :=
  let n := String.length p in
  if String.eqb (string_of_list_ascii (firstn n cs)) p then Some (skipn n cs)
  else None.

(** One JSON value at the head of [cs] (after whitespace), and the rest
    of the input.  [fuel] bounds the nesting depth and the number of
    elements; the length of the input is always enough. *)
Fixpoint read_value (fuel : nat) (cs : list ascii) : option (JSON * list ascii) :=
  match fuel with
  | O => None
  | S fuel' =>
      match skip_ws cs with
      | [] => None
      | c :: rest =>
          let n := nat_of_ascii c in
          if (n =? 34)%nat then
            match read_string rest with
            | Some (s, rest1) => Some (JStr s, rest1)
            | None => None
            end
          else if (n =? 91)%nat then
            match skip_ws rest with
            | c1 :: rest1 =>
                if (nat_of_ascii c1 =? 93)%nat then Some (JArr [], rest1)
                else
                  (fix elements (k : nat) (cs1 : list ascii) (acc : list JSON)
                     : option (JSON * list ascii) :=
                     match k with
                     | O => None
                     | S k' =>
                         match read_value fuel' cs1 with
                         | Some (v, rest2) =>
                             match skip_ws rest2 with
                             | c2 :: rest3 =>
                                 if (nat_of_ascii c2 =? 44)%nat
                                 then elements k' rest3 (v :: acc)
                                 else if (nat_of_ascii c2 =? 93)%nat
                                 then Some (JArr (rev (v :: acc)), rest3)
                                 else None
                             | [] => None
                             end
                         | None => None
                         end
                     end) fuel' rest []
            | [] => None
            end
          else if (n =? 123)%nat then
            match skip_ws rest with
            | c1 :: rest1 =>
                if (nat_of_ascii c1 =? 125)%nat then Some (JObj [], rest1)
                else
                  (fix members (k : nat) (cs1 : list ascii)
                       (acc : list (string * JSON))
                     : option (JSON * list ascii) :=
                     match k with
                     | O => None
                     | S k' =>
                         match skip_ws cs1 with
                         | q :: rest2 =>
                             if (nat_of_ascii q =? 34)%nat then
                               match read_string rest2 with
                               | Some (name, rest3) =>
                                   match skip_ws rest3 with
                                   | colon :: rest4 =>
                                       if (nat_of_ascii colon =? 58)%nat then
                                         match read_value fuel' rest4 with
                                         | Some (v, rest5) =>
                                             match skip_ws rest5 with
                                             | c2 :: rest6 =>
                                                 if (nat_of_ascii c2 =? 44)%nat
                                                 then members k' rest6
                                                        (set_field name v acc)
                                                 else if (nat_of_ascii c2 =? 125)%nat
                                                 then Some (JObj (set_field name v acc),
                                                            rest6)
                                                 else None
                                             | [] => None
                                             end
                                         | None => None
                                         end
                                       else None
                                   | [] => None
                                   end
                               | None => None
                               end
                             else None
                         | [] => None
                         end
                     end) fuel' rest []
            | [] => None
            end
          else if (n =? 45)%nat then
            match read_natural rest with
            | Some (v, rest1) => Some (JNum (- v), rest1)
            | None => None
            end
          else
            match starts_with "null" (c :: rest),
                  starts_with "true" (c :: rest),
                  starts_with "false" (c :: rest) with
            | Some rest1, _, _ => Some (JNull, rest1)
            | _, Some rest1, _ => Some (JBool true, rest1)
            | _, _, Some rest1 => Some (JBool false, rest1)
            | None, None, None =>
                match read_natural (c :: rest) with
                | Some (v, rest1) => Some (JNum v, rest1)
                | None => None
                end
            end
      end
  end.

(** [JSON.parse(text)] on the grammar of ECMA-404, integer numbers only:
    one value, surrounded by optional whitespace, and nothing else. *)
Definition parse (text : string) : result JSON :=
  let cs := list_ascii_of_string text in
  match read_value (S (length cs)) cs with
  | Some (v, rest) =>
      match skip_ws rest with
      | [] => ret v
      | _ :: _ => throw SyntaxError
      end
  | None => throw SyntaxError
  end.

(** Whether a string of decimal digits denotes a number above zero;
    other strings are taken as not above zero. *)
Definition digits_gt_zero (s : string) : bool :=
  match list_ascii_of_string s with
  | [] => false
  | cs =>
      match read_digits 0 cs with
      | (v, []) => 0 <? v
      | (_, _ :: _) => false
      end
  end.

Definition reference : Platform := mkPlatform parse digits_gt_zero.

End JsonText.

(** ** Vocabulary for stating properties of runs *)

Module Run.
Import Js Net Invoker.

(** The world after one call of [fetch]. *)
Definition after_fetch (url : string) (options : Options) (w : World) : World :=
  snd (fetch url options w).

(** The world after one failed attempt and its backoff: a call of
    [fetch], one value of [Math.random()], one sleep. *)
Definition retried (url : string) (options : Options) (retries : nat)
  (w : World) : World :=
  snd (backoff retries (after_fetch url options w)).

(** An outcome of [fetch] that is not a 2xx response. *)
Definition failing (o : FetchOutcome) : Prop :=
  match o with
  | Rejected _ => True
  | Fulfilled r => ok r = false
  end.

(** The error an attempt ends with when its outcome is failing and no
    retry follows: the rejection of [fetch], the rejection of
    [response.text()], or the status error built from status and body. *)
Definition attempt_error (o : FetchOutcome) : Exn :=
  match o with
  | Rejected e => e
  | Fulfilled r =>
      match text r with
      | inl e => e
      | inr errorText => status_error (status r) errorText
      end
  end.

(** [2 ^ retries * 1000] milliseconds. *)
Definition base_delay (retries : nat) : Q :=
  inject_Z (2 ^ Z.of_nat retries * 1000).

(** A fresh world over a list of outcomes (a rejected [fetch] once the
    list is used up) and a constant random value. *)
Definition scripted (outcomes : list FetchOutcome) (r : Q) : World :=
  mkWorld (fun i => nth i outcomes (Rejected (NetworkError "Failed to fetch")))
          (fun _ => r) 0 0 [].

(** A response with a status and a body text, whose body is not JSON. *)
Definition plain_response (st : Z) (body_text : string) : Response :=
  mkResponse st (inr body_text) (inl SyntaxError).

(** A 200 response whose body parses to [j]. *)
Definition json_response (j : JSON) : Response :=
  mkResponse 200 (inr EmptyString) (inr j).

(** The next call of [fetch] resolves with a 2xx response whose body
    parses to [res]. *)
Definition answered (w : World) (res : JSON) : Prop :=
  exists r, network w (fetches w) = Fulfilled r /\ ok r = true /\ json r = inr res.

(** [candidates[0]] of a response envelope. *)
Definition first_candidate (res : JSON) : JSValue :=
  get0_opt (get_opt (Some res) "candidates").

(** [candidates[0].content.parts[0]] *)
Definition first_part (res : JSON) : JSValue :=
  get0_opt (get_opt (get_opt (first_candidate res) "content") "parts").

(** [candidates[0].content.parts[0].text] *)
Definition response_text (res : JSON) : JSValue :=
  get_opt (first_part res) "text".

(** [candidates[0].groundingMetadata.groundingAttributions] *)
Definition attributions (res : JSON) : JSValue :=
  get_opt (get_opt (first_candidate res) "groundingMetadata")
          "groundingAttributions".

(** [candidates[0].content.parts[0].inlineData] *)
Definition inline_data (res : JSON) : JSValue :=
  get_opt (first_part res) "inlineData".

(** The [web.uri] and [web.title] of one attribution, as they are. *)
Definition web_fields (attribution : JSON) : Service.Source :=
  Service.mkSource (get_opt (get_opt (Some attribution) "web") "uri")
                   (get_opt (get_opt (Some attribution) "web") "title").

(** A response envelope with one candidate made of one part. *)
Definition envelope (part : JSON) (candidate_extras : list (string * JSON)) : JSON :=
  JObj [("candidates",
         JArr [JObj (("content", JObj [("parts", JArr [part])])
                     :: candidate_extras)])].

(** A speech response carrying [data] under the MIME type [mimeType]. *)
Definition speech_response (data mimeType : string) : JSON :=
  envelope (JObj [("inlineData",
                   JObj [("data", JStr data); ("mimeType", JStr mimeType)])]) [].

(** Every character is a decimal digit. *)
Fixpoint all_digits (s : string) : bool :=
  match s with
  | EmptyString => true
  | String c s' => Service.is_digit c && all_digits s'
  end.

(** The string does not begin with a decimal digit. *)
Definition no_leading_digit (s : string) : bool :=
  match s with
  | EmptyString => true
  | String c _ => negb (Service.is_digit c)
  end.

(** The letter [r] does not occur. *)
Fixpoint r_free (s : string) : bool :=
  match s with
  | EmptyString => true
  | String c s' => negb (Ascii.eqb c "r"%char) && r_free s'
  end.

(** The MIME type has no [rate=<N>] parameter: nowhere is [rate=]
    followed by a digit. *)
Definition rate_absent (mimeType : string) : Prop :=
  forall pre d rest,
    mimeType = (pre ++ "rate=" ++ String d rest)%string ->
    Service.is_digit d = false.

End Run.

(** ** The helpers inlined in the UI component *)

(** The component file carries its own copies of the transport and
    audio helpers: [delay], [performFetch], [base64ToArrayBuffer] (the
    same statements as the service's) and [pcmToWav]. *)

Module Ui.
Import Buffer Wav Js Net.

(** [view.setUint32(off, v, false)]: the four bytes of [v], most
    significant first. *)
Definition setUint32_be (off : nat) (v : Z) := write_bytes off (rev (le_bytes 4 v)).

(** The component's [pcmToWav(pcm16, sampleRate)]: the chunk identifiers
    are stored as big-endian 32-bit constants, the sizes are computed
    from [pcm16.length]. *)
Definition pcmToWav (pcm16 : list Z) (sampleRate : Z) : result Blob :=
  let numChannels := 1 in
  let numSamples := length pcm16 in
  let buffer := alloc (44 + numSamples * 2) in
  b <- setUint32_be 0 0x52494646 buffer ;;
  b <- setUint32 4 (36 + Z.of_nat numSamples * 2) b ;;
  b <- setUint32_be 8 0x57415645 b ;;
  b <- setUint32_be 12 0x666d7420 b ;;
  b <- setUint32 16 16 b ;;
  b <- setUint16 20 1 b ;;
  b <- setUint16 22 numChannels b ;;
  b <- setUint32 24 sampleRate b ;;
  b <- setUint32 28 (sampleRate * numChannels * 2) b ;;
  b <- setUint16 32 (numChannels * 2) b ;;
  b <- setUint16 34 16 b ;;
  b <- setUint32_be 36 0x64617461 b ;;
  b <- setUint32 40 (Z.of_nat numSamples * 2) b ;;
  b <- write_samples 44 pcm16 b ;;
  ret (mkBlob b "audio/wav").

(** [await delay(Math.pow(2, i) * 1000)] *)
Definition delay_ms (i : nat) : Q := inject_Z (2 ^ Z.of_nat i * 1000).

(** How one pass through the loop body ends when nothing is thrown to
    the caller: with [return response.json()], whose promise is not
    awaited inside the [try] block, or by falling through to the next
    value of [i]. *)
Inductive Step : Type :=
| Return (r : Response)
| Next.

Definition api_error (stringify : JSON -> string) (st : Z) (errorBody : JSON) : Exn :=
  Error (String.append "API request failed with status "
           (String.append (decimal st) (String.append ": " (stringify errorBody)))).

(** The [try] block of the loop body. *)
Definition try_block (stringify : JSON -> string) (url : string) (payload : JSON)
  (retries i : nat) : Async Step :=
  response <~ fetch url (Service.post payload) ;;
  if ok response then aret (Return response)
  else if (status response =? 429) && (Z.of_nat i <? Z.of_nat retries - 1) then
    _ <~ sleep (delay_ms i) ;;
    aret Next
  else
    errorBody <~ lift (json response) ;;
    _ <~ console_error "API Error:" ;;
    athrow (api_error stringify (status response) errorBody).

(** The loop body: the [try] block, and the [catch] clause that
    rethrows on the last pass and sleeps otherwise. *)
Definition pass (stringify : JSON -> string) (url : string) (payload : JSON)
  (retries i : nat) : Async Step :=
  fun w =>
    match try_block stringify url payload retries i w with
    | (inr step, w1) => (inr step, w1)
    | (inl error, w1) =>
        if Z.of_nat i =? Z.of_nat retries - 1 then (inl error, w1)
        else (inr Next, snd (sleep (delay_ms i) w1))
    end.

(** [for (let i = ...; i < retries; i++) { ... }], entered at [i]; when
    the loop runs out the function returns [undefined] ([None]). *)
Equations? loop_from (stringify : JSON -> string) (url : string) (payload : JSON)
  (retries i : nat) (w : World) : result (option JSON) * World
  by wf (retries - i)%nat lt :=
loop_from stringify url payload retries i w :=
  match lt_dec i retries with
  | left H =>
      match pass stringify url payload retries i w with
      | (inl error, w1) => (inl error, w1)
      | (inr (Return response), w1) =>
          (match json response with
           | inl e => inl e
           | inr body => inr (Some body)
           end, w1)
      | (inr Next, w1) => loop_from stringify url payload retries (S i) w1
      end
  | right _ => (inr None, w)
  end.
Proof. lia. Qed.

(** The error a failing pass ends with when it is the last one: the
    rejection of [fetch], the rejection of [response.json()], or the
    error built from the status and the serialised error body. *)
Definition last_error (stringify : JSON -> string) (o : FetchOutcome) : Exn :=
  match o with
  | Rejected e => e
  | Fulfilled r =>
      match json r with
      | inl e => e
      | inr errorBody => api_error stringify (status r) errorBody
      end
  end.

Definition performFetch (stringify : JSON -> string) (url : string) (payload : JSON)
  (retries : nat) : Async (option JSON) :=
  loop_from stringify url payload retries 0.

End Ui.

(** ** A reference serialiser *)

(** [JSON.stringify(v)] for the values of the model, in its compact
    form: members in the order of the list, strings quoted with the
    escapes of ECMA-404. *)

Module JsonPrint.
Import Js.

Definition hex_digit (n : nat) : ascii :=
  ascii_of_nat (if (n <? 10)%nat then 48 + n else 87 + n).

(** One character of a string, escaped when it must be. *)
Definition escape (c : ascii) : string :=
  let n := nat_of_ascii c in
  let backslash := ascii_of_nat 92 in
  if (n =? 34)%nat then String backslash (String c EmptyString)
  else if (n =? 92)%nat then String backslash (String c EmptyString)
  else if (n =? 8)%nat then String backslash "b"
  else if (n =? 9)%nat then String backslash "t"
  else if (n =? 10)%nat then String backslash "n"
  else if (n =? 12)%nat then String backslash "f"
  else if (n =? 13)%nat then String backslash "r"
  else if (n <? 32)%nat then
    String backslash
      (String "u" (String "0" (String "0"
         (String (hex_digit (n / 16)) (String (hex_digit (n mod 16)) EmptyString)))))
  else String c EmptyString.

Fixpoint escape_all (s : string) : string :=
  match s with
  | EmptyString => EmptyString
  | String c s' => String.append (escape c) (escape_all s')
  end.

Definition quote (s : string) : string :=
  String.append Service.dquote (String.append (escape_all s) Service.dquote).

Fixpoint stringify (v : JSON) : string :=
  match v with
  | JNull => "null"
  | JBool true => "true"
  | JBool false => "false"
  | JNum n => decimal n
  | JStr s => quote s
  | JArr items =>
      String.append "[" (String.append (String.concat "," (map stringify items)) "]")
  | JObj fields =>
      let member (kv : string * JSON) : string :=
        String.append (quote (fst kv)) (String.append ":" (stringify (snd kv))) in
      String.append "{" (String.append (String.concat "," (map member fields)) "}")
  end.

End JsonPrint.

(** ** Base64 encoding *)

(** The encoding that [atob] inverts: the standard alphabet of RFC 4648
    with [=] padding, as [btoa] and the speech endpoint produce it. *)

Module Base64Encode.

(** The character of a six-bit value. *)
Definition b64_char (v : Z) : ascii :=
  ascii_of_nat (Z.to_nat (if v <? 26 then v + 65
                          else if v <? 52 then v + 71
                          else if v <? 62 then v - 4
                          else if v =? 62 then 43
                          else 47)).

Definition equals_sign : ascii := ascii_of_nat 61.

(** Three bytes give four characters; a final group of two bytes gives
    three characters and one [=], a final single byte two characters and
    two [=]. *)
Fixpoint encode_groups (bs : list Z) : list ascii :=
  match bs with
  | a :: b :: c :: rest =>
      b64_char (Z.shiftr a 2)
      :: b64_char (Z.lor (Z.shiftl (Z.land a 3) 4) (Z.shiftr b 4))
      :: b64_char (Z.lor (Z.shiftl (Z.land b 15) 2) (Z.shiftr c 6))
      :: b64_char (Z.land c 63)
      :: encode_groups rest
  | [a; b] =>
      [b64_char (Z.shiftr a 2);
       b64_char (Z.lor (Z.shiftl (Z.land a 3) 4) (Z.shiftr b 4));
       b64_char (Z.shiftl (Z.land b 15) 2);
       equals_sign]
  | [a] =>
      [b64_char (Z.shiftr a 2);
       b64_char (Z.shiftl (Z.land a 3) 4);
       equals_sign; equals_sign]
  | [] => []
  end.

Definition encode (bs : list Z) : string :=
  string_of_list_ascii (encode_groups bs).

(** The same characters without the padding. *)
Fixpoint encode_unpadded (bs : list Z) : list ascii :=
  match bs with
  | a :: b :: c :: rest =>
      b64_char (Z.shiftr a 2)
      :: b64_char (Z.lor (Z.shiftl (Z.land a 3) 4) (Z.shiftr b 4))
      :: b64_char (Z.lor (Z.shiftl (Z.land b 15) 2) (Z.shiftr c 6))
      :: b64_char (Z.land c 63)
      :: encode_unpadded rest
  | [a; b] =>
      [b64_char (Z.shiftr a 2);
       b64_char (Z.lor (Z.shiftl (Z.land a 3) 4) (Z.shiftr b 4));
       b64_char (Z.shiftl (Z.land b 15) 2)]
  | [a] =>
      [b64_char (Z.shiftr a 2);
       b64_char (Z.shiftl (Z.land a 3) 4)]
  | [] => []
  end.

(** The significant characters of a text: all but ASCII whitespace. *)
Definition significant (text : string) : list ascii :=
  filter (fun c => negb (Base64.is_ascii_whitespace c)) (list_ascii_of_string text).

(** A byte. *)
Definition is_byte (b : Z) : Prop := 0 <= b < 256.

End Base64Encode.
(** * Properties *)

(** ** Byte-level facts *)

Module BufferFacts.
Import Buffer.

Lemma length_le_bytes : forall n v, length (le_bytes n v) = n.
Proof. intros n v. unfold le_bytes. rewrite length_map. apply length_seq. Qed.

(** The low byte comes first; the rest are the bytes of [v / 256]. *)
Lemma le_bytes_cons : forall n v,
  le_bytes (S n) v = Z.land v 255 :: le_bytes n (Z.shiftr v 8).
Proof.
  intros n v. unfold le_bytes. rewrite <- cons_seq, <- seq_shift, map_cons, map_map.
  rewrite Z.shiftr_0_r. f_equal.
  apply map_ext; intros i. rewrite Z.shiftr_shiftr by lia.
  f_equal. f_equal. lia.
Qed.

(** Reading the bytes of [v] back gives [v] modulo [2 ^ (8 n)]. *)
Lemma le_value_bytes : forall n v,
  le_value (le_bytes n v) = v mod 2 ^ (8 * Z.of_nat n).
Proof.
  induction n as [|n IH]; intros v.
  - cbn. apply eq_sym, Z.mod_1_r.
  - rewrite le_bytes_cons. cbn [le_value]. rewrite IH.
    replace (8 * Z.of_nat (S n)) with (8 + 8 * Z.of_nat n) by lia.
    rewrite Z.pow_add_r, Z.rem_mul_r by lia.
    change 255 with (Z.ones 8).
    rewrite Z.land_ones, Z.shiftr_div_pow2 by lia. reflexivity.
Qed.

Corollary le_value_bytes_id : forall n v,
  0 <= v < 2 ^ (8 * Z.of_nat n) -> le_value (le_bytes n v) = v.
Proof. intros n v Hv. rewrite le_value_bytes. apply Z.mod_small, Hv. Qed.

Lemma skipn_zeros : forall (n k : nat), skipn n (repeat 0 (n + k)) = repeat 0 k.
Proof. induction n as [|n IH]; intros k; [reflexivity | apply IH]. Qed.

(** A store placed right after the written prefix, into the zero tail. *)
Lemma write_bytes_next : forall (off : nat) (bs pre : list Z) (k : nat),
  off = length pre ->
  write_bytes off bs (pre ++ repeat 0 (length bs + k)) =
  inr ((pre ++ bs) ++ repeat 0 k).
Proof.
  intros off bs pre k Hoff. subst off. unfold write_bytes, ret.
  assert (Hfit : (length pre + length bs <=?
                  length (pre ++ repeat 0%Z (length bs + k)))%nat = true).
  { apply Nat.leb_le. rewrite length_app, repeat_length. lia. }
  rewrite Hfit. f_equal.
  rewrite firstn_app, firstn_all, Nat.sub_diag, firstn_O, app_nil_r.
  rewrite <- app_assoc. f_equal. f_equal.
  rewrite skipn_app, skipn_all2 by lia.
  replace (length pre + length bs - length pre)%nat with (length bs) by lia.
  apply skipn_zeros.
Qed.

(** The two stored bytes of a 16-bit sample read back as the sample. *)
Lemma sample_bytes_read_back : forall v,
  is_int16 v ->
  exists lo hi, le_bytes 2 v = [lo; hi] /\ to_int16 (lo + 256 * hi) = v.
Proof.
  intros v [Hmin Hmax].
  exists (Z.land v 255), (Z.land (Z.shiftr v 8) 255). split.
  - now rewrite !le_bytes_cons.
  - assert (E : Z.land v 255 + 256 * Z.land (Z.shiftr v 8) 255 = v mod 65536).
    { pose proof (le_value_bytes 2 v) as E. rewrite !le_bytes_cons in E.
      cbn [le_bytes seq map le_value] in E.
      change (2 ^ (8 * Z.of_nat 2)) with 65536 in E. rewrite <- E. ring. }
    rewrite E. unfold to_int16.
    destruct (Z_lt_le_dec v 0) as [Hneg|Hpos].
    + assert (M : v mod 65536 = v + 65536)
        by (symmetry; apply Z.mod_unique with (q := -1); lia).
      rewrite M. destruct (Z.ltb_spec (v + 65536) 32768); lia.
    + rewrite Z.mod_small by lia. destruct (Z.ltb_spec v 32768); lia.
Qed.

End BufferFacts.

(** ** The WAV encoder is total and lays out header and payload *)

Module WavFacts.
Import Buffer Wav BufferFacts.

Lemma char_code_byte : forall c : ascii,
  le_bytes 1 (Z.of_nat (nat_of_ascii c)) = [Z.of_nat (nat_of_ascii c)].
Proof.
  intros c. rewrite le_bytes_cons. cbn [le_bytes seq map]. f_equal.
  change 255 with (Z.ones 8). rewrite Z.land_ones by lia.
  apply Z.mod_small. pose proof (nat_ascii_bounded c). change (2 ^ 8) with 256. lia.
Qed.

Lemma writeString_from_next : forall (cs : list ascii) (i offset : nat)
  (pre : list Z) (k : nat),
  (offset + i)%nat = length pre ->
  writeString_from i offset cs (pre ++ repeat 0 (length cs + k)) =
  inr ((pre ++ map (fun c => Z.of_nat (nat_of_ascii c)) cs) ++ repeat 0 k).
Proof.
  induction cs as [|c cs IH]; intros i offset pre k Hpos.
  - cbn. now rewrite app_nil_r.
  - cbn [writeString_from length map]. unfold setUint8.
    rewrite char_code_byte.
    change (S (length cs) + k)%nat
      with (length [Z.of_nat (nat_of_ascii c)] + (length cs + k))%nat.
    rewrite write_bytes_next by exact Hpos. cbn [bind].
    rewrite IH by (rewrite length_app; cbn [length]; lia).
    now rewrite <- (app_assoc pre).
Qed.

Lemma writeString_next : forall (s : string) (offset : nat) (pre : list Z) (k : nat),
  offset = length pre ->
  writeString offset s (pre ++ repeat 0 (length (list_ascii_of_string s) + k)) =
  inr ((pre ++ ascii_codes s) ++ repeat 0 k).
Proof.
  intros s offset pre k Hpos. unfold writeString, ascii_codes.
  apply writeString_from_next. lia.
Qed.

Lemma write_samples_next : forall (pcm16 : list Z) (offset : nat)
  (pre : list Z) (k : nat),
  offset = length pre ->
  write_samples offset pcm16 (pre ++ repeat 0 (byteLength pcm16 + k)) =
  inr ((pre ++ wav_payload pcm16) ++ repeat 0 k).
Proof.
  unfold byteLength.
  induction pcm16 as [|s rest IH]; intros offset pre k Hpos.
  - cbn. now rewrite app_nil_r.
  - cbn [write_samples]. unfold setInt16.
    replace (2 * length (s :: rest) + k)%nat
      with (length (le_bytes 2 s) + (2 * length rest + k))%nat
      by (rewrite length_le_bytes; cbn [length]; lia).
    rewrite write_bytes_next by exact Hpos. cbn [bind].
    rewrite IH by (rewrite length_app, length_le_bytes; lia).
    unfold wav_payload. cbn [flat_map]. now rewrite <- (app_assoc pre).
Qed.

Ltac store k :=
  match goal with
  | |- context [write_bytes ?off ?bs (?pre ++ repeat 0 ?m)] =>
      change (repeat 0 m) with (repeat 0 (length bs + k)%nat);
      rewrite (@write_bytes_next off bs pre k) by reflexivity;
      cbv beta iota delta [bind]
  end.

Ltac store_text k :=
  match goal with
  | |- context [writeString ?off ?s (?pre ++ repeat 0 ?m)] =>
      change (repeat 0 m)
        with (repeat 0 (length (list_ascii_of_string s) + k)%nat);
      rewrite (@writeString_next s off pre k) by reflexivity;
      cbv beta iota delta [bind]
  end.

(** The encoder never raises, and its output is the header followed by
    the samples, two little-endian bytes each. *)
Lemma pcmToWav_bytes : forall (pcm16 : list Z) (sampleRate : Z),
  pcmToWav pcm16 sampleRate =
  inr (mkBlob (wav_header (length pcm16) sampleRate ++ wav_payload pcm16)
              "audio/wav").
Proof.
  intros pcm16 sampleRate. unfold pcmToWav, alloc, setUint32, setUint16.
  set (m := byteLength pcm16).
  change (repeat 0 (44 + m)) with ([] ++ repeat 0 (44 + m)).
  store_text (40 + m)%nat. store (36 + m)%nat.
  store_text (32 + m)%nat. store_text (28 + m)%nat.
  store (24 + m)%nat. store (22 + m)%nat. store (20 + m)%nat.
  store (16 + m)%nat. store (12 + m)%nat.
  store (10 + m)%nat. store (8 + m)%nat.
  store_text (4 + m)%nat. store (0 + m)%nat.
  subst m.
  change (0 + byteLength pcm16)%nat with (byteLength pcm16).
  rewrite <- (Nat.add_0_r (byteLength pcm16)) at 3.
  rewrite write_samples_next by reflexivity.
  cbv beta iota delta [bind ret]. do 2 f_equal.
  unfold wav_header, byteLength. cbn [repeat].
  rewrite app_nil_r, <- !app_assoc. reflexivity.
Qed.

End WavFacts.

Module WavClaims.
Import Buffer Wav BufferFacts WavFacts.

Lemma wav_header_length : forall n sampleRate,
  length (wav_header n sampleRate) = 44%nat.
Proof. reflexivity. Qed.

Lemma wav_payload_length : forall pcm16,
  length (wav_payload pcm16) = (2 * length pcm16)%nat.
Proof.
  induction pcm16 as [|s rest IH]; [reflexivity|].
  unfold wav_payload in *. cbn [flat_map].
  rewrite length_app, length_le_bytes, IH. cbn [length]. lia.
Qed.

(** The payload decodes to the samples it was made from. *)
Lemma payload_decodes : forall pcm16,
  Forall is_int16 pcm16 -> Int16Array (wav_payload pcm16) = inr pcm16.
Proof.
  induction 1 as [|s rest Hs _ IH]; [reflexivity|].
  destruct (sample_bytes_read_back Hs) as (lo & hi & Hbytes & Hval).
  unfold wav_payload in *. cbn [flat_map]. rewrite Hbytes.
  cbn [app Int16Array]. rewrite IH. cbn [bind ret]. now rewrite Hval.
Qed.

(** A field of the header, read at a constant offset, does not depend
    on the payload. *)
Lemma header_field : forall len off n sampleRate payload,
  (off + len <= 44)%nat ->
  getUint len off (wav_header n sampleRate ++ payload) =
  Some (le_value (slice off len (wav_header n sampleRate))).
Proof.
  intros len off n sampleRate payload Hin. unfold getUint.
  assert (Hfit : (off + len <=? length (wav_header n sampleRate ++ payload))%nat
                 = true).
  { apply Nat.leb_le. rewrite length_app, wav_header_length. lia. }
  rewrite Hfit. f_equal. f_equal. unfold slice.
  rewrite skipn_app, firstn_app, length_skipn, wav_header_length.
  replace (len - (44 - off))%nat with 0%nat by lia.
  now rewrite firstn_O, app_nil_r.
Qed.

Lemma header_text : forall off n sampleRate payload,
  (off + 4 <= 44)%nat ->
  slice off 4 (wav_header n sampleRate ++ payload) =
  slice off 4 (wav_header n sampleRate).
Proof.
  intros off n sampleRate payload Hin. unfold slice.
  rewrite skipn_app, firstn_app, length_skipn, wav_header_length.
  replace (4 - (44 - off))%nat with 0%nat by lia.
  now rewrite firstn_O, app_nil_r.
Qed.

(** C10: the two length fields of the output agree with its size.  For
    every sample sequence whose WAV image fits the 32-bit length fields
    and every sample rate, the encoder returns a buffer whose
    little-endian field at bytes 4-7 is [36 + 2 * sampleCount], which is
    the total length minus 8, and whose little-endian field at bytes
    40-43 is [2 * sampleCount], which is the total length minus 44. *)
Theorem wav_lengths_consistent : forall (pcm16 : list Z) (sampleRate : Z),
  36 + 2 * Z.of_nat (length pcm16) < 2 ^ 32 ->
  exists bytes,
    pcmToWav pcm16 sampleRate = inr (mkBlob bytes "audio/wav") /\
    getUint32 4 bytes = Some (36 + 2 * Z.of_nat (length pcm16)) /\
    36 + 2 * Z.of_nat (length pcm16) = Z.of_nat (length bytes) - 8 /\
    getUint32 40 bytes = Some (2 * Z.of_nat (length pcm16)) /\
    2 * Z.of_nat (length pcm16) = Z.of_nat (length bytes) - 44.
Proof.
  intros pcm16 sampleRate Hfit.
  exists (wav_header (length pcm16) sampleRate ++ wav_payload pcm16).
  assert (Hlen : Z.of_nat (length (wav_header (length pcm16) sampleRate
                                   ++ wav_payload pcm16))
                 = 44 + 2 * Z.of_nat (length pcm16)).
  { rewrite length_app, wav_header_length, wav_payload_length. lia. }
  split; [apply pcmToWav_bytes|].
  unfold getUint32. rewrite !header_field by lia.
  change (slice 4 4 (wav_header (length pcm16) sampleRate))
    with (le_bytes 4 (36 + Z.of_nat (2 * length pcm16))).
  change (slice 40 4 (wav_header (length pcm16) sampleRate))
    with (le_bytes 4 (Z.of_nat (2 * length pcm16))).
  rewrite !le_value_bytes_id by (change (2 ^ (8 * Z.of_nat 4)) with (2 ^ 32); lia).
  repeat split; try (f_equal; lia); lia.
Qed.

(** The four samples of the specification's example, a fifty-two byte file. *)
Lemma wav_lengths_consistent_witness :
  36 + 2 * Z.of_nat (length [0; 32767; -32768; 100]) < 2 ^ 32 /\
  exists bytes,
    pcmToWav [0; 32767; -32768; 100] 16000 = inr (mkBlob bytes "audio/wav") /\
    getUint32 4 bytes = Some 44 /\
    getUint32 40 bytes = Some 8 /\
    length bytes = 52%nat.
Proof.
  split; [cbn; lia|].
  destruct (@wav_lengths_consistent [0; 32767; -32768; 100] 16000)
    as (bytes & Hrun & Hriff & Htotal & Hdata & _); [cbn; lia|].
  exists bytes. repeat split; try assumption.
  cbn in Htotal. lia.
Defined.

(** C5 (as amended): the layout of the encoder's output.  For every
    sequence of signed 16-bit samples whose WAV image fits the 32-bit
    length fields and every sample rate from 0 up to (not including)
    [2 ^ 31], the encoder returns exactly 44 header bytes followed by
    [2 * sampleCount] payload bytes, with the ASCII chunk identifiers
    RIFF, WAVE, fmt and data at bytes 0, 8, 12 and 36, a format chunk of
    size 16 declaring PCM format code 1, one channel, the given sample
    rate, byte rate [sampleRate * 2], block align 2 and bit depth 16, a
    data chunk whose declared length is the payload length, every
    numeric field little-endian, and a payload that decodes back to the
    original samples. *)
Theorem wav_layout : forall (pcm16 : list Z) (sampleRate : Z),
  Forall is_int16 pcm16 ->
  0 <= sampleRate < 2 ^ 31 ->
  36 + 2 * Z.of_nat (length pcm16) < 2 ^ 32 ->
  exists bytes,
    pcmToWav pcm16 sampleRate = inr (mkBlob bytes "audio/wav") /\
    length bytes = (44 + 2 * length pcm16)%nat /\
    slice 0 4 bytes = ascii_codes "RIFF" /\
    slice 8 4 bytes = ascii_codes "WAVE" /\
    slice 12 4 bytes = ascii_codes "fmt " /\
    slice 36 4 bytes = ascii_codes "data" /\
    getUint32 16 bytes = Some 16 /\
    getUint16 20 bytes = Some 1 /\
    getUint16 22 bytes = Some 1 /\
    getUint32 24 bytes = Some sampleRate /\
    getUint32 28 bytes = Some (sampleRate * 2) /\
    getUint16 32 bytes = Some 2 /\
    getUint16 34 bytes = Some 16 /\
    getUint32 40 bytes = Some (Z.of_nat (2 * length pcm16)) /\
    Int16Array (slice 44 (2 * length pcm16) bytes) = inr pcm16.
Proof.
  intros pcm16 sampleRate Hsamples Hrate Hfit.
  exists (wav_header (length pcm16) sampleRate ++ wav_payload pcm16).
  split; [apply pcmToWav_bytes|].
  split; [now rewrite length_app, wav_header_length, wav_payload_length|].
  rewrite !header_text by lia.
  do 4 (split; [reflexivity|]).
  unfold getUint32, getUint16. rewrite !header_field by lia.
  do 3 (split; [reflexivity|]).
  split.
  { change (slice 24 4 (wav_header (length pcm16) sampleRate))
      with (le_bytes 4 sampleRate).
    rewrite le_value_bytes_id; [reflexivity|].
    change (2 ^ (8 * Z.of_nat 4)) with (2 ^ 32). lia. }
  split.
  { change (slice 28 4 (wav_header (length pcm16) sampleRate))
      with (le_bytes 4 (sampleRate * 2)).
    rewrite le_value_bytes_id; [reflexivity|].
    change (2 ^ (8 * Z.of_nat 4)) with (2 ^ 32). lia. }
  do 2 (split; [reflexivity|]).
  split.
  { change (slice 40 4 (wav_header (length pcm16) sampleRate))
      with (le_bytes 4 (Z.of_nat (2 * length pcm16))).
    rewrite le_value_bytes_id; [reflexivity|].
    change (2 ^ (8 * Z.of_nat 4)) with (2 ^ 32). lia. }
  unfold slice.
  rewrite skipn_app, wav_header_length, skipn_all2
    by (rewrite wav_header_length; lia).
  cbn [app Nat.sub skipn].
  rewrite <- wav_payload_length, firstn_all.
  now apply payload_decodes.
Qed.

(** The example of the specification: [0, 32767, -32768, 100] at 16000 Hz. *)
Lemma wav_layout_witness :
  Forall is_int16 [0; 32767; -32768; 100] /\
  0 <= 16000 < 2 ^ 31 /\
  exists bytes,
    pcmToWav [0; 32767; -32768; 100] 16000 = inr (mkBlob bytes "audio/wav") /\
    length bytes = 52%nat /\
    slice 0 4 bytes = ascii_codes "RIFF" /\
    slice 8 4 bytes = ascii_codes "WAVE" /\
    getUint32 24 bytes = Some 16000 /\
    Int16Array (slice 44 8 bytes) = inr [0; 32767; -32768; 100].
Proof.
  assert (Hs : Forall is_int16 [0; 32767; -32768; 100])
    by (repeat constructor; unfold is_int16; lia).
  split; [exact Hs|]. split; [lia|].
  destruct (@wav_layout [0; 32767; -32768; 100] 16000 Hs)
    as (bytes & Hrun & Hlen & Hriff & Hwave & _ & _ & _ & _ & _ & Hrate
        & _ & _ & _ & _ & Hdata); [lia | cbn; lia |].
  exists bytes. repeat split; assumption.
Defined.

(** The byte-rate field is 32 bits wide: at a sample rate of [2 ^ 31]
    the stored byte rate wraps to 0 and is not [sampleRate * 2]. *)
Lemma wav_byte_rate_wraps :
  exists bytes,
    pcmToWav [0; 32767; -32768; 100] 2147483648 = inr (mkBlob bytes "audio/wav") /\
    getUint32 28 bytes = Some 0 /\
    getUint32 28 bytes <> Some (2147483648 * 2).
Proof.
  eexists. split; [vm_compute; reflexivity|].
  split; [reflexivity | discriminate].
Qed.

End WavClaims.

(** ** The retrying invoker *)

Module InvokerFacts.
Import Js Net Invoker Run.

Lemma retried_events : forall url options retries w,
  events (retried url options retries w) =
  events w ++ [Fetched url options;
               Slept (delay_for retries (random w (draws w)))].
Proof.
  intros. unfold retried, after_fetch, backoff, abind, fetch, Math_random, sleep, log.
  destruct (network w (fetches w)); cbn; now rewrite <- app_assoc.
Qed.

Lemma retried_counters : forall url options retries w,
  network (retried url options retries w) = network w /\
  random (retried url options retries w) = random w /\
  fetches (retried url options retries w) = S (fetches w) /\
  draws (retried url options retries w) = S (draws w).
Proof.
  intros. unfold retried, after_fetch, backoff, abind, fetch, Math_random, sleep, log.
  destruct (network w (fetches w)); cbn; auto.
Qed.

(** A 2xx response ends the run with the outcome of [response.json()]. *)
Lemma fetch_success : forall url options retries w r,
  network w (fetches w) = Fulfilled r ->
  ok r = true ->
  fetchWithRetry url options retries w = (json r, after_fetch url options w).
Proof.
  intros url options retries w r Hnet Hok.
  rewrite fetchWithRetry_equation_1.
  unfold attempt, abind, after_fetch, fetch. rewrite Hnet. cbn [snd].
  now rewrite Hok.
Qed.

(** While retries remain, every failing outcome (a rejection of
    [fetch], a 429, any other non-2xx status) is followed by a backoff
    and a new attempt. *)
Lemma retry_step : forall url options retries w,
  (retries < maxRetries)%nat ->
  failing (network w (fetches w)) ->
  fetchWithRetry url options retries w =
  fetchWithRetry url options (S retries) (retried url options retries w).
Proof.
  intros url options retries w Hlt Hfail.
  rewrite fetchWithRetry_equation_1.
  unfold retried, after_fetch, attempt, abind, fetch, lift, athrow, aret.
  destruct (network w (fetches w)) as [e|r]; cbn [failing] in Hfail; cbn [snd].
  - destruct (lt_dec retries maxRetries); [reflexivity | contradiction].
  - rewrite Hfail. cbn [negb].
    destruct (status r =? 429); destruct (lt_dec retries maxRetries);
      try contradiction.
    + unfold backoff, abind, Math_random, sleep. reflexivity.
    + destruct (text r); reflexivity.
Qed.

(** With no retry left, a failing outcome ends the run with its error. *)
Lemma final_failure : forall url options retries w,
  (maxRetries <= retries)%nat ->
  failing (network w (fetches w)) ->
  fetchWithRetry url options retries w =
  (inl (attempt_error (network w (fetches w))), after_fetch url options w).
Proof.
  intros url options retries w Hge Hfail.
  rewrite fetchWithRetry_equation_1.
  unfold after_fetch, attempt, abind, fetch, lift, athrow, aret, attempt_error.
  destruct (network w (fetches w)) as [e|r]; cbn [failing] in Hfail; cbn [snd].
  - destruct (lt_dec retries maxRetries); [lia | reflexivity].
  - rewrite Hfail. cbn [negb].
    destruct (status r =? 429); destruct (lt_dec retries maxRetries);
      try lia; destruct (text r); reflexivity.
Qed.

Lemma status_429_failing : forall r, status r = 429 -> failing (Fulfilled r).
Proof. intros r H. unfold failing, ok. now rewrite H. Qed.

(** The computed delay lies between the base delay and the base delay
    plus the jitter bound. *)
Lemma delay_bounds : forall retries r,
  (0 <= r)%Q -> (r < 1)%Q ->
  (base_delay retries <= delay_for retries r)%Q /\
  (delay_for retries r < base_delay retries + inject_Z 1000)%Q.
Proof.
  intros retries r H0 H1. unfold base_delay, delay_for.
  rewrite inject_Z_mult.
  set (b := (inject_Z (2 ^ Z.of_nat retries) * inject_Z 1000)%Q).
  change (inject_Z 1000) with (1000 # 1)%Q. split; lra.
Qed.

(** The same bounds where the jitter can reach its upper end. *)
Lemma delay_bounds_closed : forall retries r,
  (0 <= r)%Q -> (r <= 1)%Q ->
  (base_delay retries <= delay_for retries r)%Q /\
  (delay_for retries r <= base_delay retries + inject_Z 1000)%Q.
Proof.
  intros retries r H0 H1. unfold base_delay, delay_for.
  rewrite inject_Z_mult.
  set (b := (inject_Z (2 ^ Z.of_nat retries) * inject_Z 1000)%Q).
  change (inject_Z 1000) with (1000 # 1)%Q. split; lra.
Qed.

Lemma fair_is_fair_rounded : forall w, fair w -> fair_rounded w.
Proof.
  intros w H i. destruct (H i) as [H0 H1]. split; [exact H0|].
  now apply Qlt_le_weak.
Qed.

End InvokerFacts.

Module InvokerClaims.
Import Js Net Invoker Run InvokerFacts.

Lemma delays_app : forall es1 es2, delays (es1 ++ es2) = delays es1 ++ delays es2.
Proof.
  induction es1 as [|e es1 IH]; intros es2; [reflexivity|].
  destruct e; cbn [app delays]; now rewrite IH.
Qed.

Lemma fetch_count_app : forall es1 es2,
  fetch_count (es1 ++ es2) = (fetch_count es1 + fetch_count es2)%nat.
Proof. intros. unfold fetch_count. now rewrite filter_app, length_app. Qed.

(** The last attempt makes one call of [fetch] and sleeps no more. *)
Lemma last_attempt_events : forall url options retries w,
  (maxRetries <= retries)%nat ->
  events (snd (fetchWithRetry url options retries w)) =
  events w ++ [Fetched url options].
Proof.
  intros url options retries w Hge.
  assert (Hev : events (after_fetch url options w) = events w ++ [Fetched url options]).
  { unfold after_fetch, fetch. now destruct (network w (fetches w)). }
  destruct (network w (fetches w)) as [e|r] eqn:Hnet.
  - rewrite final_failure by (rewrite ?Hnet; cbn; auto). exact Hev.
  - destruct (ok r) eqn:Hok.
    + rewrite (fetch_success url options retries w Hnet Hok). exact Hev.
    + rewrite final_failure by (rewrite ?Hnet; cbn; auto). exact Hev.
Qed.

(** Three failing outcomes in a row, from [retries = 0], lead to the
    fourth and last attempt after three backoff sleeps. *)
Lemma three_retries : forall url options w,
  (forall i, (i < 3)%nat -> failing (network w (fetches w + i))) ->
  exists w3,
    fetchWithRetry url options 0 w = fetchWithRetry url options 3 w3 /\
    network w3 = network w /\
    fetches w3 = (fetches w + 3)%nat /\
    events w3 =
      events w ++
      [Fetched url options; Slept (delay_for 0 (random w (draws w)));
       Fetched url options; Slept (delay_for 1 (random w (draws w + 1)));
       Fetched url options; Slept (delay_for 2 (random w (draws w + 2)))].
Proof.
  intros url options w Hfail.
  set (w1 := retried url options 0 w).
  set (w2 := retried url options 1 w1).
  set (w3 := retried url options 2 w2).
  destruct (retried_counters url options 0 w) as (N1 & R1 & F1 & D1).
  destruct (retried_counters url options 1 w1) as (N2 & R2 & F2 & D2).
  destruct (retried_counters url options 2 w2) as (N3 & R3 & F3 & D3).
  fold w1 in N1, R1, F1, D1. fold w2 in N2, R2, F2, D2. fold w3 in N3, R3, F3, D3.
  exists w3. repeat split.
  - rewrite (@retry_step url options 0 w); [|unfold maxRetries; lia|].
    2:{ specialize (Hfail 0%nat). rewrite Nat.add_0_r in Hfail. apply Hfail. lia. }
    fold w1.
    rewrite (@retry_step url options 1 w1); [|unfold maxRetries; lia|].
    2:{ rewrite N1, F1. specialize (Hfail 1%nat).
        replace (S (fetches w)) with (fetches w + 1)%nat by lia. apply Hfail. lia. }
    fold w2.
    rewrite (@retry_step url options 2 w2); [|unfold maxRetries; lia|].
    2:{ rewrite N2, F2, N1, F1. specialize (Hfail 2%nat).
        replace (S (S (fetches w))) with (fetches w + 2)%nat by lia. apply Hfail. lia. }
    reflexivity.
  - congruence.
  - lia.
  - unfold w3. rewrite retried_events. fold w2. unfold w2 at 1.
    rewrite retried_events. fold w1. unfold w1 at 1. rewrite retried_events.
    rewrite R2, D2, R1, D1.
    replace (S (draws w)) with (draws w + 1)%nat by lia.
    replace (S (draws w + 1)) with (draws w + 2)%nat by lia.
    now rewrite <- !app_assoc.
Qed.

(** C4: the 429 path.  For every HTTP 429 response with retries
    remaining the invoker sleeps a delay [d] with
    [2^retries * 1000 <= d <= 2^retries * 1000 + 1000] and then runs
    the next attempt with [retries + 1]; once the maximum of 3 retries is
    used up, a 429 response makes it fail with the error of that last
    attempt. *)
Theorem rate_limited_retry : forall url options retries w r,
  fair w ->
  network w (fetches w) = Fulfilled r ->
  status r = 429 ->
  maxRetries = 3%nat /\
  ((retries < maxRetries)%nat ->
     exists d,
       d = delay_for retries (random w (draws w)) /\
       (base_delay retries <= d)%Q /\
       (d <= base_delay retries + inject_Z 1000)%Q /\
       events (retried url options retries w) =
         events w ++ [Fetched url options; Slept d] /\
       fetchWithRetry url options retries w =
         fetchWithRetry url options (S retries) (retried url options retries w)) /\
  ((maxRetries <= retries)%nat ->
     fetchWithRetry url options retries w =
       (inl (attempt_error (Fulfilled r)), after_fetch url options w) /\
     events (after_fetch url options w) = events w ++ [Fetched url options]).
Proof.
  intros url options retries w r Hfair Hnet H429.
  pose proof (status_429_failing r H429) as Hfail.
  split; [reflexivity|]. split.
  - intros Hlt. exists (delay_for retries (random w (draws w))).
    destruct (Hfair (draws w)) as [H0 H1].
    destruct (delay_bounds retries H0 H1) as [Hlo Hhi].
    repeat split; try assumption.
    + now apply Qlt_le_weak.
    + apply retried_events.
    + apply retry_step; [assumption | now rewrite Hnet].
  - intros Hge. split.
    + rewrite <- Hnet. apply final_failure; [assumption | now rewrite Hnet].
    + unfold after_fetch, fetch. now rewrite Hnet.
Qed.

(** Four 429 responses in a row: the first attempt sleeps between 1000
    and 2000 ms and hands over to the second. *)
Lemma rate_limited_retry_witness :
  let w := scripted [Fulfilled (plain_response 429 "slow down");
                     Fulfilled (plain_response 429 "slow down");
                     Fulfilled (plain_response 429 "slow down");
                     Fulfilled (plain_response 429 "quota")] (1 # 2) in
  fair w /\
  exists d,
    (1000 # 1 <= d)%Q /\ (d <= 2000 # 1)%Q /\
    fetchWithRetry "u" (mkOptions "POST" [] JNull) 0 w =
    fetchWithRetry "u" (mkOptions "POST" [] JNull) 1
                   (retried "u" (mkOptions "POST" [] JNull) 0 w).
Proof.
  intros w.
  assert (Hfair : fair w) by (intros i; cbn; split; [discriminate | reflexivity]).
  split; [exact Hfair|].
  destruct (@rate_limited_retry "u" (mkOptions "POST" [] JNull) 0 w
              (plain_response 429 "slow down") Hfair eq_refl eq_refl)
    as (_ & Hretry & _).
  destruct (Hretry ltac:(unfold maxRetries; lia)) as (d & _ & Hlo & Hhi & _ & Hrun).
  exists d. repeat split; assumption.
Defined.

(** Four failing outcomes in a row, from [retries = 0]: the run ends
    with the error of the fourth attempt, after four calls of [fetch]
    and three sleeps. *)
Lemma exhausted_run : forall url options w,
  (forall i, (i < 4)%nat -> failing (network w (fetches w + i))) ->
  exists final,
    fetchWithRetry url options 0 w =
      (inl (attempt_error (network w (fetches w + 3))), final) /\
    fetch_count (events final) = (fetch_count (events w) + 4)%nat /\
    length (delays (events final)) = (length (delays (events w)) + 3)%nat.
Proof.
  intros url options w Hfail.
  destruct (@three_retries url options w) as (w3 & Hrun & N3 & F3 & E3).
  { intros i Hi. apply Hfail. lia. }
  assert (Hlast : failing (network w3 (fetches w3))).
  { rewrite N3, F3. apply Hfail. lia. }
  exists (after_fetch url options w3). split; [|split].
  - rewrite Hrun, final_failure; [|unfold maxRetries; lia|exact Hlast].
    now rewrite N3, F3.
  - unfold after_fetch, fetch. destruct (network w3 (fetches w3)); cbn [snd events];
      rewrite E3, !fetch_count_app; cbn; lia.
  - unfold after_fetch, fetch. destruct (network w3 (fetches w3)); cbn [snd events];
      rewrite E3, !delays_app, !length_app; cbn; lia.
Qed.

(** A non-2xx status other than 429.  With no retry left
    ([retries >= 3]) the invoker fails at once: one call of [fetch], no
    sleep, and an error that carries the status code and the body text.
    While retries remain ([retries < 3]) the error is thrown inside the
    [try] block, caught by the [catch] clause of the same call, and
    followed by a backoff sleep and a new attempt with [retries + 1]. *)
Lemma non_retryable_status : forall url options retries w r errorText,
  network w (fetches w) = Fulfilled r ->
  ok r = false ->
  status r <> 429 ->
  text r = inr errorText ->
  ((maxRetries <= retries)%nat ->
     fetchWithRetry url options retries w =
       (inl (status_error (status r) errorText), after_fetch url options w) /\
     events (after_fetch url options w) = events w ++ [Fetched url options]) /\
  ((retries < maxRetries)%nat ->
     fetchWithRetry url options retries w =
       fetchWithRetry url options (S retries) (retried url options retries w) /\
     events (retried url options retries w) =
       events w ++ [Fetched url options;
                    Slept (delay_for retries (random w (draws w)))]).
Proof.
  intros url options retries w r errorText Hnet Hok Hstatus Htext.
  assert (Hfail : failing (network w (fetches w))) by now rewrite Hnet.
  split.
  - intros Hge. split.
    + rewrite final_failure by assumption.
      rewrite Hnet. unfold attempt_error. now rewrite Htext.
    + unfold after_fetch, fetch. now rewrite Hnet.
  - intros Hlt. split.
    + now apply retry_step.
    + apply retried_events.
Qed.

(** A 500 response on the last attempt, and a 500 response on the first. *)
Example non_retryable_status_500 :
  let options := mkOptions "POST" [] JNull in
  let w := scripted [Fulfilled (plain_response 500 "boom");
                     Fulfilled (json_response (JNum 7))] 0 in
  fetchWithRetry "u" options 3 w =
    (inl (Error "API Request failed with status 500: boom"),
     after_fetch "u" options w) /\
  fetchWithRetry "u" options 0 w =
    fetchWithRetry "u" options 1 (retried "u" options 0 w).
Proof.
  intros options w.
  destruct (@non_retryable_status "u" options 3 w (plain_response 500 "boom")
              "boom" eq_refl eq_refl ltac:(discriminate) eq_refl)
    as [Hlast _].
  destruct (@non_retryable_status "u" options 0 w (plain_response 500 "boom")
              "boom" eq_refl eq_refl ltac:(discriminate) eq_refl)
    as [_ Hfirst].
  split.
  - apply Hlast. unfold maxRetries. lia.
  - apply Hfirst. unfold maxRetries. lia.
Defined.

(** C1 (the code on a non-429 error status): a 500 response followed
    by a 200 response.  The invoker does not fail immediately with the
    error of the 500 response: the error is caught by the [catch] clause
    of the same call, the invoker sleeps 1000 ms, calls [fetch] a second
    time and returns the body of the second response. *)
Theorem server_error_is_retried :
  let options := mkOptions "POST" [] JNull in
  let w := scripted [Fulfilled (plain_response 500 "boom");
                     Fulfilled (json_response (JNum 7))] 0 in
  fst (fetchWithRetry "u" options 0 w) = inr (JNum 7) /\
  fetch_count (events (snd (fetchWithRetry "u" options 0 w))) = 2%nat /\
  delays (events (snd (fetchWithRetry "u" options 0 w))) = [inject_Z 1000].
Proof. vm_compute. repeat split. Qed.

(** C2 (as amended): the cumulative backoff of a run that uses up all
    three retries.  Such a run sleeps three times, for the delays of
    attempts 0, 1 and 2; whatever the jitter values, their sum is at
    least 7000 ms and at most 10000 ms, and each single delay is at most
    5000 ms.  The upper bounds are not strict: in double arithmetic the
    jitter term can round up to the full 1000 ms, so the statement is
    made for jitter in the closed interval. *)
Theorem backoff_total_delay : forall url options w,
  fair_rounded w ->
  (forall i, (i < 3)%nat -> failing (network w (fetches w + i))) ->
  exists d0 d1 d2,
    delays (events (snd (fetchWithRetry url options 0 w))) =
      delays (events w) ++ [d0; d1; d2] /\
    (d0 <= inject_Z 5000)%Q /\ (d1 <= inject_Z 5000)%Q /\
    (d2 <= inject_Z 5000)%Q /\
    (inject_Z 7000 <= d0 + d1 + d2)%Q /\
    (d0 + d1 + d2 <= inject_Z 10000)%Q /\
    (delays (events w) = [] ->
     (inject_Z 7000 <= total_delay (events (snd (fetchWithRetry url options 0 w))))%Q /\
     (total_delay (events (snd (fetchWithRetry url options 0 w))) <= inject_Z 10000)%Q).
Proof.
  intros url options w Hfair Hfail.
  destruct (three_retries url options w Hfail) as (w3 & Hrun & _ & _ & E3).
  exists (delay_for 0 (random w (draws w))),
         (delay_for 1 (random w (draws w + 1))),
         (delay_for 2 (random w (draws w + 2))).
  assert (Hdelays :
            delays (events (snd (fetchWithRetry url options 0 w))) =
            delays (events w) ++ [delay_for 0 (random w (draws w));
                                  delay_for 1 (random w (draws w + 1));
                                  delay_for 2 (random w (draws w + 2))]).
  { rewrite Hrun, last_attempt_events by (unfold maxRetries; lia).
    rewrite E3, !delays_app. cbn [delays]. now rewrite app_nil_r. }
  split; [exact Hdelays|].
  unfold total_delay. rewrite Hdelays.
  destruct (Hfair (draws w)) as [A0 A1].
  destruct (Hfair (draws w + 1)%nat) as [B0 B1].
  destruct (Hfair (draws w + 2)%nat) as [C0 C1].
  destruct (delay_bounds_closed 0 A0 A1) as [L0 U0].
  destruct (delay_bounds_closed 1 B0 B1) as [L1 U1].
  destruct (delay_bounds_closed 2 C0 C1) as [L2 U2].
  unfold base_delay in *. cbn [Z.of_nat Pos.of_succ_nat Pos.succ] in *.
  change (inject_Z (2 ^ 0 * 1000)) with (1000 # 1)%Q in *.
  change (inject_Z (2 ^ 1 * 1000)) with (2000 # 1)%Q in *.
  change (inject_Z (2 ^ 2 * 1000)) with (4000 # 1)%Q in *.
  change (inject_Z 1000) with (1000 # 1)%Q in *.
  change (inject_Z 5000) with (5000 # 1)%Q.
  change (inject_Z 7000) with (7000 # 1)%Q.
  change (inject_Z 10000) with (10000 # 1)%Q.
  do 5 (split; [lra|]).
  intros Hfresh. rewrite Hfresh. cbn [app fold_right]. split; lra.
Qed.

(** Four 429 responses with jitter one half: the run sleeps 1500, 2500
    and 4500 ms.  With every jitter term rounded up to 1000 ms it sleeps
    2000, 3000 and 5000 ms: the bound of 10000 ms is reached. *)
Lemma backoff_total_delay_witness :
  let options := mkOptions "POST" [] JNull in
  let outcomes := [Fulfilled (plain_response 429 "slow down");
                   Fulfilled (plain_response 429 "slow down");
                   Fulfilled (plain_response 429 "slow down");
                   Fulfilled (plain_response 429 "quota")] in
  let w := scripted outcomes (1 # 2) in
  fair_rounded w /\
  (exists d0 d1 d2,
     delays (events (snd (fetchWithRetry "u" options 0 w))) = [d0; d1; d2] /\
     (inject_Z 7000 <= d0 + d1 + d2)%Q /\
     (d0 + d1 + d2 <= inject_Z 10000)%Q) /\
  fair_rounded (scripted outcomes 1) /\
  (total_delay (events (snd (fetchWithRetry "u" options 0 (scripted outcomes 1))))
     == inject_Z 10000)%Q.
Proof.
  intros options outcomes w.
  assert (Hfair : fair_rounded w) by (intros i; cbn; split; discriminate).
  split; [exact Hfair|]. split.
  - destruct (@backoff_total_delay "u" options w Hfair)
      as (d0 & d1 & d2 & Hd & _ & _ & _ & Hlo & Hhi & _).
    { intros i Hi. destruct i as [|[|[|i]]]; [reflexivity..|lia]. }
    exists d0, d1, d2. repeat split; assumption.
  - split; [intros i; cbn; split; discriminate | reflexivity].
Defined.

(** Four 429 responses and no jitter at all: the three sleeps add up
    to 7000 ms, which is more than 5000 ms. *)
Lemma backoff_exceeds_5000 :
  let options := mkOptions "POST" [] JNull in
  let w := scripted [Fulfilled (plain_response 429 "slow down");
                     Fulfilled (plain_response 429 "slow down");
                     Fulfilled (plain_response 429 "slow down");
                     Fulfilled (plain_response 429 "quota")] 0 in
  fetch_count (events (snd (fetchWithRetry "u" options 0 w))) = 4%nat /\
  (total_delay (events (snd (fetchWithRetry "u" options 0 w))) == inject_Z 7000)%Q /\
  ~ (total_delay (events (snd (fetchWithRetry "u" options 0 w))) <= inject_Z 5000)%Q.
Proof.
  vm_compute. split; [reflexivity|]. split; [reflexivity|].
  intros H. apply H. reflexivity.
Qed.

End InvokerClaims.

(** ** The generators *)

Module ServiceFacts.
Import Buffer Wav Base64 Js Net Invoker Service Run InvokerFacts.

(** Reading a property that is there means the base is neither
    [undefined] nor [null], so the plain and the optional access agree. *)
Lemma get_opt_inv : forall v k x,
  get_opt v k = Some x ->
  exists j, v = Some j /\ j <> JNull /\ own_prop j k = Some x.
Proof.
  intros [j|] k x H; [|discriminate].
  exists j. destruct j; try discriminate; repeat split; auto; discriminate.
Qed.

Lemma get0_opt_inv : forall v x,
  get0_opt v = Some x ->
  exists j, v = Some j /\ j <> JNull /\ first_item j = Some x.
Proof.
  intros [j|] x H; [|discriminate].
  exists j. destruct j; try discriminate; repeat split; auto; discriminate.
Qed.

Lemma get_defined : forall j k,
  j <> JNull -> get (Some j) k = inr (get_opt (Some j) k).
Proof. intros j k Hj. destruct j; try reflexivity. contradiction. Qed.

Lemma get0_defined : forall j,
  j <> JNull -> get0 (Some j) = inr (get0_opt (Some j)).
Proof. intros j Hj. destruct j; try reflexivity. contradiction. Qed.

(** Only an object has own properties other than [length]. *)
Lemma own_prop_object : forall j k x,
  own_prop j k = Some x -> String.eqb k "length" = false ->
  exists fields, j = JObj fields.
Proof.
  intros j k x H Hk. destruct j; cbn in H; try discriminate.
  - rewrite Hk in H. discriminate.
  - rewrite Hk in H. discriminate.
  - eauto.
Qed.

Lemma falsy_get_opt_falsy : forall v k,
  truthy v = false -> truthy (get_opt v k) = false.
Proof.
  intros [j|] k H; [|reflexivity].
  destruct j as [|b|n|s|items|fields]; cbn in *; try reflexivity; try discriminate.
  - destruct (String.eqb k "length"); [|reflexivity].
    destruct s; [reflexivity | discriminate].
Qed.

(** After a 2xx response each generator continues with its
    post-processing of the parsed body. *)
Lemma text_after_success : forall userQuery systemInstruction useGrounding w res,
  answered w res ->
  exists w1,
    generateTextContent userQuery systemInstruction useGrounding w =
    text_of_result res w1.
Proof.
  intros q s g w res (r & Hnet & Hok & Hjson). eexists.
  unfold generateTextContent, abind.
  rewrite (fetch_success _ _ 0 w Hnet Hok), Hjson. reflexivity.
Qed.

Lemma study_after_success : forall P userQuery systemInstruction w res,
  answered w res ->
  exists w1,
    generateStructuredStudyContent P userQuery systemInstruction w =
    study_of_result P res w1.
Proof.
  intros P q s w res (r & Hnet & Hok & Hjson). eexists.
  unfold generateStructuredStudyContent, abind.
  rewrite (fetch_success _ _ 0 w Hnet Hok), Hjson. reflexivity.
Qed.

Lemma image_after_success : forall P prompt w res,
  answered w res ->
  exists w1, generateImageContent P prompt w = image_of_result P res w1.
Proof.
  intros P q w res (r & Hnet & Hok & Hjson). eexists.
  unfold generateImageContent, abind.
  rewrite (fetch_success _ _ 0 w Hnet Hok), Hjson. reflexivity.
Qed.

Lemma tts_after_success : forall text voiceName w res,
  answered w res ->
  exists w1, generateTTSAudio text voiceName w = tts_of_result res w1.
Proof.
  intros t v w res (r & Hnet & Hok & Hjson). eexists.
  unfold generateTTSAudio, abind.
  rewrite (fetch_success _ _ 0 w Hnet Hok), Hjson. reflexivity.
Qed.

End ServiceFacts.

Module ImageClaims.
Import Js Net Invoker Service Run ServiceFacts.

Lemma image_none : forall P res w,
  image_bytes P res = inr None ->
  fst (image_of_result P res w) = inr None.
Proof.
  intros P res w H. unfold image_of_result, abind, lift. now rewrite H.
Qed.

Lemma image_some : forall P res w b,
  image_bytes P res = inr (Some b) ->
  fst (image_of_result P res w) =
  inr (Some (String.append "data:image/png;base64," (toString b))).
Proof.
  intros P res w b H. unfold image_of_result, abind, lift. now rewrite H.
Qed.

Lemma nonempty_truthy : forall s, s <> EmptyString -> truthy (Some (JStr s)) = true.
Proof. intros [|c s] H; [contradiction | reflexivity]. Qed.

(** The responses that the image generator handles as the
    specification says: a JSON object whose [predictions], when it is a
    list, has a first entry other than [null].  Without a truthy
    [predictions] field, with an empty list, or with a first prediction
    that carries no [bytesBase64Encoded] payload, [generateImageContent]
    fulfils with [null]; when the first prediction carries a payload it
    fulfils with the data URI [data:image/png;base64,<payload>]. *)
Lemma image_best_effort : forall P prompt w res,
  answered w res ->
  res <> JNull ->
  (truthy (own_prop res "predictions") = false ->
     fst (generateImageContent P prompt w) = inr None) /\
  (own_prop res "predictions" = Some (JArr []) ->
     fst (generateImageContent P prompt w) = inr None) /\
  (forall first rest,
     own_prop res "predictions" = Some (JArr (first :: rest)) ->
     first <> JNull ->
     (truthy (own_prop first "bytesBase64Encoded") = false ->
        fst (generateImageContent P prompt w) = inr None) /\
     (forall payload,
        own_prop first "bytesBase64Encoded" = Some (JStr payload) ->
        payload <> EmptyString ->
        fst (generateImageContent P prompt w) =
        inr (Some (String.append "data:image/png;base64," payload)))).
Proof.
  intros P prompt w res Hans Hres.
  destruct (image_after_success P prompt Hans) as (w1 & Hrun). rewrite Hrun.
  assert (Hpred : get (Some res) "predictions" = inr (own_prop res "predictions")).
  { rewrite get_defined by exact Hres. now destruct res. }
  split; [|split].
  - intros Hfalsy. apply image_none. unfold image_bytes.
    rewrite Hpred. cbn [bind]. now rewrite Hfalsy.
  - intros Hempty. apply image_none. unfold image_bytes.
    rewrite Hpred, Hempty. reflexivity.
  - intros first rest Hitems Hfirst.
    assert (Hcore : image_bytes P res =
                    inr (if truthy (own_prop first "bytesBase64Encoded")
                         then own_prop first "bytesBase64Encoded" else None)).
    { unfold image_bytes. rewrite Hpred, Hitems.
      cbn [bind truthy get own_prop String.eqb Ascii.eqb Bool.eqb gt_zero
           length get0 first_item nth_error ret].
      replace (0 <? Z.of_nat (S (length rest))) with true
        by (symmetry; apply Z.ltb_lt; lia).
      destruct first; try contradiction; reflexivity. }
    split.
    + intros Hfalsy. apply image_none. now rewrite Hcore, Hfalsy.
    + intros payload Hpayload Hne.
      rewrite (@image_some P res w1 (JStr payload)); [reflexivity|].
      rewrite Hcore, Hpayload. now rewrite nonempty_truthy.
Qed.

(** A response with no [predictions] field, and one with a payload. *)
Lemma image_best_effort_witness :
  fst (generateImageContent JsonText.reference "a red kite"
         (scripted [Fulfilled (json_response (JObj [("error", JStr "none")]))] 0))
    = inr None /\
  fst (generateImageContent JsonText.reference "a red kite"
         (scripted [Fulfilled (json_response
            (JObj [("predictions",
                    JArr [JObj [("bytesBase64Encoded", JStr "iVBORw0KGgo=")]])]))] 0))
    = inr (Some "data:image/png;base64,iVBORw0KGgo=").
Proof.
  split.
  - destruct (@image_best_effort JsonText.reference "a red kite"
                (scripted [Fulfilled (json_response (JObj [("error", JStr "none")]))] 0)
                (JObj [("error", JStr "none")])) as (Habsent & _).
    + eexists. repeat split; reflexivity.
    + discriminate.
    + apply Habsent. reflexivity.
  - destruct (@image_best_effort JsonText.reference "a red kite"
                (scripted [Fulfilled (json_response
                   (JObj [("predictions",
                           JArr [JObj [("bytesBase64Encoded", JStr "iVBORw0KGgo=")]])]))] 0)
                (JObj [("predictions",
                        JArr [JObj [("bytesBase64Encoded", JStr "iVBORw0KGgo=")]])]))
      as (_ & _ & Hfirst).
    + eexists. repeat split; reflexivity.
    + discriminate.
    + destruct (Hfirst (JObj [("bytesBase64Encoded", JStr "iVBORw0KGgo=")]) []
                       eq_refl ltac:(discriminate)) as (_ & Hpayload).
      apply Hpayload; [reflexivity | discriminate].
Defined.

(** C9 (the code at the failing inputs): an image response that
    carries no payload because its first prediction is [null], and the
    body [null].  [generateImageContent] does not return [null]: the
    access to [predictions[0].bytesBase64Encoded], and the access to
    [result.predictions], raise [TypeError] outside any [try], so the
    promise rejects, after its one request. *)
Theorem image_unreadable_response_rejects : forall P prompt,
  fst (generateImageContent P prompt
         (scripted [Fulfilled (json_response
                      (JObj [("predictions", JArr [JNull])]))] 0))
    = inl TypeError /\
  fst (generateImageContent P prompt
         (scripted [Fulfilled (json_response JNull)] 0))
    = inl TypeError /\
  fetch_count
    (events (snd (generateImageContent P prompt
                    (scripted [Fulfilled (json_response
                                 (JObj [("predictions", JArr [JNull])]))] 0))))
    = 1%nat.
Proof. intros P prompt. repeat split; vm_compute; reflexivity. Qed.

End ImageClaims.

Module StudyClaims.
Import Js Net Invoker Service Run ServiceFacts.

(** On a body other than [null] the text read by the [try] block is
    [candidates[0].content.parts[0].text]. *)
Lemma parse_study_text : forall P res,
  res <> JNull ->
  parse_study P res =
  match response_text res with
  | Some j =>
      if truthy (Some j) then JSON_parse P (toString j)
      else throw (Error "Received empty or malformed JSON string.")
  | None => throw (Error "Received empty or malformed JSON string.")
  end.
Proof.
  intros P res Hres. unfold parse_study.
  rewrite get_defined by exact Hres. cbn [bind].
  unfold response_text, first_part, first_candidate.
  now destruct (get_opt (get0_opt (get_opt (get_opt
                  (get0_opt (get_opt (Some res) "candidates")) "content") "parts"))
                  "text").
Qed.

Lemma parse_study_null : forall P, parse_study P JNull = inl TypeError.
Proof. reflexivity. Qed.

Lemma study_failure_on_error : forall P res w e,
  parse_study P res = inl e ->
  fst (study_of_result P res w) = inr study_failure.
Proof. intros P res w e H. unfold study_of_result. now rewrite H. Qed.

(** C7: malformed structured output is not exceptional.  After a 2xx
    response [generateStructuredStudyContent] always fulfils; when the
    text field of the response is absent (or empty), or when
    [JSON.parse] rejects it, the value is the single-element list whose
    element has type [error] and carries the user-facing diagnostic
    message, so no parse exception reaches the caller. *)
Theorem structured_fallback : forall P userQuery systemInstruction w res,
  answered w res ->
  (exists v,
     fst (generateStructuredStudyContent P userQuery systemInstruction w) = inr v) /\
  ((truthy (response_text res) = false \/
    exists j e, response_text res = Some j /\ JSON_parse P (toString j) = inl e) ->
   fst (generateStructuredStudyContent P userQuery systemInstruction w)
     = inr study_failure) /\
  (exists item,
     study_failure = JArr [item] /\
     own_prop item "type" = Some (JStr "error") /\
     own_prop item "question" = Some (JStr "Error generating study material.") /\
     own_prop item "answer" = Some (JStr "Please try again with a clearer prompt.")).
Proof.
  intros P userQuery systemInstruction w res Hans.
  destruct (study_after_success P userQuery systemInstruction Hans) as (w1 & Hrun).
  rewrite Hrun. split; [|split].
  - unfold study_of_result. destruct (parse_study P res); cbn; eauto.
  - intros Hbad.
    assert (Herr : exists e, parse_study P res = inl e).
    { destruct res as [|b|n|s|items|fields];
        try (rewrite parse_study_text by discriminate);
        try (rewrite parse_study_null; eauto; fail).
      all: destruct Hbad as [Hfalsy | (j & e & Htext & Hparse)].
      all: try (rewrite Htext, Hparse; destruct (truthy (Some j)); eauto; fail).
      all: destruct (response_text _) as [j|]; [rewrite Hfalsy|]; eauto. }
    destruct Herr as (e & Herr). now apply study_failure_on_error with (e := e).
  - eexists. repeat split; reflexivity.
Qed.

(** The text of the specification's example is not JSON. *)
Lemma structured_fallback_witness :
  let res := envelope (JObj [("text", JStr "not valid json")]) [] in
  let w := scripted [Fulfilled (json_response res)] 0 in
  answered w res /\
  JSON_parse JsonText.reference "not valid json" = inl SyntaxError /\
  fst (generateStructuredStudyContent JsonText.reference "photosynthesis"
         "You are a tutor." w) = inr study_failure.
Proof.
  intros res w.
  assert (Hans : answered w res) by (eexists; repeat split; reflexivity).
  split; [exact Hans|]. split; [reflexivity|].
  destruct (@structured_fallback JsonText.reference "photosynthesis"
              "You are a tutor." w res Hans) as (_ & Hbad & _).
  apply Hbad. right. exists (JStr "not valid json"), SyntaxError.
  split; reflexivity.
Defined.

End StudyClaims.

Module SpeechClaims.
Import Buffer Wav Base64 Js Net Invoker Service Run ServiceFacts WavFacts.

(** The values that [generateTTSAudio] reads are
    [inlineData.data] and [inlineData.mimeType] of the first part. *)
Lemma tts_decode_fields : forall res,
  tts_decode res =
  match get_opt (inline_data res) "data", get_opt (inline_data res) "mimeType" with
  | Some a, Some m =>
      if truthy (Some a) && truthy (Some m) then
        starts <- startsWith_L16 m ;;
        if starts then url <- wav_url a (toString m) ;; ret (Some url)
        else ret None
      else ret None
  | _, _ => ret None
  end.
Proof.
  intros res. unfold tts_decode, inline_data, first_part, first_candidate.
  destruct (get_opt _ "data"); [|reflexivity].
  now destruct (get_opt _ "mimeType").
Qed.

Lemma tts_result : forall res w,
  fst (tts_of_result res w) =
  match tts_decode res with
  | inl e => inl e
  | inr decoded => inr decoded
  end.
Proof.
  intros res w. unfold tts_of_result, abind, lift.
  destruct (tts_decode res) as [e|[url|]]; reflexivity.
Qed.

(** Missing audio data, a missing MIME type, or a MIME type that does
    not begin with [audio/L16] give [null]. *)
Lemma tts_missing_audio_is_null : forall text voiceName w res,
  answered w res ->
  truthy (get_opt (inline_data res) "data") = false \/
  truthy (get_opt (inline_data res) "mimeType") = false \/
  (exists m, get_opt (inline_data res) "mimeType" = Some (JStr m) /\
             String.prefix "audio/L16" m = false) ->
  fst (generateTTSAudio text voiceName w) = inr None.
Proof.
  intros text voiceName w res Hans Hbad.
  destruct (tts_after_success text voiceName Hans) as (w1 & Hrun).
  rewrite Hrun, tts_result, tts_decode_fields.
  destruct (get_opt (inline_data res) "data") as [a|]; [|reflexivity].
  destruct (get_opt (inline_data res) "mimeType") as [m|]; [|reflexivity].
  destruct Hbad as [Ha | [Hm | (m' & Hm & Hprefix)]].
  - now rewrite Ha.
  - rewrite Hm, andb_false_r. reflexivity.
  - injection Hm as ->. destruct (truthy (Some a) && truthy (Some (JStr m')));
      [|reflexivity].
    cbn [startsWith_L16 bind ret]. now rewrite Hprefix.
Qed.

(** An exception of the decoding steps leaves [generateTTSAudio] as a
    rejection: nothing between [atob] and the caller catches it. *)
Lemma tts_decode_error_escapes : forall text voiceName w res audio mime e,
  answered w res ->
  get_opt (inline_data res) "data" = Some (JStr audio) ->
  audio <> EmptyString ->
  get_opt (inline_data res) "mimeType" = Some (JStr mime) ->
  String.prefix "audio/L16" mime = true ->
  (pcmData <- base64ToArrayBuffer audio ;; Int16Array pcmData) = inl e ->
  fst (generateTTSAudio text voiceName w) = inl e.
Proof.
  intros text voiceName w res audio mime e Hans Hdata Haudio Hmime Hprefix Hdecode.
  destruct (tts_after_success text voiceName Hans) as (w1 & Hrun).
  rewrite Hrun, tts_result, tts_decode_fields, Hdata, Hmime.
  assert (Hm : mime <> EmptyString) by (intros ->; discriminate).
  destruct audio; [contradiction|]. destruct mime; [contradiction|].
  cbn [truthy String.eqb negb andb startsWith_L16 bind ret].
  rewrite Hprefix. unfold wav_url. cbn [toString].
  destruct (base64ToArrayBuffer _) as [e1|pcmData]; cbn [bind] in *.
  - now injection Hdecode as ->.
  - now rewrite Hdecode.
Qed.

(** C3 (the code at the failing inputs): a speech response whose
    payload is not base64, and one whose payload decodes to an odd
    number of bytes, under a well-formed [audio/L16] MIME type.
    [generateTTSAudio] does not return [null]: it rejects with the
    [InvalidCharacterError] of [atob], and with the [RangeError] of the
    [Int16Array] constructor. *)
Theorem tts_undecodable_payload_rejects :
  fst (generateTTSAudio "hello" "Kore"
         (scripted [Fulfilled (json_response
                      (speech_response "@@not-base64@@" "audio/L16;rate=24000"))] 0))
    = inl InvalidCharacterError /\
  fst (generateTTSAudio "hello" "Kore"
         (scripted [Fulfilled (json_response
                      (speech_response "AAAA" "audio/L16;rate=24000"))] 0))
    = inl RangeError.
Proof. split; vm_compute; reflexivity. Qed.

End SpeechClaims.

Module TextClaims.
Import Js Net Invoker Service Run ServiceFacts.

(** Mapping over attributions that are not [null] never raises. *)
Lemma array_map_sources : forall atts,
  Forall (fun a => a <> JNull) atts ->
  array_map source_of atts = inr (map web_fields atts).
Proof.
  induction 1 as [|a atts Ha _ IH]; [reflexivity|].
  cbn [array_map map]. unfold source_of at 1.
  rewrite get_defined by exact Ha. cbn [bind ret]. now rewrite IH.
Qed.

(** The path to the text of a response, when the text is there. *)
Lemma text_path : forall res t,
  response_text res = Some t ->
  exists cands cand content parts part,
    res <> JNull /\
    own_prop res "candidates" = Some cands /\
    first_item cands = Some (JObj cand) /\
    lookup "content" cand = Some content /\ content <> JNull /\
    own_prop content "parts" = Some parts /\ parts <> JNull /\
    first_item parts = Some part /\ part <> JNull /\
    own_prop part "text" = Some t.
Proof.
  intros res t H. unfold response_text in H.
  apply get_opt_inv in H as (part & Hpart & Npart & Htext).
  unfold first_part in Hpart.
  apply get0_opt_inv in Hpart as (parts & Hparts & Nparts & Hitem).
  apply get_opt_inv in Hparts as (content & Hcontent & Ncontent & Hprop).
  apply get_opt_inv in Hcontent as (c & Hcand & Ncand & Hc).
  destruct (own_prop_object _ _ Hc eq_refl) as (cand & ->).
  unfold first_candidate in Hcand.
  apply get0_opt_inv in Hcand as (cands & Hcands & Ncands & Hfirst).
  apply get_opt_inv in Hcands as (res' & Hres & Nres & Hc0).
  injection Hres as <-.
  exists cands, cand, content, parts, part. repeat split; assumption.
Qed.

(** What [text_of_result] computes on a response that has a text. *)
Lemma text_of_result_sources : forall res t w,
  response_text res = Some t ->
  truthy (Some t) = true ->
  fst (text_of_result res w) =
  match (if truthy (attributions res)
         then extract_sources (attributions res) else ret [])
  with
  | inl e => inl e
  | inr srcs => inr (mkTextResult (Some t) srcs)
  end.
Proof.
  intros res t w Htext Htruthy.
  destruct (text_path res Htext)
    as (cands & cand & content & parts & part & Nres & Hcands & Hfirst
        & Hcontent & Ncontent & Hparts & Nparts & Hitem & Npart & Hprop).
  assert (Hcand : first_candidate res = Some (JObj cand)).
  { unfold first_candidate. destruct res; try contradiction;
      cbn [get_opt]; rewrite Hcands; destruct cands; try discriminate;
      exact Hfirst. }
  assert (Ncands : cands <> JNull) by (intros ->; discriminate).
  unfold text_of_result, abind, lift.
  rewrite get_defined by exact Nres.
  replace (get_opt (Some res) "candidates") with (Some cands)
    by (destruct res; try contradiction; cbn [get_opt]; now rewrite Hcands).
  replace (get0_opt (Some cands)) with (Some (JObj cand))
    by (destruct cands; try contradiction; cbn [get0_opt]; now rewrite Hfirst).
  assert (Hct : candidate_text (Some (JObj cand)) = Some t).
  { unfold candidate_text. cbn [truthy get_opt own_prop]. rewrite Hcontent.
    destruct content; try contradiction; cbn [get_opt]; rewrite Hparts;
      destruct parts; try contradiction; cbn [get0_opt]; rewrite Hitem;
      destruct part; try contradiction; cbn [get_opt]; exact Hprop. }
  rewrite Hct, Htruthy.
  cbn [get own_prop]. rewrite Hcontent. cbn [bind ret].
  rewrite (get_defined "parts" Ncontent).
  replace (get_opt (Some content) "parts") with (Some parts)
    by (destruct content; try contradiction; cbn [get_opt]; now rewrite Hparts).
  cbn [bind]. rewrite (get0_defined Nparts).
  replace (get0_opt (Some parts)) with (Some part)
    by (destruct parts; try contradiction; cbn [get0_opt]; now rewrite Hitem).
  cbn [bind]. rewrite (get_defined "text" Npart).
  replace (get_opt (Some part) "text") with (Some t)
    by (destruct part; try contradiction; cbn [get_opt]; now rewrite Hprop).
  cbn [bind].
  unfold attributions. rewrite Hcand. cbn [get_opt own_prop].
  set (gm := lookup "groundingMetadata" cand).
  set (atts := get_opt gm "groundingAttributions").
  destruct (truthy gm) eqn:Hgm.
  - cbn [andb]. destruct (truthy atts); [|reflexivity].
    destruct (extract_sources atts); reflexivity.
  - cbn [andb]. unfold atts. rewrite (falsy_get_opt_falsy gm _ Hgm). reflexivity.
Qed.

(** C6: text and grounding sources.  For every response whose first
    candidate has a (non-empty) text, [generateTextContent] fulfils with
    that text and with the list of sources: the empty list when the
    response has no grounding attributions, and otherwise the [uri] and
    [title] of the attributions, in the order of the response, without
    those that miss the [uri] field or the [title] field. *)
Theorem text_with_sources :
  forall userQuery systemInstruction useGrounding w res t,
  answered w res ->
  response_text res = Some t ->
  truthy (Some t) = true ->
  (truthy (attributions res) = false ->
     fst (generateTextContent userQuery systemInstruction useGrounding w)
       = inr (mkTextResult (Some t) [])) /\
  (forall atts,
     attributions res = Some (JArr atts) ->
     Forall (fun a => a <> JNull) atts ->
     exists srcs,
       fst (generateTextContent userQuery systemInstruction useGrounding w)
         = inr (mkTextResult (Some t) srcs) /\
       srcs = filter has_both (map web_fields atts) /\
       Forall (fun s => uri s <> None /\ title s <> None) srcs /\
       (forall a, In a atts ->
          uri (web_fields a) = None \/ title (web_fields a) = None ->
          ~ In (web_fields a) srcs)).
Proof.
  intros userQuery systemInstruction useGrounding w res t Hans Htext Htruthy.
  destruct (text_after_success userQuery systemInstruction useGrounding Hans)
    as (w1 & Hrun).
  rewrite Hrun, (text_of_result_sources res w1 Htext Htruthy).
  split.
  - intros Hnone. now rewrite Hnone.
  - intros atts Hatts Hobjects.
    exists (filter has_both (map web_fields atts)).
    rewrite Hatts. cbn [truthy extract_sources].
    rewrite (array_map_sources Hobjects). cbn [bind ret].
    split; [reflexivity|]. split; [reflexivity|]. split.
    + apply Forall_forall. intros s Hs. apply filter_In in Hs as [_ Hboth].
      unfold has_both in Hboth. apply andb_prop in Hboth as [Hu Ht].
      split; intros E; rewrite E in *; discriminate.
    + intros a _ Hmissing Hin. apply filter_In in Hin as [_ Hboth].
      unfold has_both in Hboth. apply andb_prop in Hboth as [Hu Ht].
      destruct Hmissing as [E|E]; rewrite E in *; discriminate.
Qed.

(** The example of the specification: grounding enabled, one attribution
    with [web.uri] and [web.title], one without [web.uri]; exactly one
    source is returned. *)
Lemma text_with_sources_witness :
  let complete := JObj [("web", JObj [("uri", JStr "https://example.org/kites");
                                      ("title", JStr "Kites")])] in
  let no_uri := JObj [("web", JObj [("title", JStr "Wind")])] in
  let res := envelope (JObj [("text", JStr "Kites fly.")])
               [("groundingMetadata",
                 JObj [("groundingAttributions", JArr [complete; no_uri])])] in
  let w := scripted [Fulfilled (json_response res)] 0 in
  answered w res /\
  exists srcs,
    fst (generateTextContent "Why do kites fly?" "You are a tutor." true w)
      = inr (mkTextResult (Some (JStr "Kites fly.")) srcs) /\
    srcs = [mkSource (Some (JStr "https://example.org/kites")) (Some (JStr "Kites"))] /\
    length srcs = 1%nat.
Proof.
  intros complete no_uri res w.
  assert (Hans : answered w res) by (eexists; repeat split; reflexivity).
  split; [exact Hans|].
  destruct (@text_with_sources "Why do kites fly?" "You are a tutor." true w res
              (JStr "Kites fly.") Hans eq_refl eq_refl) as (_ & Hsome).
  destruct (Hsome [complete; no_uri] eq_refl) as (srcs & Hrun & Hsrcs & _).
  { repeat constructor; discriminate. }
  exists srcs. split; [exact Hrun|]. rewrite Hsrcs. split; reflexivity.
Defined.

End TextClaims.

(** ** The sample rate of a speech response *)

Module RateFacts.
Import Js Service Run.

Lemma strip_prefix_sound : forall p s r,
  strip_prefix p s = Some r -> s = (p ++ r)%string.
Proof.
  induction p as [|a p IH]; intros s r H.
  - cbn in H. now injection H as ->.
  - destruct s as [|b s]; [discriminate|]. cbn in H.
    destruct (Ascii.eqb_spec a b) as [->|]; [|discriminate].
    cbn. f_equal. now apply IH.
Qed.

Lemma strip_prefix_append : forall p r, strip_prefix p (p ++ r)%string = Some r.
Proof.
  induction p as [|a p IH]; intros r; [reflexivity|].
  cbn. now rewrite Ascii.eqb_refl.
Qed.

(** One step of the search: a match here, or the search in the tail. *)
Lemma match_rate_step : forall c s,
  match_rate (String c s) =
  match strip_prefix "rate=" (String c s) with
  | Some (String d rest) =>
      if is_digit d then Some (leading_digits (String d rest)) else match_rate s
  | _ => match_rate s
  end.
Proof. reflexivity. Qed.

Lemma leading_digits_split : forall s,
  exists rest,
    s = (leading_digits s ++ rest)%string /\
    all_digits (leading_digits s) = true /\
    no_leading_digit rest = true.
Proof.
  induction s as [|c s (rest & Hs & Hall & Hrest)].
  - exists EmptyString. repeat split.
  - cbn [leading_digits]. destruct (is_digit c) eqn:Hc.
    + exists rest. cbn. rewrite Hc, Hall. repeat split; [|assumption].
      now rewrite <- Hs.
    + exists (String c s). cbn. now rewrite Hc.
Qed.

Lemma leading_digits_append : forall digits rest,
  all_digits digits = true -> no_leading_digit rest = true ->
  leading_digits (digits ++ rest)%string = digits.
Proof.
  induction digits as [|c digits IH]; intros rest Hall Hrest.
  - destruct rest as [|c rest]; [reflexivity|]. cbn in *.
    now destruct (is_digit c).
  - cbn in *. apply andb_prop in Hall as [Hc Hall]. rewrite Hc.
    f_equal. now apply IH.
Qed.

(** What the pattern captures is a [rate=<digits>] parameter of the string. *)
Lemma match_rate_sound : forall m digits,
  match_rate m = Some digits ->
  exists pre rest,
    m = (pre ++ "rate=" ++ digits ++ rest)%string /\
    digits <> EmptyString /\
    all_digits digits = true /\
    no_leading_digit rest = true.
Proof.
  induction m as [|c m IH]; intros digits H; [discriminate|].
  rewrite match_rate_step in H.
  assert (Htail : match_rate m = Some digits ->
                  exists pre rest,
                    String c m = (pre ++ "rate=" ++ digits ++ rest)%string /\
                    digits <> EmptyString /\ all_digits digits = true /\
                    no_leading_digit rest = true).
  { intros Hm. destruct (IH _ Hm) as (pre & rest & -> & Hne & Hall & Hrest).
    exists (String c pre), rest. repeat split; assumption. }
  destruct (strip_prefix "rate=" (String c m)) as [[|d tail]|] eqn:Hstrip; auto.
  destruct (is_digit d) eqn:Hd; auto.
  injection H as <-.
  apply strip_prefix_sound in Hstrip.
  destruct (leading_digits_split (String d tail)) as (rest & Hsplit & Hall & Hrest).
  exists EmptyString, rest. repeat split; try assumption.
  - rewrite Hstrip. cbn [String.append]. do 5 f_equal. exact Hsplit.
  - cbn [leading_digits]. rewrite Hd. discriminate.
Qed.

(** When the pattern does not match, the parameter is absent. *)
Lemma match_rate_complete : forall m, match_rate m = None -> rate_absent m.
Proof.
  induction m as [|c m IH]; intros H pre d rest Hm.
  - destruct pre; discriminate.
  - rewrite match_rate_step in H. destruct pre as [|c' pre].
    + cbn [String.append] in Hm. rewrite Hm in H.
      change (String "r" (String "a" (String "t" (String "e" (String "=" (String d rest))))))
        with ("rate=" ++ String d rest)%string in H.
      rewrite strip_prefix_append in H.
      destruct (is_digit d); [discriminate | reflexivity].
    + cbn [String.append] in Hm. injection Hm as _ Hm.
      apply (IH ltac:(destruct (strip_prefix "rate=" (String c m)) as [[|d' t]|];
                      try exact H; destruct (is_digit d'); [discriminate | exact H])
                pre d rest Hm).
Qed.

Lemma strip_prefix_other : forall c s,
  Ascii.eqb c "r"%char = false -> strip_prefix "rate=" (String c s) = None.
Proof.
  intros c s Hc.
  change (strip_prefix "rate=" (String c s))
    with (if Ascii.eqb "r"%char c then strip_prefix "ate=" s else None).
  now rewrite Ascii.eqb_sym, Hc.
Qed.

(** Before the first [r] nothing can match. *)
Lemma match_rate_after_prefix : forall pre d rest,
  r_free pre = true -> is_digit d = true ->
  match_rate (pre ++ "rate=" ++ String d rest)%string =
  Some (leading_digits (String d rest)).
Proof.
  induction pre as [|c pre IH]; intros d rest Hfree Hd.
  - change (match_rate ("rate=" ++ String d rest)%string =
            Some (leading_digits (String d rest))).
    change ("rate=" ++ String d rest)%string
      with (String "r" ("ate=" ++ String d rest)%string) at 1.
    rewrite match_rate_step.
    change (String "r" ("ate=" ++ String d rest)%string)
      with ("rate=" ++ String d rest)%string.
    rewrite strip_prefix_append. now rewrite Hd.
  - cbn [r_free] in Hfree. apply andb_prop in Hfree as [Hc Hfree].
    apply negb_true_iff in Hc.
    change (String c pre ++ "rate=" ++ String d rest)%string
      with (String c (pre ++ "rate=" ++ String d rest)%string).
    rewrite match_rate_step, strip_prefix_other by exact Hc.
    now apply IH.
Qed.

End RateFacts.

Module DecimalFacts.
Import Js Service Run.

Ltac digit_step lemma :=
  match goal with
  | |- fold_left _ _ (10 * ?a + (Z.of_nat (nat_of_ascii ?c) - 48)) =
       Z.pos (Pos.of_uint_acc _ ?p) =>
      let v := eval vm_compute in (Z.of_nat (nat_of_ascii c) - 48) in
      change (Z.of_nat (nat_of_ascii c) - 48) with v;
      replace (10 * a + v) with (Z.pos p) by lia;
      apply lemma
  end.

Lemma parse_digits_acc : forall d acc,
  fold_left (fun a c => 10 * a + (Z.of_nat (nat_of_ascii c) - 48))
            (list_ascii_of_string (NilEmpty.string_of_uint d)) (Z.pos acc) =
  Z.pos (Pos.of_uint_acc d acc).
Proof.
  induction d; intros acc;
    cbn [NilEmpty.string_of_uint list_ascii_of_string fold_left Pos.of_uint_acc];
    try reflexivity; digit_step IHd.
Qed.

Lemma parse_digits_uint : forall d,
  fold_left (fun a c => 10 * a + (Z.of_nat (nat_of_ascii c) - 48))
            (list_ascii_of_string (NilEmpty.string_of_uint d)) 0 =
  Z.of_N (Pos.of_uint d).
Proof.
  induction d;
    cbn [NilEmpty.string_of_uint list_ascii_of_string fold_left Pos.of_uint Z.of_N];
    try reflexivity; try exact IHd; digit_step parse_digits_acc.
Qed.

Lemma uint_all_digits : forall d, all_digits (NilEmpty.string_of_uint d) = true.
Proof. induction d; cbn; auto. Qed.

(** The decimal text of a natural number: digits only, at least one,
    and read back by [parseInt] as the number. *)
Lemma decimal_natural : forall N,
  0 <= N ->
  all_digits (decimal N) = true /\
  (exists d s, decimal N = String d s /\ is_digit d = true) /\
  parseInt (decimal N) = N.
Proof.
  intros N HN. unfold decimal, parseInt.
  destruct N as [|p|p]; [| | lia].
  { split; [reflexivity|]. split; [|reflexivity].
    exists "0"%char, EmptyString. split; reflexivity. }
  cbn [Z.to_int NilZero.string_of_int].
  pose proof (DecimalPos.Unsigned.to_uint_nonnil p) as Hnil.
  assert (E : NilZero.string_of_uint (Pos.to_uint p) =
              NilEmpty.string_of_uint (Pos.to_uint p)).
  { unfold NilZero.string_of_uint. now destruct (Pos.to_uint p). }
  rewrite E. split; [apply uint_all_digits|]. split.
  - pose proof (uint_all_digits (Pos.to_uint p)) as Hall.
    destruct (NilEmpty.string_of_uint (Pos.to_uint p)) as [|d s] eqn:Hs.
    + destruct (Pos.to_uint p); try discriminate; contradiction.
    + cbn in Hall. apply andb_prop in Hall as [Hd _]. eauto.
  - rewrite parse_digits_uint, DecimalPos.Unsigned.of_to. reflexivity.
Qed.

End DecimalFacts.

Module RateClaims.
Import Buffer Wav Base64 Js Net Invoker Service Run.
Import ServiceFacts WavFacts SpeechClaims RateFacts DecimalFacts.

Lemma string_append_assoc : forall a b c : string,
  ((a ++ b) ++ c = a ++ (b ++ c))%string.
Proof. induction a as [|x a IH]; intros; cbn; [reflexivity | now rewrite IH]. Qed.

(** The canonical parameter [rate=<N>], after a prefix without [r]. *)
Lemma sample_rate_of_parameter : forall pre N rest,
  0 <= N -> r_free pre = true -> no_leading_digit rest = true ->
  sample_rate_of (pre ++ "rate=" ++ decimal N ++ rest)%string = N.
Proof.
  intros pre N rest HN Hfree Hrest.
  destruct (decimal_natural HN) as (Hall & (d & s & Hdec & Hd) & Hparse).
  unfold sample_rate_of.
  assert (E : (decimal N ++ rest)%string = String d (s ++ rest)%string)
    by now rewrite Hdec.
  rewrite E, match_rate_after_prefix by assumption.
  rewrite <- E, leading_digits_append by assumption. exact Hparse.
Qed.

(** The digits of a rate parameter write a number that is not negative. *)
Lemma parseInt_nonneg : forall digits,
  all_digits digits = true -> 0 <= parseInt digits.
Proof.
  intros digits. unfold parseInt.
  assert (H : forall acc, 0 <= acc -> all_digits digits = true ->
            0 <= fold_left (fun acc c => 10 * acc + (Z.of_nat (nat_of_ascii c) - 48))
                           (list_ascii_of_string digits) acc).
  { induction digits as [|c digits IH]; intros acc Hacc Hall; [exact Hacc|].
    cbn [all_digits] in Hall. apply andb_prop in Hall as [Hc Hall].
    cbn [list_ascii_of_string fold_left]. apply IH; [|exact Hall].
    unfold is_digit in Hc. apply andb_prop in Hc as [Hlo _].
    apply Nat.leb_le in Hlo. lia. }
  apply H. lia.
Qed.

Lemma sample_rate_of_nonneg : forall mime, 0 <= sample_rate_of mime.
Proof.
  intros mime. unfold sample_rate_of.
  destruct (match_rate mime) as [digits|] eqn:Hmatch; [|lia].
  destruct (match_rate_sound _ Hmatch) as (pre & rest & _ & _ & Hall & _).
  now apply parseInt_nonneg.
Qed.

(** C8: the sample rate of a speech response.  For every speech
    response whose MIME type begins with [audio/L16], whose payload
    decodes, and whose rate is a safe integer (below [2^53], where
    [parseInt] returns the integer that the digits write),
    [generateTTSAudio] fulfils with the URL of the WAV blob encoded at a
    sample rate that is 24000 when the MIME type has no [rate=<N>]
    parameter, and otherwise is the number written by the digits of a
    [rate=] parameter of the MIME type; for a MIME type
    [<prefix>rate=<N><rest>] (no [r] in the prefix) it is [N]. *)
Theorem speech_sample_rate : forall text voiceName w res audio mime pcm16,
  answered w res ->
  get_opt (inline_data res) "data" = Some (JStr audio) ->
  audio <> EmptyString ->
  get_opt (inline_data res) "mimeType" = Some (JStr mime) ->
  String.prefix "audio/L16" mime = true ->
  sample_rate_of mime < 2 ^ 53 ->
  (pcmData <- base64ToArrayBuffer audio ;; Int16Array pcmData) = inr pcm16 ->
  exists rate blob,
    0 <= rate < 2 ^ 53 /\
    pcmToWav pcm16 rate = inr blob /\
    fst (generateTTSAudio text voiceName w) = inr (Some (createObjectURL blob)) /\
    (rate_absent mime -> rate = 24000) /\
    (~ rate_absent mime ->
       exists pre digits rest,
         mime = (pre ++ "rate=" ++ digits ++ rest)%string /\
         digits <> EmptyString /\ all_digits digits = true /\
         no_leading_digit rest = true /\
         rate = parseInt digits) /\
    (forall pre N rest,
       mime = (pre ++ "rate=" ++ decimal N ++ rest)%string ->
       0 <= N -> r_free pre = true -> no_leading_digit rest = true ->
       rate = N /\ N < 2 ^ 53).
Proof.
  intros text voiceName w res audio mime pcm16
         Hans Hdata Haudio Hmime Hprefix Hsafe Hdecode.
  exists (sample_rate_of mime),
         (mkBlob (wav_header (length pcm16) (sample_rate_of mime)
                  ++ wav_payload pcm16) "audio/wav").
  split; [split; [apply sample_rate_of_nonneg | exact Hsafe]|].
  split; [apply pcmToWav_bytes|]. split.
  { destruct (tts_after_success text voiceName Hans) as (w1 & Hrun).
    rewrite Hrun, tts_result, tts_decode_fields, Hdata, Hmime.
    assert (Hm : mime <> EmptyString) by (intros ->; discriminate).
    destruct audio; [contradiction|]. destruct mime; [contradiction|].
    cbn [truthy String.eqb negb andb startsWith_L16 bind ret].
    rewrite Hprefix. unfold wav_url. cbn [toString].
    destruct (base64ToArrayBuffer _) as [e1|pcmData]; cbn [bind] in *;
      [discriminate|].
    rewrite Hdecode. cbn [bind]. rewrite pcmToWav_bytes. reflexivity. }
  split; [|split].
  - intros Habsent. unfold sample_rate_of.
    destruct (match_rate mime) as [digits|] eqn:Hmatch; [|reflexivity].
    destruct (match_rate_sound _ Hmatch) as (pre & rest & Hm & Hne & Hall & _).
    destruct digits as [|d digits]; [contradiction|].
    cbn in Hall. apply andb_prop in Hall as [Hd _].
    rewrite (Habsent pre d (digits ++ rest)%string) in Hd; [discriminate|].
    exact Hm.
  - intros Hpresent. unfold sample_rate_of.
    destruct (match_rate mime) as [digits|] eqn:Hmatch.
    + destruct (match_rate_sound _ Hmatch) as (pre & rest & Hm & Hne & Hall & Hrest).
      exists pre, digits, rest. repeat split; assumption.
    + exfalso. apply Hpresent. now apply match_rate_complete.
  - intros pre N rest -> HN Hfree Hrest.
    rewrite (sample_rate_of_parameter pre rest HN Hfree Hrest) in *.
    split; [reflexivity | exact Hsafe].
Qed.

(** The example of the specification: [audio/L16;rate=48000]. *)
Lemma speech_sample_rate_witness :
  let res := speech_response "AAD/f2QA" "audio/L16;rate=48000" in
  let w := scripted [Fulfilled (json_response res)] 0 in
  answered w res /\
  sample_rate_of "audio/L16;rate=48000" < 2 ^ 53 /\
  exists blob,
    pcmToWav [0; 32767; 100] 48000 = inr blob /\
    getUint32 24 (blob_bytes blob) = Some 48000 /\
    fst (generateTTSAudio "hello" "Kore" w) = inr (Some (createObjectURL blob)).
Proof.
  intros res w.
  assert (Hans : answered w res) by (eexists; repeat split; reflexivity).
  split; [exact Hans|]. split; [reflexivity|].
  destruct (@speech_sample_rate "hello" "Kore" w res "AAD/f2QA"
              "audio/L16;rate=48000" [0; 32767; 100] Hans eq_refl
              ltac:(discriminate) eq_refl eq_refl eq_refl eq_refl)
    as (rate & blob & _ & Hwav & Hrun & _ & _ & Hrate).
  assert (E : rate = 48000).
  { apply (Hrate "audio/L16;" 48000 EmptyString); try reflexivity. lia. }
  subst rate. exists blob. split; [exact Hwav|]. split; [|exact Hrun].
  rewrite WavFacts.pcmToWav_bytes in Hwav. injection Hwav as <-. reflexivity.
Defined.

End RateClaims.

(** * Further properties of the code *)

(** ** The encoder on arbitrary numbers, and the component's copy *)

Module WavMore.
Import Buffer Wav BufferFacts WavFacts WavClaims.

(** The bytes of a sample outside the 16-bit range read back as the
    sample wrapped to 16 bits. *)
Lemma sample_bytes_wrap : forall v,
  exists lo hi, le_bytes 2 v = [lo; hi] /\
                to_int16 (lo + 256 * hi) = to_int16 (v mod 65536).
Proof.
  intros v. exists (Z.land v 255), (Z.land (Z.shiftr v 8) 255). split.
  - now rewrite !le_bytes_cons.
  - pose proof (le_value_bytes 2 v) as E. rewrite !le_bytes_cons in E.
    cbn [le_bytes seq map le_value] in E.
    change (2 ^ (8 * Z.of_nat 2)) with 65536 in E. rewrite <- E.
    f_equal. ring.
Qed.

Lemma payload_decodes_wrapped : forall pcm16,
  Int16Array (wav_payload pcm16) =
  inr (map (fun v => to_int16 (v mod 65536)) pcm16).
Proof.
  induction pcm16 as [|s rest IH]; [reflexivity|].
  destruct (sample_bytes_wrap s) as (lo & hi & Hbytes & Hval).
  unfold wav_payload in *. cbn [flat_map map]. rewrite Hbytes.
  cbn [app Int16Array]. rewrite IH. cbn [bind ret]. now rewrite Hval.
Qed.

(** X1: [pcmToWav] has no failure mode.  For every list of numbers and
    every sample rate, in range or not, no store of the encoder leaves
    the buffer: the result is a blob of type audio/wav with exactly
    [44 + 2 * sampleCount] bytes.  A number that does not fit its field
    is stored modulo the field width: the rate and byte-rate fields
    hold [sampleRate mod 2^32] and [(sampleRate * 2) mod 2^32], the
    chunk length holds [(36 + 2 * sampleCount) mod 2^32], and each
    sample reads back wrapped to signed 16 bits. *)
Theorem pcmToWav_total : forall (pcm16 : list Z) (sampleRate : Z),
  exists bytes,
    pcmToWav pcm16 sampleRate = inr (mkBlob bytes "audio/wav") /\
    length bytes = (44 + 2 * length pcm16)%nat /\
    getUint32 4 bytes = Some ((36 + 2 * Z.of_nat (length pcm16)) mod 2 ^ 32) /\
    getUint32 24 bytes = Some (sampleRate mod 2 ^ 32) /\
    getUint32 28 bytes = Some ((sampleRate * 2) mod 2 ^ 32) /\
    getUint32 40 bytes = Some ((2 * Z.of_nat (length pcm16)) mod 2 ^ 32) /\
    Int16Array (skipn 44 bytes) =
      inr (map (fun v => to_int16 (v mod 65536)) pcm16).
Proof.
  intros pcm16 sampleRate.
  exists (wav_header (length pcm16) sampleRate ++ wav_payload pcm16).
  split; [apply pcmToWav_bytes|].
  split; [now rewrite length_app, wav_header_length, wav_payload_length|].
  unfold getUint32. rewrite !header_field by lia.
  change (slice 4 4 (wav_header (length pcm16) sampleRate))
    with (le_bytes 4 (36 + Z.of_nat (2 * length pcm16))).
  change (slice 24 4 (wav_header (length pcm16) sampleRate))
    with (le_bytes 4 sampleRate).
  change (slice 28 4 (wav_header (length pcm16) sampleRate))
    with (le_bytes 4 (sampleRate * 2)).
  change (slice 40 4 (wav_header (length pcm16) sampleRate))
    with (le_bytes 4 (Z.of_nat (2 * length pcm16))).
  rewrite !le_value_bytes. change (2 ^ (8 * Z.of_nat 4)) with (2 ^ 32).
  replace (Z.of_nat (2 * length pcm16)) with (2 * Z.of_nat (length pcm16)) by lia.
  do 4 (split; [reflexivity|]).
  rewrite skipn_app, wav_header_length, skipn_all2
    by (rewrite wav_header_length; lia).
  cbn [app Nat.sub skipn]. apply payload_decodes_wrapped.
Qed.

(** X2: the two copies of the encoder agree.  For every sample list
    and sample rate the [pcmToWav] inlined in the UI component, which
    stores the chunk identifiers as big-endian 32-bit constants and
    derives the sizes from [pcm16.length], returns the same blob, byte
    for byte, as the [pcmToWav] of the service module. *)
Theorem ui_pcmToWav_same_bytes : forall (pcm16 : list Z) (sampleRate : Z),
  Ui.pcmToWav pcm16 sampleRate = Wav.pcmToWav pcm16 sampleRate.
Proof.
  intros pcm16 sampleRate. rewrite pcmToWav_bytes.
  unfold Ui.pcmToWav, Ui.setUint32_be, alloc, setUint32, setUint16.
  replace (length pcm16 * 2)%nat with (byteLength pcm16)
    by (unfold byteLength; lia).
  set (m := byteLength pcm16).
  change (repeat 0 (44 + m)) with ([] ++ repeat 0 (44 + m)).
  store (40 + m)%nat. store (36 + m)%nat.
  store (32 + m)%nat. store (28 + m)%nat.
  store (24 + m)%nat. store (22 + m)%nat. store (20 + m)%nat.
  store (16 + m)%nat. store (12 + m)%nat.
  store (10 + m)%nat. store (8 + m)%nat.
  store (4 + m)%nat. store (0 + m)%nat.
  subst m.
  change (0 + byteLength pcm16)%nat with (byteLength pcm16).
  rewrite <- (Nat.add_0_r (byteLength pcm16)) at 1.
  rewrite write_samples_next by reflexivity.
  cbv beta iota delta [bind ret]. do 2 f_equal.
  unfold wav_header. cbn [repeat].
  rewrite app_nil_r, <- !app_assoc.
  replace (Z.of_nat (2 * length pcm16)) with (Z.of_nat (length pcm16) * 2) by lia.
  replace (sampleRate * 1 * 2) with (sampleRate * 2) by ring.
  reflexivity.
Qed.

End WavMore.

(** ** From the decoded bytes to the payload of the WAV file *)

Module SamplesMore.
Import Buffer Wav BufferFacts WavFacts WavClaims Base64Encode.

(** Induction on a list, two elements at a time. *)
Lemma pairs_ind : forall (A : Type) (P : list A -> Prop),
  P [] -> (forall x, P [x]) -> (forall x y l, P l -> P (x :: y :: l)) ->
  forall l, P l.
Proof.
  intros A P H0 H1 H2.
  refine (fix go (l : list A) : P l :=
            match l with
            | [] => H0
            | [x] => H1 x
            | x :: y :: rest => H2 x y rest (go rest)
            end).
Qed.

(** The sample read from two bytes is a 16-bit integer and is stored
    back as the same two bytes. *)
Lemma sample_of_bytes : forall lo hi,
  is_byte lo -> is_byte hi ->
  is_int16 (to_int16 (lo + 256 * hi)) /\
  le_bytes 2 (to_int16 (lo + 256 * hi)) = [lo; hi].
Proof.
  intros lo hi [Hlo0 Hlo1] [Hhi0 Hhi1]. unfold to_int16, is_int16.
  rewrite !le_bytes_cons. cbn [le_bytes seq map].
  change 255 with (Z.ones 8). rewrite !Z.land_ones, Z.shiftr_div_pow2 by lia.
  change (2 ^ 8) with 256.
  destruct (Z.ltb_spec (lo + 256 * hi) 32768) as [Hsmall|Hbig].
  - split; [lia|].
    assert (Hm : (lo + 256 * hi) mod 256 = lo)
      by (symmetry; apply Z.mod_unique with (q := hi); lia).
    assert (Hd : (lo + 256 * hi) / 256 = hi)
      by (symmetry; apply Z.div_unique with (r := lo); lia).
    rewrite Hm, Hd, Z.mod_small by lia. reflexivity.
  - split; [lia|].
    assert (Hm : (lo + 256 * hi - 65536) mod 256 = lo)
      by (symmetry; apply Z.mod_unique with (q := hi - 256); lia).
    assert (Hd : (lo + 256 * hi - 65536) / 256 = hi - 256)
      by (symmetry; apply Z.div_unique with (r := lo); lia).
    assert (Hh : (hi - 256) mod 256 = hi)
      by (symmetry; apply Z.mod_unique with (q := -1); lia).
    rewrite Hm, Hd, Hh. reflexivity.
Qed.

(** The typed-array view of a buffer of bytes, by the parity of its length. *)
Lemma int16_view_cases : forall buf : list Z,
  Forall is_byte buf ->
  (Nat.even (length buf) = true ->
     exists pcm16,
       Int16Array buf = inr pcm16 /\
       (2 * length pcm16 = length buf)%nat /\
       Forall is_int16 pcm16 /\
       wav_payload pcm16 = buf) /\
  (Nat.even (length buf) = false -> Int16Array buf = inl RangeError).
Proof.
  intros buf. induction buf as [|x|lo hi rest IH] using pairs_ind; intros Hbytes.
  - split; [|discriminate]. intros _. exists []. repeat split. constructor.
  - split; [discriminate|]. reflexivity.
  - inversion Hbytes as [|? ? Hlo Htail]; subst.
    inversion Htail as [|? ? Hhi Hrest]; subst.
    destruct (IH Hrest) as [Heven Hodd].
    destruct (sample_of_bytes Hlo Hhi) as [Hrange Hstore].
    cbn [length Nat.even Int16Array]. split.
    + intros He. destruct (Heven He) as (pcm16 & Hrun & Hlen & Hall & Hpay).
      exists (to_int16 (lo + 256 * hi) :: pcm16). rewrite Hrun. cbn [bind ret].
      split; [reflexivity|]. split; [cbn [length]; lia|].
      split; [now constructor|].
      unfold wav_payload in *. cbn [flat_map]. now rewrite Hstore, Hpay.
    + intros He. now rewrite (Hodd He).
Qed.

(** X3: the typed-array view and the sample loop are inverse to each
    other on bytes.  A buffer with an even number of bytes is read by
    [new Int16Array(buffer)] as half as many signed 16-bit samples, and
    the bytes that the sample loop of [pcmToWav] stores for them are the
    bytes of the buffer, unchanged and in order; a buffer with an odd
    number of bytes makes the constructor raise [RangeError]. *)
Theorem int16_view_round_trip : forall buf : list Z,
  Forall is_byte buf ->
  (Nat.even (length buf) = true ->
     exists pcm16,
       Int16Array buf = inr pcm16 /\
       (2 * length pcm16 = length buf)%nat /\
       Forall is_int16 pcm16 /\
       wav_payload pcm16 = buf) /\
  (Nat.even (length buf) = false -> Int16Array buf = inl RangeError).
Proof. exact int16_view_cases. Qed.

(** Six bytes, three samples; five bytes, no array. *)
Lemma int16_view_round_trip_witness :
  Forall is_byte [0; 0; 255; 127; 0; 128] /\
  Int16Array [0; 0; 255; 127; 0; 128] = inr [0; 32767; -32768] /\
  wav_payload [0; 32767; -32768] = [0; 0; 255; 127; 0; 128] /\
  Int16Array [0; 0; 255; 127; 0] = inl RangeError.
Proof.
  assert (H6 : Forall is_byte [0; 0; 255; 127; 0; 128])
    by (repeat constructor; unfold is_byte; lia).
  assert (H5 : Forall is_byte [0; 0; 255; 127; 0])
    by (repeat constructor; unfold is_byte; lia).
  split; [exact H6|].
  destruct (int16_view_round_trip H6) as [Heven _].
  destruct (int16_view_round_trip H5) as [_ Hodd].
  destruct (Heven eq_refl) as (pcm16 & Hrun & _ & _ & Hpay).
  assert (E : pcm16 = [0; 32767; -32768]).
  { cbn in Hrun. now injection Hrun as <-. }
  subst pcm16. split; [exact Hrun|]. split; [exact Hpay | exact (Hodd eq_refl)].
Defined.

End SamplesMore.

(** ** Base64: what [base64ToArrayBuffer] accepts and what it rejects *)

Module Base64More.
Import Buffer Base64 Base64Encode.

Lemma range_check : forall (P : Z -> bool) (n : nat),
  forallb P (map Z.of_nat (seq 0 n)) = true ->
  forall v, 0 <= v < Z.of_nat n -> P v = true.
Proof.
  intros P n Hall v Hv. rewrite forallb_forall in Hall. apply Hall.
  apply in_map_iff. exists (Z.to_nat v). split; [lia|]. apply in_seq. lia.
Qed.

(** The alphabet: the character of a six-bit value decodes to the
    value, and is neither whitespace nor the padding character. *)
Lemma b64_char_value : forall v,
  0 <= v < 64 ->
  b64_value (b64_char v) = Some v /\
  is_ascii_whitespace (b64_char v) = false /\
  is_equals (b64_char v) = false.
Proof.
  intros v Hv.
  pose proof (@range_check
    (fun v => match b64_value (b64_char v) with
              | Some u => u =? v
              | None => false
              end
              && negb (is_ascii_whitespace (b64_char v))
              && negb (is_equals (b64_char v))) 64 ltac:(vm_compute; reflexivity) v Hv)
    as H.
  cbv beta in H. apply andb_prop in H as [H Heq]. apply andb_prop in H as [Hval Hws].
  apply negb_true_iff in Heq, Hws. repeat split; try assumption.
  destruct (b64_value (b64_char v)) as [u|]; [|discriminate].
  apply Z.eqb_eq in Hval. now subst.
Qed.

(** The two six-bit values that straddle a byte boundary. *)
Lemma straddle_4 : forall a b,
  is_byte a -> is_byte b ->
  Z.lor (Z.shiftl (Z.land a 3) 4) (Z.shiftr b 4) = (a mod 4) * 16 + b / 16.
Proof.
  intros a b Ha Hb.
  pose proof (@range_check
    (fun a => forallb (fun b => Z.lor (Z.shiftl (Z.land a 3) 4) (Z.shiftr b 4)
                                =? (a mod 4) * 16 + b / 16)
                      (map Z.of_nat (seq 0 256))) 256
    ltac:(vm_compute; reflexivity) a Ha) as H.
  cbv beta in H. apply Z.eqb_eq. exact (@range_check _ 256 H b Hb).
Qed.

Lemma straddle_2 : forall b c,
  is_byte b -> is_byte c ->
  Z.lor (Z.shiftl (Z.land b 15) 2) (Z.shiftr c 6) = (b mod 16) * 4 + c / 64.
Proof.
  intros b c Hb Hc.
  pose proof (@range_check
    (fun b => forallb (fun c => Z.lor (Z.shiftl (Z.land b 15) 2) (Z.shiftr c 6)
                                =? (b mod 16) * 4 + c / 64)
                      (map Z.of_nat (seq 0 256))) 256
    ltac:(vm_compute; reflexivity) b Hb) as H.
  cbv beta in H. apply Z.eqb_eq. exact (@range_check _ 256 H c Hc).
Qed.

Lemma low_bits : forall a k,
  0 <= k -> Z.land a (2 ^ k - 1) = a mod 2 ^ k.
Proof.
  intros a k Hk. replace (2 ^ k - 1) with (Z.ones k)
    by (rewrite Z.ones_equiv; lia).
  now apply Z.land_ones.
Qed.

Lemma six_bit_values : forall a b c,
  is_byte a -> is_byte b -> is_byte c ->
  0 <= Z.shiftr a 2 < 64 /\
  0 <= Z.lor (Z.shiftl (Z.land a 3) 4) (Z.shiftr b 4) < 64 /\
  0 <= Z.lor (Z.shiftl (Z.land b 15) 2) (Z.shiftr c 6) < 64 /\
  0 <= Z.land c 63 < 64 /\
  0 <= Z.shiftl (Z.land a 3) 4 < 64 /\
  0 <= Z.shiftl (Z.land b 15) 2 < 64.
Proof.
  intros a b c Ha Hb Hc. unfold is_byte in *.
  rewrite straddle_4, straddle_2 by assumption.
  rewrite !Z.shiftl_mul_pow2, !Z.shiftr_div_pow2 by lia.
  change 63 with (2 ^ 6 - 1). change 3 with (2 ^ 2 - 1). change 15 with (2 ^ 4 - 1).
  rewrite !low_bits by lia.
  change (2 ^ 2) with 4. change (2 ^ 4) with 16. change (2 ^ 6) with 64.
  repeat split; Z.div_mod_to_equations; lia.
Qed.

(** Four six-bit values of three bytes decode to the three bytes. *)
Lemma decode_three : forall a b c,
  is_byte a -> is_byte b -> is_byte c ->
  let n := Z.shiftr a 2 * 262144
           + Z.lor (Z.shiftl (Z.land a 3) 4) (Z.shiftr b 4) * 4096
           + Z.lor (Z.shiftl (Z.land b 15) 2) (Z.shiftr c 6) * 64
           + Z.land c 63 in
  Z.land (Z.shiftr n 16) 255 = a /\
  Z.land (Z.shiftr n 8) 255 = b /\
  Z.land n 255 = c.
Proof.
  intros a b c Ha Hb Hc n. unfold is_byte in *.
  assert (Hn : n = a * 65536 + b * 256 + c).
  { subst n. rewrite straddle_4, straddle_2 by assumption.
    rewrite !Z.shiftr_div_pow2 by lia.
    change 63 with (2 ^ 6 - 1). rewrite low_bits by lia.
    change (2 ^ 2) with 4. change (2 ^ 6) with 64. Z.div_mod_to_equations; lia. }
  rewrite Hn. rewrite !Z.shiftr_div_pow2 by lia.
  change 255 with (2 ^ 8 - 1). rewrite !low_bits by lia.
  change (2 ^ 16) with 65536. change (2 ^ 8) with 256.
  repeat split; Z.div_mod_to_equations; lia.
Qed.

Lemma decode_two : forall a b,
  is_byte a -> is_byte b ->
  let n := Z.shiftr a 2 * 4096
           + Z.lor (Z.shiftl (Z.land a 3) 4) (Z.shiftr b 4) * 64
           + Z.shiftl (Z.land b 15) 2 in
  Z.land (Z.shiftr n 10) 255 = a /\ Z.land (Z.shiftr n 2) 255 = b.
Proof.
  intros a b Ha Hb n. unfold is_byte in *.
  assert (Hn : n = (a * 256 + b) * 4).
  { subst n. rewrite straddle_4 by assumption.
    rewrite Z.shiftl_mul_pow2, !Z.shiftr_div_pow2 by lia.
    change 15 with (2 ^ 4 - 1). rewrite low_bits by lia.
    change (2 ^ 2) with 4. change (2 ^ 4) with 16. Z.div_mod_to_equations; lia. }
  rewrite Hn. rewrite !Z.shiftr_div_pow2 by lia.
  change 255 with (2 ^ 8 - 1). rewrite !low_bits by lia.
  change (2 ^ 10) with 1024. change (2 ^ 2) with 4. change (2 ^ 8) with 256.
  repeat split; Z.div_mod_to_equations; lia.
Qed.

Lemma decode_one : forall a,
  is_byte a ->
  Z.land (Z.shiftr (Z.shiftr a 2 * 64 + Z.shiftl (Z.land a 3) 4) 4) 255 = a.
Proof.
  intros a Ha. unfold is_byte in *.
  rewrite Z.shiftl_mul_pow2, !Z.shiftr_div_pow2 by lia.
  change 3 with (2 ^ 2 - 1). change 255 with (2 ^ 8 - 1). rewrite !low_bits by lia.
  change (2 ^ 2) with 4. change (2 ^ 4) with 16. change (2 ^ 8) with 256. Z.div_mod_to_equations; lia.
Qed.

Lemma triples_ind : forall (A : Type) (P : list A -> Prop),
  P [] -> (forall a, P [a]) -> (forall a b, P [a; b]) ->
  (forall a b c l, P l -> P (a :: b :: c :: l)) ->
  forall l, P l.
Proof.
  intros A P H0 H1 H2 H3.
  refine (fix go (l : list A) : P l :=
            match l with
            | [] => H0
            | [a] => H1 a
            | [a; b] => H2 a b
            | a :: b :: c :: rest => H3 a b c rest (go rest)
            end).
Qed.

(** A binary string holds the bytes it was made from. *)
Lemma char_codes_binary_string : forall bs,
  Forall is_byte bs -> char_codes (binary_string bs) = bs.
Proof.
  induction 1 as [|b bs Hb _ IH]; [reflexivity|].
  unfold binary_string in *. cbn [map string_of_list_ascii char_codes].
  rewrite IH. f_equal. unfold is_byte in Hb.
  rewrite nat_ascii_embedding by lia. lia.
Qed.

Lemma char_codes_bytes : forall s, Forall is_byte (char_codes s).
Proof.
  induction s as [|c s IH]; constructor; [|exact IH].
  pose proof (nat_ascii_bounded c). unfold is_byte. lia.
Qed.

Lemma sextets_cons : forall v cs vs,
  0 <= v < 64 -> sextets cs = Some vs ->
  sextets (b64_char v :: cs) = Some (v :: vs).
Proof.
  intros v cs vs Hv Hcs. cbn [sextets].
  destruct (b64_char_value Hv) as (Hval & _). now rewrite Hval, Hcs.
Qed.

(** The unpadded characters of a byte sequence are in the alphabet, and
    their six-bit values decode to the bytes. *)
Lemma unpadded_decodes : forall bs,
  Forall is_byte bs ->
  exists vs, sextets (encode_unpadded bs) = Some vs /\ decode_groups vs = bs.
Proof.
  induction bs as [|a|a b|a b c rest IH] using triples_ind; intros Hbytes.
  - exists []. split; reflexivity.
  - inversion Hbytes as [|? ? Ha _]; subst.
    destruct (six_bit_values Ha Ha Ha) as (R1 & _ & _ & _ & R5 & _).
    eexists. split.
    + cbn [encode_unpadded]. repeat (apply sextets_cons; [assumption|]). reflexivity.
    + cbn [decode_groups]. now rewrite (decode_one Ha).
  - inversion Hbytes as [|? ? Ha Htail]; subst.
    inversion Htail as [|? ? Hb _]; subst.
    destruct (six_bit_values Ha Hb Hb) as (R1 & R2 & _ & _ & _ & R6).
    eexists. split.
    + cbn [encode_unpadded]. repeat (apply sextets_cons; [assumption|]). reflexivity.
    + cbn [decode_groups]. destruct (decode_two Ha Hb) as [E1 E2].
      cbv zeta in E1, E2. now rewrite E1, E2.
  - inversion Hbytes as [|? ? Ha Htail]; subst.
    inversion Htail as [|? ? Hb Htail2]; subst.
    inversion Htail2 as [|? ? Hc Hrest]; subst.
    destruct (IH Hrest) as (vs & Hvs & Hdec).
    destruct (six_bit_values Ha Hb Hc) as (R1 & R2 & R3 & R4 & _ & _).
    eexists. split.
    + cbn [encode_unpadded]. repeat (apply sextets_cons; [assumption|]). exact Hvs.
    + cbn [decode_groups]. destruct (decode_three Ha Hb Hc) as (E1 & E2 & E3).
      cbv zeta in E1, E2, E3. now rewrite E1, E2, E3, Hdec.
Qed.

Lemma unpadded_length : forall bs,
  (length (encode_unpadded bs) mod 4 =? 1)%nat = false.
Proof.
  induction bs as [|a|a b|a b c rest IH] using triples_ind; try reflexivity.
  cbn [encode_unpadded length].
  replace (S (S (S (S (length (encode_unpadded rest))))))
    with (length (encode_unpadded rest) + 1 * 4)%nat by lia.
  now rewrite Nat.Div0.mod_add.
Qed.

(** The last character of a non-empty unpadded encoding is not [=]. *)
Lemma unpadded_last : forall bs,
  Forall is_byte bs -> bs <> [] ->
  exists u c, encode_unpadded bs = u ++ [c] /\ is_equals c = false.
Proof.
  induction bs as [|a|a b|a b c rest IH] using triples_ind; intros Hbytes Hne.
  - contradiction.
  - inversion Hbytes as [|? ? Ha _]; subst.
    destruct (six_bit_values Ha Ha Ha) as (_ & _ & _ & _ & R5 & _).
    destruct (b64_char_value R5) as (_ & _ & He).
    eexists [_], _. split; [reflexivity | exact He].
  - inversion Hbytes as [|? ? Ha Htail]; subst.
    inversion Htail as [|? ? Hb _]; subst.
    destruct (six_bit_values Ha Hb Hb) as (_ & _ & _ & _ & _ & R6).
    destruct (b64_char_value R6) as (_ & _ & He).
    eexists [_; _], _. split; [reflexivity | exact He].
  - inversion Hbytes as [|? ? Ha Htail]; subst.
    inversion Htail as [|? ? Hb Htail2]; subst.
    inversion Htail2 as [|? ? Hc Hrest]; subst.
    destruct rest as [|r rest].
    + destruct (six_bit_values Ha Hb Hc) as (_ & _ & _ & R4 & _ & _).
      destruct (b64_char_value R4) as (_ & _ & He).
      eexists [_; _; _], _. split; [reflexivity | exact He].
    + destruct (IH Hrest ltac:(discriminate)) as (u & x & Hu & He).
      cbn [encode_unpadded] in *. rewrite Hu.
      eexists (_ :: _ :: _ :: _ :: u), x. split; [reflexivity | exact He].
Qed.

(** The padded encoding is the unpadded one followed by no, one or two [=]. *)
Lemma padded_form : forall bs,
  (length (encode_groups bs) mod 4 = 0)%nat /\
  exists pad,
    encode_groups bs = encode_unpadded bs ++ pad /\
    (pad = [] \/ (bs <> [] /\ (pad = [equals_sign] \/ pad = [equals_sign; equals_sign]))).
Proof.
  induction bs as [|a|a b|a b c rest IH] using triples_ind.
  - split; [reflexivity|]. exists []. split; [reflexivity | now left].
  - split; [reflexivity|]. exists [equals_sign; equals_sign].
    split; [reflexivity|]. right. split; [discriminate | now right].
  - split; [reflexivity|]. exists [equals_sign].
    split; [reflexivity|]. right. split; [discriminate | now left].
  - destruct IH as (Hlen & pad & Hpad & Hcases). split.
    + cbn [encode_groups length].
      replace (S (S (S (S (length (encode_groups rest))))))
        with (length (encode_groups rest) + 1 * 4)%nat by lia.
      now rewrite Nat.Div0.mod_add.
    + exists pad. split.
      * cbn [encode_groups encode_unpadded app]. now rewrite Hpad.
      * destruct Hcases as [->|[_ Hp]]; [now left|].
        right. split; [discriminate | exact Hp].
Qed.

(** Stripping the padding of a well-formed text leaves it unpadded. *)
Lemma strip_padding_spec : forall u pad,
  (u = [] \/ exists u' c, u = u' ++ [c] /\ is_equals c = false) ->
  (pad = [] \/
   (u <> [] /\ (length (u ++ pad) mod 4 = 0)%nat /\
    (pad = [equals_sign] \/ pad = [equals_sign; equals_sign]))) ->
  strip_padding (u ++ pad) = u.
Proof.
  intros u pad Hlast Hpad. unfold strip_padding.
  destruct Hpad as [->|(Hne & Hlen & Hp)].
  - rewrite app_nil_r.
    destruct (length u mod 4 =? 0)%nat; [|reflexivity].
    destruct Hlast as [->|(u' & c & -> & Hc)]; [reflexivity|].
    rewrite rev_app_distr. cbn [rev app].
    destruct (rev u') as [|c2 r]; now rewrite Hc.
  - rewrite Hlen. cbn [Nat.eqb].
    destruct Hlast as [->|(u' & c & -> & Hc)]; [contradiction|].
    destruct Hp as [->| ->]; rewrite !rev_app_distr; cbn [rev app].
    + change (is_equals equals_sign) with true. cbv iota. rewrite Hc.
      cbn [rev]. now rewrite rev_involutive.
    + change (is_equals equals_sign) with true. cbv iota.
      cbn [rev]. now rewrite rev_involutive.
Qed.

Lemma strip_padding_encoded : forall bs,
  Forall is_byte bs ->
  strip_padding (encode_groups bs) = encode_unpadded bs /\
  strip_padding (encode_unpadded bs) = encode_unpadded bs.
Proof.
  intros bs Hbytes.
  assert (Hlast : encode_unpadded bs = [] \/
                  exists u' c, encode_unpadded bs = u' ++ [c] /\ is_equals c = false).
  { destruct bs as [|b bs]; [now left|]. right.
    apply unpadded_last; [assumption | discriminate]. }
  split.
  - destruct (padded_form bs) as (Hlen & pad & Hform & Hcases).
    rewrite Hform. apply strip_padding_spec; [exact Hlast|].
    destruct Hcases as [->|[Hne Hp]]; [now left|]. right.
    split; [|split; [now rewrite <- Hform | exact Hp]].
    destruct bs as [|a [|b [|c rest]]]; try contradiction; discriminate.
  - rewrite <- (app_nil_r (encode_unpadded bs)) at 1.
    apply strip_padding_spec; [exact Hlast | now left].
Qed.

(** X4: [base64ToArrayBuffer] inverts the standard encoding.  For every
    sequence of bytes, a text whose characters other than whitespace are
    the base64 encoding of the bytes, with or without the [=] padding,
    is decoded to exactly those bytes. *)
Theorem base64_round_trip : forall (bs : list Z) (text : string),
  Forall is_byte bs ->
  significant text = encode_groups bs \/ significant text = encode_unpadded bs ->
  base64ToArrayBuffer text = inr bs.
Proof.
  intros bs text Hbytes Htext.
  destruct (strip_padding_encoded Hbytes) as [Hpadded Hplain].
  assert (Hstrip : strip_padding (significant text) = encode_unpadded bs)
    by (destruct Htext as [-> | ->]; assumption).
  destruct (unpadded_decodes Hbytes) as (vs & Hvs & Hdec).
  unfold base64ToArrayBuffer, atob.
  change (filter (fun c => negb (is_ascii_whitespace c)) (list_ascii_of_string text))
    with (significant text).
  cbv zeta. rewrite Hstrip, unpadded_length, Hvs, Hdec. cbn [bind ret].
  now rewrite char_codes_binary_string.
Qed.

(** Five bytes, encoded with padding and broken by a space. *)
Lemma base64_round_trip_witness :
  Forall is_byte [72; 101; 108; 108; 111] /\
  encode [72; 101; 108; 108; 111] = "SGVsbG8=" /\
  base64ToArrayBuffer "SGVs bG8=" = inr [72; 101; 108; 108; 111] /\
  base64ToArrayBuffer "SGVsbG8" = inr [72; 101; 108; 108; 111].
Proof.
  assert (Hb : Forall is_byte [72; 101; 108; 108; 111])
    by (repeat constructor; unfold is_byte; lia).
  split; [exact Hb|]. split; [reflexivity|]. split.
  - apply (@base64_round_trip [72; 101; 108; 108; 111] "SGVs bG8=" Hb).
    left. reflexivity.
  - apply (@base64_round_trip [72; 101; 108; 108; 111] "SGVsbG8" Hb).
    right. reflexivity.
Defined.

Lemma in_strip_padding : forall c cs,
  In c cs -> is_equals c = false -> In c (strip_padding cs).
Proof.
  intros c cs Hin Hc. unfold strip_padding.
  destruct (length cs mod 4 =? 0)%nat; [|exact Hin].
  apply in_rev in Hin.
  destruct (rev cs) as [|c1 [|c2 r]] eqn:Hrev.
  - contradiction.
  - destruct (is_equals c1) eqn:H1.
    + destruct Hin as [->|[]]. congruence.
    + apply in_rev. rewrite Hrev. exact Hin.
  - destruct (is_equals c1) eqn:H1.
    + destruct Hin as [->|Hin]; [congruence|].
      destruct (is_equals c2) eqn:H2.
      * destruct Hin as [->|Hin]; [congruence|]. now apply in_rev in Hin.
      * now apply in_rev in Hin.
    + apply in_rev. rewrite Hrev. exact Hin.
Qed.

Lemma sextets_foreign : forall c cs,
  In c cs -> b64_value c = None -> sextets cs = None.
Proof.
  induction cs as [|x cs IH]; intros Hin Hc; [contradiction|].
  cbn [sextets]. destruct Hin as [->|Hin].
  - now rewrite Hc.
  - rewrite (IH Hin Hc). now destruct (b64_value x).
Qed.

(** X5: a character outside the alphabet is never skipped.  When a
    text contains a character that is not ASCII whitespace, not [=], and
    not one of the 64 characters of the alphabet, wherever it stands,
    [base64ToArrayBuffer] raises the [InvalidCharacterError] of [atob]
    and returns no buffer. *)
Theorem base64_rejects_foreign_character : forall (text : string) (c : ascii),
  In c (list_ascii_of_string text) ->
  is_ascii_whitespace c = false ->
  is_equals c = false ->
  b64_value c = None ->
  base64ToArrayBuffer text = inl InvalidCharacterError.
Proof.
  intros text c Hin Hws Heq Hval.
  unfold base64ToArrayBuffer, atob. cbv zeta.
  set (cs := strip_padding (filter _ _)).
  assert (Hcs : In c cs).
  { apply in_strip_padding; [|exact Heq].
    apply filter_In. split; [exact Hin | now rewrite Hws]. }
  destruct (length cs mod 4 =? 1)%nat; [reflexivity|].
  now rewrite (sextets_foreign c cs Hcs Hval).
Qed.

(** A dash, as the URL-safe alphabet has it, in the middle of a text. *)
Lemma base64_rejects_foreign_character_witness :
  In "-"%char (list_ascii_of_string "AAD-f2QA") /\
  base64ToArrayBuffer "AAD-f2QA" = inl InvalidCharacterError.
Proof.
  assert (Hin : In "-"%char (list_ascii_of_string "AAD-f2QA"))
    by (cbn; tauto).
  split; [exact Hin|].
  exact (@base64_rejects_foreign_character "AAD-f2QA" "-"%char Hin
           eq_refl eq_refl eq_refl).
Defined.

End Base64More.

(** ** Every run of the invoker *)

Module InvokerMore.
Import Js Net Invoker Run InvokerFacts InvokerClaims.

(** The events of [k] failed attempts in a row, the first of them
    made with the retry count [retries] and the random values of [w]. *)
Lemma failures_unfold : forall (f : nat -> list Event) k,
  flat_map f (seq 0 (S k)) = f 0%nat ++ flat_map (fun i => f (S i)) (seq 0 k).
Proof.
  intros f k. cbn [seq flat_map]. f_equal.
  rewrite <- seq_shift, flat_map_concat_map, map_map, <- flat_map_concat_map.
  reflexivity.
Qed.

Lemma run_after_failures : forall url options k retries w,
  (retries + k <= maxRetries)%nat ->
  (forall i, (i < k)%nat -> failing (network w (fetches w + i))) ->
  exists wk,
    fetchWithRetry url options retries w =
      fetchWithRetry url options (retries + k) wk /\
    network wk = network w /\ random wk = random w /\
    fetches wk = (fetches w + k)%nat /\ draws wk = (draws w + k)%nat /\
    events wk =
      events w ++
      flat_map (fun i => [Fetched url options;
                          Slept (delay_for (retries + i) (random w (draws w + i)))])
               (seq 0 k).
Proof.
  intros url options k. induction k as [|k IH]; intros retries w Hle Hfail.
  - exists w. rewrite !Nat.add_0_r. cbn [seq flat_map]. rewrite app_nil_r.
    repeat split; reflexivity.
  - destruct (retried_counters url options retries w) as (N1 & R1 & F1 & D1).
    destruct (IH (S retries) (retried url options retries w)) as
      (wk & Hrun & Nk & Rk & Fk & Dk & Ek).
    { lia. }
    { intros i Hi. rewrite N1, F1.
      replace (S (fetches w) + i)%nat with (fetches w + S i)%nat by lia.
      apply Hfail. lia. }
    exists wk. repeat split.
    + rewrite retry_step.
      * rewrite Hrun. f_equal. lia.
      * lia.
      * specialize (Hfail 0%nat). rewrite Nat.add_0_r in Hfail. apply Hfail. lia.
    + congruence.
    + congruence.
    + lia.
    + lia.
    + rewrite Ek, retried_events, failures_unfold, R1, D1, <- app_assoc.
      rewrite !Nat.add_0_r. cbn [app]. do 3 f_equal.
      apply flat_map_ext. intros i.
      replace (S retries + i)%nat with (retries + S i)%nat by lia.
      replace (S (draws w) + i)%nat with (draws w + S i)%nat by lia.
      reflexivity.
Qed.

Lemma failing_dec : forall o, {failing o} + {exists r, o = Fulfilled r /\ ok r = true}.
Proof.
  intros [e|r]; [left; exact I|]. destruct (ok r) eqn:Hok.
  - right. eauto.
  - left. exact Hok.
Qed.

Lemma after_fetch_events : forall url options w,
  events (after_fetch url options w) = events w ++ [Fetched url options].
Proof. intros. unfold after_fetch, fetch. now destruct (network w (fetches w)). Qed.

Lemma trace_from : forall url options n retries w,
  (maxRetries - retries <= n)%nat ->
  exists k,
    (k <= maxRetries - retries)%nat /\
    events (snd (fetchWithRetry url options retries w)) =
      events w ++
      flat_map (fun i => [Fetched url options;
                          Slept (delay_for (retries + i) (random w (draws w + i)))])
               (seq 0 k)
      ++ [Fetched url options].
Proof.
  intros url options n. induction n as [|n IH]; intros retries w Hn.
  - exists 0%nat. split; [lia|]. cbn [seq flat_map app].
    apply last_attempt_events. lia.
  - destruct (le_lt_dec maxRetries retries) as [Hge|Hlt].
    { exists 0%nat. split; [lia|]. cbn [seq flat_map app].
      now apply last_attempt_events. }
    destruct (failing_dec (network w (fetches w))) as [Hfail|(r & Hnet & Hok)].
    + destruct (retried_counters url options retries w) as (N1 & R1 & F1 & D1).
      destruct (IH (S retries) (retried url options retries w)) as (k & Hk & Hev);
        [lia|].
      exists (S k). split; [lia|].
      rewrite retry_step by assumption.
      rewrite Hev, retried_events, failures_unfold, R1, D1, <- !app_assoc.
      rewrite !Nat.add_0_r. cbn [app]. do 3 f_equal. f_equal.
      apply flat_map_ext. intros i.
      replace (S retries + i)%nat with (retries + S i)%nat by lia.
      replace (S (draws w) + i)%nat with (draws w + S i)%nat by lia.
      reflexivity.
    + exists 0%nat. split; [lia|]. cbn [seq flat_map app].
      rewrite (fetch_success url options retries w Hnet Hok).
      apply after_fetch_events.
Qed.

Lemma failures_counts : forall url options (d : nat -> Q) k,
  fetch_count (flat_map (fun i => [Fetched url options; Slept (d i)]) (seq 0 k)) = k /\
  delays (flat_map (fun i => [Fetched url options; Slept (d i)]) (seq 0 k)) =
    map d (seq 0 k).
Proof.
  intros url options d k. revert d. induction k as [|k IH]; intros d.
  - split; reflexivity.
  - rewrite failures_unfold. destruct (IH (fun i => d (S i))) as [Hc Hd].
    rewrite fetch_count_app, delays_app, Hc, Hd. split; [reflexivity|].
    cbn [seq map delays app]. f_equal. now rewrite <- seq_shift, map_map.
Qed.

(** X6: the shape of every run of the invoker.  Whatever the network
    and the random source do, a call of [fetchWithRetry] from
    [retries] performs [k + 1] requests and [k] sleeps for some
    [k <= 3 - retries], strictly alternating and ending with a request:
    every request has the same URL and options, and the [i]-th sleep
    lasts [2^(retries + i) * 1000] ms plus the jitter of the [i]-th
    random value.  From [retries = 0] there are never more than four
    requests nor more than three sleeps. *)
Theorem invoker_trace : forall url options retries w,
  exists k,
    (k <= maxRetries - retries)%nat /\
    events (snd (fetchWithRetry url options retries w)) =
      events w ++
      flat_map (fun i => [Fetched url options;
                          Slept (delay_for (retries + i) (random w (draws w + i)))])
               (seq 0 k)
      ++ [Fetched url options] /\
    fetch_count (events (snd (fetchWithRetry url options retries w))) =
      (fetch_count (events w) + k + 1)%nat /\
    length (delays (events (snd (fetchWithRetry url options retries w)))) =
      (length (delays (events w)) + k)%nat.
Proof.
  intros url options retries w.
  destruct (@trace_from url options (maxRetries - retries) retries w (le_n _))
    as (k & Hk & Hev).
  exists k. split; [exact Hk|]. split; [exact Hev|].
  rewrite Hev, !fetch_count_app, !delays_app, !length_app.
  destruct (failures_counts url options
              (fun i => delay_for (retries + i) (random w (draws w + i))) k)
    as [Hc Hd].
  rewrite Hc, Hd, length_map, length_seq. cbn. split; lia.
Qed.

(** X7: recovery after transient failures.  When the first [k]
    outcomes ([k <= 3]) are failures of any kind (a rejected [fetch], a
    429, another non-2xx status) and the next outcome is a 2xx response,
    [fetchWithRetry] ends with the outcome of that response's
    [json()], after exactly [k + 1] requests and [k] sleeps, the
    [i]-th of them for [2^i * 1000] ms plus jitter. *)
Theorem invoker_recovers : forall url options k w r,
  (k <= maxRetries)%nat ->
  (forall i, (i < k)%nat -> failing (network w (fetches w + i))) ->
  network w (fetches w + k) = Fulfilled r ->
  ok r = true ->
  fst (fetchWithRetry url options 0 w) = json r /\
  fetch_count (events (snd (fetchWithRetry url options 0 w))) =
    (fetch_count (events w) + k + 1)%nat /\
  delays (events (snd (fetchWithRetry url options 0 w))) =
    delays (events w) ++
    map (fun i => delay_for i (random w (draws w + i))) (seq 0 k).
Proof.
  intros url options k w r Hk Hfail Hnet Hok.
  destruct (@run_after_failures url options k 0 w Hk Hfail)
    as (wk & Hrun & Nk & _ & Fk & _ & Ek).
  assert (Hnetk : network wk (fetches wk) = Fulfilled r) by now rewrite Nk, Fk.
  rewrite Hrun, (fetch_success url options (0 + k) wk Hnetk Hok).
  cbn [fst snd]. rewrite after_fetch_events, Ek.
  destruct (failures_counts url options
              (fun i => delay_for (0 + i) (random w (draws w + i))) k) as [Hc Hd].
  rewrite !fetch_count_app, !delays_app, Hc, Hd.
  cbn [delays fetch_count filter length app]. rewrite app_nil_r.
  repeat split; lia.
Qed.

(** Two rate-limited attempts, then an answer. *)
Lemma invoker_recovers_witness :
  let options := mkOptions "POST" [] JNull in
  let w := scripted [Fulfilled (plain_response 429 "slow down");
                     Rejected (NetworkError "offline");
                     Fulfilled (json_response (JStr "pong"))] (1 # 4) in
  fst (fetchWithRetry "u" options 0 w) = inr (JStr "pong") /\
  fetch_count (events (snd (fetchWithRetry "u" options 0 w))) = 3%nat /\
  delays (events (snd (fetchWithRetry "u" options 0 w))) =
    [delay_for 0 (1 # 4); delay_for 1 (1 # 4)].
Proof.
  intros options w.
  destruct (@invoker_recovers "u" options 2 w (json_response (JStr "pong")))
    as (Hres & Hcount & Hdelays).
  - unfold maxRetries. lia.
  - intros i Hi. destruct i as [|[|i]]; [reflexivity | exact I | lia].
  - reflexivity.
  - reflexivity.
  - repeat split; assumption.
Defined.

(** X8: exhaustion keeps the last error only.  When every remaining
    attempt fails (the [4 - retries] outcomes from the current one on),
    [fetchWithRetry] rejects with the error of the last attempt: the
    rejection of its [fetch], the rejection of its [text()], or the
    status error built from its status and body.  The errors of the
    earlier attempts are dropped. *)
Theorem invoker_exhausted : forall url options retries w,
  (retries <= maxRetries)%nat ->
  (forall i, (i <= maxRetries - retries)%nat ->
             failing (network w (fetches w + i))) ->
  fst (fetchWithRetry url options retries w) =
    inl (attempt_error (network w (fetches w + (maxRetries - retries)))) /\
  fetch_count (events (snd (fetchWithRetry url options retries w))) =
    (fetch_count (events w) + (maxRetries - retries) + 1)%nat.
Proof.
  intros url options retries w Hle Hfail.
  destruct (@run_after_failures url options (maxRetries - retries) retries w)
    as (wk & Hrun & Nk & _ & Fk & _ & Ek).
  { lia. }
  { intros i Hi. apply Hfail. lia. }
  assert (Hlast : failing (network wk (fetches wk)))
    by (rewrite Nk, Fk; apply Hfail; lia).
  rewrite Hrun, final_failure; [|lia|exact Hlast].
  cbn [fst snd]. rewrite Nk, Fk. split; [reflexivity|].
  rewrite after_fetch_events, Ek.
  destruct (failures_counts url options
              (fun i => delay_for (retries + i) (random w (draws w + i)))
              (maxRetries - retries)) as [Hc _].
  rewrite !fetch_count_app, Hc. cbn. lia.
Qed.

(** Three different failures and then a 503: only the 503 is reported. *)
Lemma invoker_exhausted_witness :
  let options := mkOptions "POST" [] JNull in
  let w := scripted [Rejected (NetworkError "offline");
                     Fulfilled (plain_response 500 "first");
                     Fulfilled (plain_response 429 "slow down");
                     Fulfilled (plain_response 503 "unavailable")] 0 in
  fst (fetchWithRetry "u" options 0 w) =
    inl (Error "API Request failed with status 503: unavailable") /\
  fetch_count (events (snd (fetchWithRetry "u" options 0 w))) = 4%nat.
Proof.
  intros options w.
  destruct (@invoker_exhausted "u" options 0 w) as (Hres & Hcount).
  - unfold maxRetries. lia.
  - intros i Hi. unfold maxRetries in Hi.
    destruct i as [|[|[|[|i]]]]; [exact I | reflexivity..|lia].
  - split; assumption.
Defined.

(** X9: a 2xx response always ends the run.  Whatever the retry count,
    a 2xx response is followed by no sleep and no further request, and
    the result of the invoker is the outcome of [response.json()]; in
    particular a 2xx response whose body is not JSON makes the invoker
    reject with the parse error at once, even when retries remain. *)
Theorem ok_response_ends_run : forall url options retries w r,
  network w (fetches w) = Fulfilled r ->
  ok r = true ->
  fst (fetchWithRetry url options retries w) = json r /\
  events (snd (fetchWithRetry url options retries w)) =
    events w ++ [Fetched url options].
Proof.
  intros url options retries w r Hnet Hok.
  rewrite (fetch_success url options retries w Hnet Hok).
  split; [reflexivity | apply after_fetch_events].
Qed.

(** A 200 response with an HTML body, on the first attempt. *)
Lemma ok_response_ends_run_witness :
  let options := mkOptions "POST" [] JNull in
  let w := scripted [Fulfilled (plain_response 200 "<html>");
                     Fulfilled (json_response JNull)] 0 in
  fst (fetchWithRetry "u" options 0 w) = inl SyntaxError /\
  events (snd (fetchWithRetry "u" options 0 w)) = [Fetched "u" options].
Proof.
  intros options w.
  exact (@ok_response_ends_run "u" options 0 w (plain_response 200 "<html>")
           eq_refl eq_refl).
Defined.

(** X10: the backoff never shrinks.  Whatever the jitter values, the
    delay computed for one attempt is at most the delay computed for the
    next attempt, and from the second attempt on it is strictly shorter.
    The first two delays can be equal: in double arithmetic the jitter
    term of the first can round up to the full 1000 ms, which gives
    2000 ms twice; the statement is made for jitter in the closed
    interval, which covers the rounded values. *)
Theorem backoff_never_decreases : forall retries r r',
  (0 <= r)%Q -> (r <= 1)%Q -> (0 <= r')%Q ->
  (delay_for retries r <= delay_for (S retries) r')%Q /\
  ((1 <= retries)%nat -> (delay_for retries r < delay_for (S retries) r')%Q).
Proof.
  intros retries r r' H0 H1 H0'. unfold delay_for.
  assert (Hpow : 2 ^ Z.of_nat (S retries) = 2 * 2 ^ Z.of_nat retries)
    by (rewrite Nat2Z.inj_succ, Z.pow_succ_r by lia; reflexivity).
  assert (Hone : (1 <= inject_Z (2 ^ Z.of_nat retries))%Q).
  { change 1%Q with (inject_Z 1). rewrite <- Zle_Qle.
    pose proof (Z.pow_pos_nonneg 2 (Z.of_nat retries)). lia. }
  assert (Htwo : (1 <= retries)%nat -> (2 <= inject_Z (2 ^ Z.of_nat retries))%Q).
  { intros Hge. change 2%Q with (inject_Z 2). rewrite <- Zle_Qle.
    change 2 with (2 ^ 1) at 1. apply Z.pow_le_mono_r; lia. }
  rewrite Hpow, inject_Z_mult.
  set (b := inject_Z (2 ^ Z.of_nat retries)) in *.
  change (inject_Z 2) with (2 # 1)%Q. change (inject_Z 1000) with (1000 # 1)%Q.
  split; [lra|]. intros Hge. specialize (Htwo Hge). lra.
Qed.

(** The longest first delay against the shortest second delay, both
    2000 ms; the longest second delay, 3000 ms, against the shortest
    third, 4000 ms. *)
Lemma backoff_never_decreases_witness :
  (delay_for 0 1 <= delay_for 1 0)%Q /\
  (delay_for 0 1 == delay_for 1 0)%Q /\
  (delay_for 1 1 < delay_for 2 0)%Q.
Proof.
  split; [|split].
  - apply (@backoff_never_decreases 0%nat 1 0); discriminate.
  - reflexivity.
  - apply (@backoff_never_decreases 1%nat 1 0); try discriminate. lia.
Defined.

End InvokerMore.

(** ** The invoker of the UI component *)

Module PerformFetchMore.
Import Js Net Invoker Run InvokerFacts InvokerClaims Ui.

Section Loop.
Variable stringify : JSON -> string.
Variable url : string.
Variable payload : JSON.
Variable retries : nat.

Lemma pass_index_last : forall i, (S i = retries)%nat ->
  (Z.of_nat i =? Z.of_nat retries - 1) = true /\
  (Z.of_nat i <? Z.of_nat retries - 1) = false.
Proof. intros i Hi. split; [apply Z.eqb_eq | apply Z.ltb_ge]; lia. Qed.

Lemma pass_index_inner : forall i, (S i < retries)%nat ->
  (Z.of_nat i =? Z.of_nat retries - 1) = false /\
  (Z.of_nat i <? Z.of_nat retries - 1) = true.
Proof. intros i Hi. split; [apply Z.eqb_neq | apply Z.ltb_lt]; lia. Qed.

(** A 2xx response inside the loop ends it with the outcome of [json()]. *)
Lemma loop_success : forall i w r,
  (i < retries)%nat ->
  network w (fetches w) = Fulfilled r -> ok r = true ->
  loop_from stringify url payload retries i w =
  (match json r with inl e => inl e | inr body => inr (Some body) end,
   after_fetch url (Service.post payload) w).
Proof.
  intros i w r Hi Hnet Hok. rewrite loop_from_equation_1.
  destruct (lt_dec i retries); [|contradiction].
  unfold pass, try_block, abind, after_fetch, fetch. rewrite Hnet.
  cbn [snd]. now rewrite Hok.
Qed.

(** A failing outcome before the last pass: one sleep of
    [2^i * 1000] ms, then the next pass. *)
Lemma loop_retry : forall i w,
  (S i < retries)%nat ->
  failing (network w (fetches w)) ->
  exists w1,
    loop_from stringify url payload retries i w =
      loop_from stringify url payload retries (S i) w1 /\
    network w1 = network w /\ fetches w1 = S (fetches w) /\
    delays (events w1) = delays (events w) ++ [delay_ms i] /\
    fetch_count (events w1) = S (fetch_count (events w)).
Proof.
  intros i w Hi Hfail. destruct (pass_index_inner Hi) as [Heq Hlt].
  rewrite loop_from_equation_1.
  destruct (lt_dec i retries); [|lia].
  unfold pass, try_block, abind, fetch, lift, athrow, aret, sleep, console_error, log.
  destruct (network w (fetches w)) as [e|r]; cbn [failing] in Hfail.
  - rewrite Heq. cbn [snd fst]. eexists. split; [reflexivity|].
    cbn [network fetches events]. rewrite !delays_app, !fetch_count_app.
    cbn. rewrite app_nil_r. repeat split; lia.
  - rewrite Hfail, Hlt, andb_true_r.
    destruct (status r =? 429).
    + cbn [snd fst]. eexists. split; [reflexivity|].
      cbn [network fetches events]. rewrite !delays_app, !fetch_count_app.
      cbn. rewrite app_nil_r. repeat split; lia.
    + destruct (json r) as [e|body]; rewrite Heq; cbn [snd fst];
        (eexists; split; [reflexivity|]);
        cbn [network fetches events]; rewrite !delays_app, !fetch_count_app;
        cbn; rewrite ?app_nil_r; repeat split; lia.
Qed.

(** A failing outcome in the last pass is thrown to the caller. *)
Lemma loop_last : forall i w,
  (S i = retries)%nat ->
  failing (network w (fetches w)) ->
  exists w1,
    loop_from stringify url payload retries i w =
      (inl (last_error stringify (network w (fetches w))), w1) /\
    delays (events w1) = delays (events w) /\
    fetch_count (events w1) = S (fetch_count (events w)).
Proof.
  intros i w Hi Hfail. destruct (pass_index_last Hi) as [Heq Hlt].
  rewrite loop_from_equation_1.
  destruct (lt_dec i retries); [|lia].
  unfold pass, try_block, abind, fetch, lift, athrow, aret, sleep, console_error,
    log, last_error.
  destruct (network w (fetches w)) as [e|r]; cbn [failing] in Hfail.
  - rewrite Heq. eexists. split; [reflexivity|].
    cbn [events]. rewrite !delays_app, !fetch_count_app.
    cbn. rewrite app_nil_r. repeat split; lia.
  - rewrite Hfail, Hlt, andb_false_r.
    destruct (json r) as [e|body]; rewrite Heq; (eexists; split; [reflexivity|]);
      cbn [events]; rewrite !delays_app, !fetch_count_app;
      cbn; rewrite ?app_nil_r; repeat split; lia.
Qed.

Lemma loop_after_failures : forall k i w,
  (i + k < retries)%nat ->
  (forall j, (j < k)%nat -> failing (network w (fetches w + j))) ->
  exists wk,
    loop_from stringify url payload retries i w =
      loop_from stringify url payload retries (i + k) wk /\
    network wk = network w /\ fetches wk = (fetches w + k)%nat /\
    delays (events wk) = delays (events w) ++ map delay_ms (seq i k) /\
    fetch_count (events wk) = (fetch_count (events w) + k)%nat.
Proof.
  induction k as [|k IH]; intros i w Hlt Hfail.
  - exists w. rewrite !Nat.add_0_r. cbn [seq map]. rewrite app_nil_r.
    repeat split; reflexivity.
  - destruct (@loop_retry i w) as (w1 & Hstep & N1 & F1 & D1 & C1); [lia| |].
    { specialize (Hfail 0%nat). rewrite Nat.add_0_r in Hfail. apply Hfail. lia. }
    destruct (IH (S i) w1) as (wk & Hrun & Nk & Fk & Dk & Ck); [lia| |].
    { intros j Hj. rewrite N1, F1.
      replace (S (fetches w) + j)%nat with (fetches w + S j)%nat by lia.
      apply Hfail. lia. }
    exists wk. repeat split.
    + rewrite Hstep, Hrun. f_equal. lia.
    + congruence.
    + lia.
    + rewrite Dk, D1, <- app_assoc. reflexivity.
    + lia.
Qed.


Lemma loop_done : forall i w,
  (retries <= i)%nat ->
  loop_from stringify url payload retries i w = (inr None, w).
Proof.
  intros i w Hi. rewrite loop_from_equation_1.
  destruct (lt_dec i retries); [lia | reflexivity].
Qed.

Lemma loop_budget : forall n i w,
  (retries - i <= n)%nat ->
  (fetch_count (events (snd (loop_from stringify url payload retries i w))) <=
     fetch_count (events w) + (retries - i))%nat /\
  ((i < retries)%nat ->
     fst (loop_from stringify url payload retries i w) <> inr None).
Proof.
  induction n as [|n IH]; intros i w Hn.
  - rewrite loop_done by lia. cbn [snd fst]. split; lia.
  - destruct (le_lt_dec retries i) as [Hge|Hlt].
    { rewrite loop_done by lia. cbn [snd fst]. split; lia. }
    destruct (InvokerMore.failing_dec (network w (fetches w)))
      as [Hfail|(r & Hnet & Hok)].
    + destruct (Nat.eq_dec (S i) retries) as [Hlast|Hinner].
      * destruct (loop_last w Hlast Hfail) as (w1 & Hrun & _ & C1).
        rewrite Hrun. cbn [snd fst]. split; [lia | discriminate].
      * destruct (@loop_retry i w) as (w1 & Hrun & _ & _ & _ & C1);
          [lia | exact Hfail |].
        destruct (IH (S i) w1) as [Hcount Hsome]; [lia|].
        rewrite Hrun. split; [lia|]. intros _. apply Hsome. lia.
    + rewrite (loop_success w Hlt Hnet Hok). cbn [snd fst].
      rewrite InvokerMore.after_fetch_events, fetch_count_app. cbn.
      split; [lia|]. destruct (json r); discriminate.
Qed.

End Loop.

(** X11: the component's invoker, exhausted.  When all [retries]
    outcomes fail ([retries >= 1]), [performFetch] rejects with the
    error of the last pass after exactly [retries] requests, and it has
    slept [retries - 1] times, for exactly [2^i * 1000] ms after the
    [i]-th failure, with no jitter: 1000 ms and 2000 ms for the default
    of three. *)
Theorem performFetch_exhausted : forall stringify url payload retries w,
  (1 <= retries)%nat ->
  (forall j, (j < retries)%nat -> failing (network w (fetches w + j))) ->
  fst (performFetch stringify url payload retries w) =
    inl (last_error stringify (network w (fetches w + (retries - 1)))) /\
  fetch_count (events (snd (performFetch stringify url payload retries w))) =
    (fetch_count (events w) + retries)%nat /\
  delays (events (snd (performFetch stringify url payload retries w))) =
    delays (events w) ++ map delay_ms (seq 0 (retries - 1)).
Proof.
  intros stringify url payload retries w Hpos Hfail. unfold performFetch.
  destruct (@loop_after_failures stringify url payload retries (retries - 1) 0 w)
    as (wk & Hrun & Nk & Fk & Dk & Ck).
  { lia. }
  { intros j Hj. apply Hfail. lia. }
  destruct (@loop_last stringify url payload retries (retries - 1) wk)
    as (w1 & Hlast & D1 & C1).
  { lia. }
  { rewrite Nk, Fk. apply Hfail. lia. }
  rewrite Hrun. cbn [Nat.add]. rewrite Hlast. cbn [fst snd].
  rewrite Nk, Fk, D1, C1, Dk, Ck. repeat split; lia.
Qed.

(** The default budget of three: a dropped connection, a 429, a 503. *)
Lemma performFetch_exhausted_witness :
  let body := JObj [("error", JStr "unavailable")] in
  let w := scripted [Rejected (NetworkError "offline");
                     Fulfilled (plain_response 429 "slow down");
                     Fulfilled (mkResponse 503 (inr "unavailable") (inr body))] 0 in
  fst (performFetch JsonPrint.stringify "u" JNull 3 w) =
    inl (api_error JsonPrint.stringify 503 body) /\
  fetch_count (events (snd (performFetch JsonPrint.stringify "u" JNull 3 w))) = 3%nat /\
  delays (events (snd (performFetch JsonPrint.stringify "u" JNull 3 w))) =
    [delay_ms 0; delay_ms 1].
Proof.
  intros body w.
  destruct (@performFetch_exhausted JsonPrint.stringify "u" JNull 3 w)
    as (Hres & Hcount & Hd).
  - lia.
  - intros j Hj. destruct j as [|[|[|j]]]; [exact I | reflexivity | reflexivity | lia].
  - repeat split; assumption.
Defined.

(** X12: the component's invoker, recovering.  When the first [k]
    outcomes fail, with [k] below the budget, and the next outcome is a
    2xx response, [performFetch] ends with the outcome of that
    response's [json()] after exactly [k + 1] requests and [k] sleeps
    of [2^i * 1000] ms. *)
Theorem performFetch_recovers : forall stringify url payload retries k w r,
  (k < retries)%nat ->
  (forall j, (j < k)%nat -> failing (network w (fetches w + j))) ->
  network w (fetches w + k) = Fulfilled r ->
  ok r = true ->
  fst (performFetch stringify url payload retries w) =
    match json r with inl e => inl e | inr body => inr (Some body) end /\
  fetch_count (events (snd (performFetch stringify url payload retries w))) =
    (fetch_count (events w) + k + 1)%nat /\
  delays (events (snd (performFetch stringify url payload retries w))) =
    delays (events w) ++ map delay_ms (seq 0 k).
Proof.
  intros stringify url payload retries k w r Hk Hfail Hnet Hok.
  unfold performFetch.
  destruct (@loop_after_failures stringify url payload retries k 0 w)
    as (wk & Hrun & Nk & Fk & Dk & Ck); [lia | exact Hfail |].
  assert (Hnetk : network wk (fetches wk) = Fulfilled r) by now rewrite Nk, Fk.
  rewrite Hrun. cbn [Nat.add].
  rewrite (@loop_success stringify url payload retries k wk r Hk Hnetk Hok).
  cbn [fst snd]. rewrite InvokerMore.after_fetch_events.
  rewrite fetch_count_app, delays_app, Dk, Ck. cbn. rewrite app_nil_r.
  repeat split; lia.
Qed.

(** A server error, then an answer. *)
Lemma performFetch_recovers_witness :
  let w := scripted [Fulfilled (mkResponse 500 (inr "oops") (inr (JObj [])));
                     Fulfilled (json_response (JStr "pong"))] 0 in
  fst (performFetch JsonPrint.stringify "u" JNull 3 w) = inr (Some (JStr "pong")) /\
  fetch_count (events (snd (performFetch JsonPrint.stringify "u" JNull 3 w))) = 2%nat /\
  delays (events (snd (performFetch JsonPrint.stringify "u" JNull 3 w))) = [delay_ms 0].
Proof.
  intros w.
  destruct (@performFetch_recovers JsonPrint.stringify "u" JNull 3 1 w
              (json_response (JStr "pong"))) as (Hres & Hcount & Hd).
  - lia.
  - intros j Hj. destruct j as [|j]; [reflexivity | lia].
  - reflexivity.
  - reflexivity.
  - repeat split; assumption.
Defined.

(** X13: the budget of the component's invoker.  [performFetch] never
    makes more than [retries] requests, and it resolves to [undefined]
    exactly when [retries] is 0, in which case it makes no request at
    all: with a positive budget it returns a body or throws. *)
Theorem performFetch_budget : forall stringify url payload retries w,
  (fetch_count (events (snd (performFetch stringify url payload retries w))) <=
     fetch_count (events w) + retries)%nat /\
  (fst (performFetch stringify url payload retries w) = inr None <->
   retries = 0%nat).
Proof.
  intros stringify url payload retries w. unfold performFetch.
  destruct (@loop_budget stringify url payload retries retries 0 w) as [Hcount Hsome].
  { lia. }
  split; [lia|]. split.
  - intros Hnone. destruct retries as [|n]; [reflexivity|].
    exfalso. apply Hsome; [lia | exact Hnone].
  - intros ->. now rewrite loop_done.
Qed.

(** X14: the service's invoker has one attempt more than the
    component's.  For the same request and the same network, when the
    first 2xx response with a JSON body comes after [k] failures,
    [fetchWithRetry] returns that body for every [k <= 3], while
    [performFetch] with its default budget of three returns it for
    [k <= 2] only and for [k = 3] has already rejected with the error of
    the third failure. *)
Theorem service_has_one_more_attempt : forall stringify url payload k w r body,
  (forall j, (j < k)%nat -> failing (network w (fetches w + j))) ->
  network w (fetches w + k) = Fulfilled r ->
  ok r = true ->
  json r = inr body ->
  ((k <= 3)%nat ->
     fst (fetchWithRetry url (Service.post payload) 0 w) = inr body) /\
  ((k <= 2)%nat ->
     fst (performFetch stringify url payload 3 w) = inr (Some body)) /\
  (k = 3%nat ->
     fst (performFetch stringify url payload 3 w) =
       inl (last_error stringify (network w (fetches w + 2)))).
Proof.
  intros stringify url payload k w r body Hfail Hnet Hok Hjson.
  split; [|split].
  - intros Hk.
    destruct (@InvokerMore.run_after_failures url (Service.post payload) k 0 w)
      as (wk & Hrun & Nk & _ & Fk & _); [exact Hk | exact Hfail |].
    assert (Hnetk : network wk (fetches wk) = Fulfilled r) by now rewrite Nk, Fk.
    rewrite Hrun, (fetch_success url (Service.post payload) (0 + k) wk Hnetk Hok).
    exact Hjson.
  - intros Hk. unfold performFetch.
    destruct (@loop_after_failures stringify url payload 3 k 0 w)
      as (wk & Hrun & Nk & Fk & _); [lia | exact Hfail |].
    assert (Hnetk : network wk (fetches wk) = Fulfilled r) by now rewrite Nk, Fk.
    rewrite Hrun. cbn [Nat.add].
    rewrite (@loop_success stringify url payload 3 k wk r ltac:(lia) Hnetk Hok).
    cbn [fst]. now rewrite Hjson.
  - intros ->. unfold performFetch.
    destruct (@loop_after_failures stringify url payload 3 2 0 w)
      as (wk & Hrun & Nk & Fk & _); [lia | |].
    { intros j Hj. apply Hfail. lia. }
    destruct (@loop_last stringify url payload 3 2 wk) as (w1 & Hlast & _);
      [reflexivity | |].
    { rewrite Nk, Fk. apply Hfail. lia. }
    rewrite Hrun. cbn [Nat.add]. rewrite Hlast. cbn [fst]. now rewrite Nk, Fk.
Qed.

(** Three rate-limit responses and then an answer. *)
Lemma service_has_one_more_attempt_witness :
  let w := scripted [Fulfilled (plain_response 429 "one");
                     Fulfilled (plain_response 429 "two");
                     Fulfilled (plain_response 429 "three");
                     Fulfilled (json_response (JStr "pong"))] 0 in
  fst (fetchWithRetry "u" (Service.post JNull) 0 w) = inr (JStr "pong") /\
  fst (performFetch JsonPrint.stringify "u" JNull 3 w) = inl SyntaxError.
Proof.
  intros w.
  destruct (@service_has_one_more_attempt JsonPrint.stringify "u" JNull 3 w
              (json_response (JStr "pong")) (JStr "pong"))
    as (Hservice & _ & Hui).
  - intros j Hj. destruct j as [|[|[|j]]]; [reflexivity..|lia].
  - reflexivity.
  - reflexivity.
  - reflexivity.
  - split; [apply Hservice; lia | exact (Hui eq_refl)].
Defined.
End PerformFetchMore.

(** ** Every generator, at the edges of its input *)

Module GeneratorsMore.
Import Buffer Wav Base64 Js Net Invoker Service Run.
Import InvokerFacts ServiceFacts WavFacts Base64Encode.

(** A 2xx response with a JSON body ends the call of the invoker that
    every generator starts with, after one call of [fetch]. *)
Lemma invoker_answer : forall url options w res,
  answered w res ->
  fetchWithRetry url options 0 w = (inr res, after_fetch url options w).
Proof.
  intros url options w res (r & Hnet & Hok & Hjson).
  rewrite (fetch_success url options 0 w Hnet Hok), Hjson. reflexivity.
Qed.

Lemma abind_rejects : forall (A B : Type) (m : Async A) (k : A -> Async B) w e,
  fst (m w) = inl e -> abind m k w = (inl e, snd (m w)).
Proof.
  intros A B m k w e H. unfold abind.
  destruct (m w) as [[e'|a] w1]; cbn in *; congruence.
Qed.

(** X15: no generator handles a failure of the invoker.  When the four
    attempts of a run all fail, or when a 2xx response has a body that is
    not JSON, each of the four generators rejects with the error of the
    invoker (the error of the fourth attempt, or the parse error): the
    fallback values and [null] are never returned for a failed request,
    and the [try] block of the structured generator does not cover it. *)
Theorem generators_pass_on_rejection :
  forall P userQuery systemInstruction useGrounding prompt text voiceName w e,
  ((forall i, (i < 4)%nat -> failing (network w (fetches w + i))) /\
   e = attempt_error (network w (fetches w + 3))) \/
  (exists r, network w (fetches w) = Fulfilled r /\ ok r = true /\ json r = inl e) ->
  fst (generateTextContent userQuery systemInstruction useGrounding w) = inl e /\
  fst (generateStructuredStudyContent P userQuery systemInstruction w) = inl e /\
  fst (generateImageContent P prompt w) = inl e /\
  fst (generateTTSAudio text voiceName w) = inl e.
Proof.
  intros P q s g prompt text voice w e Hcase.
  assert (Hrun : forall url options, fst (fetchWithRetry url options 0 w) = inl e).
  { intros url options. destruct Hcase as [[Hfail ->] | (r & Hnet & Hok & Hjson)].
    - destruct (@InvokerClaims.exhausted_run url options w Hfail)
        as (final & Hrun & _).
      now rewrite Hrun.
    - now rewrite (fetch_success url options 0 w Hnet Hok). }
  split; [|split; [|split]].
  - unfold generateTextContent. now erewrite abind_rejects by apply Hrun.
  - unfold generateStructuredStudyContent.
    now erewrite abind_rejects by apply Hrun.
  - unfold generateImageContent. now erewrite abind_rejects by apply Hrun.
  - unfold generateTTSAudio. now erewrite abind_rejects by apply Hrun.
Qed.

(** The network is down: every generator rejects with the error of
    [fetch]; a 200 response with a body that is not JSON: every generator
    rejects with the parse error. *)
Lemma generators_pass_on_rejection_witness :
  let down := scripted [] 0 in
  let garbled := scripted [Fulfilled (plain_response 200 "<html>")] 0 in
  (fst (generateTextContent "hi" "Be brief." true down)
     = inl (NetworkError "Failed to fetch") /\
   fst (generateStructuredStudyContent JsonText.reference "hi" "Be brief." down)
     = inl (NetworkError "Failed to fetch") /\
   fst (generateImageContent JsonText.reference "a cat" down)
     = inl (NetworkError "Failed to fetch") /\
   fst (generateTTSAudio "hello" "Kore" down)
     = inl (NetworkError "Failed to fetch")) /\
  (fst (generateTextContent "hi" "Be brief." true garbled) = inl SyntaxError /\
   fst (generateStructuredStudyContent JsonText.reference "hi" "Be brief." garbled)
     = inl SyntaxError /\
   fst (generateImageContent JsonText.reference "a cat" garbled) = inl SyntaxError /\
   fst (generateTTSAudio "hello" "Kore" garbled) = inl SyntaxError).
Proof.
  intros down garbled. split.
  - apply (@generators_pass_on_rejection JsonText.reference "hi" "Be brief." true
             "a cat" "hello" "Kore" down (NetworkError "Failed to fetch")).
    left. split; [|reflexivity].
    intros i _. cbn. now destruct i as [|[|[|[|?]]]].
  - apply (@generators_pass_on_rejection JsonText.reference "hi" "Be brief." true
             "a cat" "hello" "Kore" garbled SyntaxError).
    right. exists (plain_response 200 "<html>"). repeat split; reflexivity.
Defined.

(** The first condition of the text generator is falsy when the text is. *)
Lemma candidate_text_falsy : forall res,
  truthy (response_text res) = false ->
  truthy (candidate_text (first_candidate res)) = false.
Proof.
  intros res H. unfold candidate_text.
  destruct (truthy (first_candidate res)) eqn:E; [exact H | exact E].
Qed.

(** X16: a response without a text.  When the first candidate of a 2xx
    response has no text, or an empty one, or there is no candidate,
    [generateTextContent] fulfils with the fixed error message and no
    sources and writes one line to the error console, after its single
    request; only the body [null] makes it reject, with the [TypeError]
    of the access to [result.candidates]. *)
Theorem text_fallback_without_text :
  forall userQuery systemInstruction useGrounding w res,
  answered w res ->
  truthy (response_text res) = false ->
  (res <> JNull ->
     fst (generateTextContent userQuery systemInstruction useGrounding w)
       = inr text_failure /\
     events (snd (generateTextContent userQuery systemInstruction useGrounding w))
       = events w ++
         [Fetched (with_key BASE_URL_GEMINI_FLASH)
                  (post (text_payload userQuery systemInstruction useGrounding));
          ConsoleError "Gemini text generation failed:"]) /\
  (res = JNull ->
     fst (generateTextContent userQuery systemInstruction useGrounding w)
       = inl TypeError).
Proof.
  intros q s g w res Hans Hfalsy.
  unfold generateTextContent, abind. rewrite (invoker_answer _ _ Hans).
  split.
  - intros Hres. unfold text_of_result, abind, lift.
    rewrite get_defined by exact Hres.
    change (get0_opt (get_opt (Some res) "candidates")) with (first_candidate res).
    rewrite (candidate_text_falsy res Hfalsy).
    unfold console_error, aret, log. cbn [fst snd events].
    rewrite InvokerMore.after_fetch_events, <- app_assoc. split; reflexivity.
  - intros ->. reflexivity.
Qed.

(** A response blocked by the safety filter has no candidate. *)
Lemma text_fallback_without_text_witness :
  let res := JObj [("promptFeedback", JObj [("blockReason", JStr "SAFETY")])] in
  let w := scripted [Fulfilled (json_response res)] 0 in
  answered w res /\
  fst (generateTextContent "hi" "Be brief." false w) = inr text_failure /\
  fetch_count (events (snd (generateTextContent "hi" "Be brief." false w))) = 1%nat.
Proof.
  intros res w.
  assert (Hans : answered w res) by (eexists; repeat split; reflexivity).
  split; [exact Hans|].
  destruct (@text_fallback_without_text "hi" "Be brief." false w res Hans eq_refl)
    as [Hfallback _].
  destruct (Hfallback ltac:(discriminate)) as [Hvalue Hevents].
  split; [exact Hvalue|]. rewrite Hevents. reflexivity.
Defined.

Lemma array_map_null : forall atts,
  In JNull atts -> array_map source_of atts = inl TypeError.
Proof.
  induction atts as [|a atts IH]; intros Hin; [contradiction|].
  cbn [array_map].
  assert (Ha : source_of a = inl TypeError \/
               (a <> JNull /\ exists src, source_of a = inr src)).
  { unfold source_of.
    destruct a; cbn [get bind ret throw]; eauto;
      right; (split; [discriminate | eauto]). }
  destruct Ha as [-> | (Hne & src & ->)]; [reflexivity|].
  cbn [bind]. destruct Hin as [Heq | Hin]; [contradiction|].
  now rewrite (IH Hin).
Qed.

(** X17: grounding metadata that is not a list of objects.  A response
    with a text still makes [generateTextContent] reject with
    [TypeError], instead of returning the text, when its
    [groundingAttributions] is truthy but not an array (it has no [map]),
    or is an array with a [null] entry (whose [web] cannot be read). *)
Theorem text_rejects_malformed_attributions :
  forall userQuery systemInstruction useGrounding w res t,
  answered w res ->
  response_text res = Some t ->
  truthy (Some t) = true ->
  (exists v, attributions res = Some v /\ truthy (Some v) = true /\
             forall items, v <> JArr items) \/
  (exists atts, attributions res = Some (JArr atts) /\ In JNull atts) ->
  fst (generateTextContent userQuery systemInstruction useGrounding w)
    = inl TypeError.
Proof.
  intros q s g w res t Hans Htext Htruthy Hbad.
  unfold generateTextContent, abind. rewrite (invoker_answer _ _ Hans).
  rewrite (@TextClaims.text_of_result_sources res t _ Htext Htruthy).
  destruct Hbad as [(v & Hatt & Hv & Hna) | (atts & Hatt & Hin)]; rewrite Hatt.
  - rewrite Hv. destruct v; try reflexivity. now destruct (Hna items).
  - cbn [truthy extract_sources]. now rewrite (array_map_null atts Hin).
Qed.

(** Attributions given as one object instead of a list, and a list with
    a [null] entry. *)
Lemma text_rejects_malformed_attributions_witness :
  let one := JObj [("web", JObj [("uri", JStr "https://a.example");
                                 ("title", JStr "A")])] in
  let single :=
    envelope (JObj [("text", JStr "Paris.")])
      [("groundingMetadata", JObj [("groundingAttributions", one)])] in
  let holed :=
    envelope (JObj [("text", JStr "Paris.")])
      [("groundingMetadata", JObj [("groundingAttributions", JArr [one; JNull])])] in
  fst (generateTextContent "capital of France?" "Be brief." true
         (scripted [Fulfilled (json_response single)] 0)) = inl TypeError /\
  fst (generateTextContent "capital of France?" "Be brief." true
         (scripted [Fulfilled (json_response holed)] 0)) = inl TypeError.
Proof.
  intros one single holed. split.
  - apply (@text_rejects_malformed_attributions "capital of France?" "Be brief."
             true (scripted [Fulfilled (json_response single)] 0) single
             (JStr "Paris.")).
    + eexists; repeat split; reflexivity.
    + reflexivity.
    + reflexivity.
    + left. exists one. repeat split. intros items. discriminate.
  - apply (@text_rejects_malformed_attributions "capital of France?" "Be brief."
             true (scripted [Fulfilled (json_response holed)] 0) holed
             (JStr "Paris.")).
    + eexists; repeat split; reflexivity.
    + reflexivity.
    + reflexivity.
    + right. exists [one; JNull]. split; [reflexivity|]. cbn. tauto.
Defined.

(** X18: the structured generator returns what [JSON.parse] returns.
    When the text of a 2xx response is not empty and parses, the result of
    [generateStructuredStudyContent] is the parsed value as it is,
    whatever its shape: nothing checks it against the response schema that
    the request carries, and nothing is written to the error console. *)
Theorem structured_result_is_the_parse :
  forall P userQuery systemInstruction w res j v,
  answered w res ->
  response_text res = Some j ->
  truthy (Some j) = true ->
  JSON_parse P (toString j) = inr v ->
  fst (generateStructuredStudyContent P userQuery systemInstruction w) = inr v /\
  events (snd (generateStructuredStudyContent P userQuery systemInstruction w))
    = events w ++
      [Fetched (with_key BASE_URL_GEMINI_FLASH)
               (post (study_payload userQuery systemInstruction))].
Proof.
  intros P q s w res j v Hans Htext Htruthy Hparse.
  destruct (@TextClaims.text_path res j Htext)
    as (cands & cand & content & parts & part & Nres & _).
  unfold generateStructuredStudyContent, abind. rewrite (invoker_answer _ _ Hans).
  unfold study_of_result.
  rewrite (@StudyClaims.parse_study_text P res Nres), Htext, Htruthy, Hparse.
  split; [reflexivity|]. apply InvokerMore.after_fetch_events.
Qed.

(** A text that is valid JSON but no list of study items. *)
Lemma structured_result_is_the_parse_witness :
  let res := envelope (JObj [("text", JStr "  42 ")]) [] in
  let w := scripted [Fulfilled (json_response res)] 0 in
  answered w res /\
  fst (generateStructuredStudyContent JsonText.reference "photosynthesis"
         "You are a tutor." w) = inr (JNum 42).
Proof.
  intros res w.
  assert (Hans : answered w res) by (eexists; repeat split; reflexivity).
  split; [exact Hans|].
  apply (@structured_result_is_the_parse JsonText.reference "photosynthesis"
           "You are a tutor." w res (JStr "  42 ") (JNum 42) Hans
           eq_refl eq_refl eq_refl).
Defined.

Lemma tts_decode_none : forall res,
  truthy (get_opt (inline_data res) "data") = false \/
  truthy (get_opt (inline_data res) "mimeType") = false \/
  (exists m, get_opt (inline_data res) "mimeType" = Some (JStr m) /\
             String.prefix "audio/L16" m = false) ->
  tts_decode res = inr None.
Proof.
  intros res Hbad. rewrite SpeechClaims.tts_decode_fields.
  destruct (get_opt (inline_data res) "data") as [a|]; [|reflexivity].
  destruct (get_opt (inline_data res) "mimeType") as [m|]; [|reflexivity].
  destruct Hbad as [Ha | [Hm | (m' & Hm & Hprefix)]].
  - now rewrite Ha.
  - rewrite Hm, andb_false_r. reflexivity.
  - injection Hm as ->.
    destruct (truthy (Some a) && truthy (Some (JStr m'))); [|reflexivity].
    cbn [startsWith_L16 bind ret]. now rewrite Hprefix.
Qed.

(** X19: a speech response without usable audio.  When the first part of
    a 2xx response has no (or empty) [inlineData.data], no (or empty)
    [inlineData.mimeType], or a MIME type that does not begin with
    [audio/L16], [generateTTSAudio] fulfils with [null], writes one line
    to the error console, and decodes nothing; this holds for every body,
    [null] included. *)
Theorem tts_null_is_logged : forall text voiceName w res,
  answered w res ->
  truthy (get_opt (inline_data res) "data") = false \/
  truthy (get_opt (inline_data res) "mimeType") = false \/
  (exists m, get_opt (inline_data res) "mimeType" = Some (JStr m) /\
             String.prefix "audio/L16" m = false) ->
  fst (generateTTSAudio text voiceName w) = inr None /\
  events (snd (generateTTSAudio text voiceName w))
    = events w ++
      [Fetched (with_key BASE_URL_TTS) (post (tts_payload text voiceName));
       ConsoleError "TTS generation failed or returned invalid data:"].
Proof.
  intros text voice w res Hans Hbad.
  unfold generateTTSAudio, abind. rewrite (invoker_answer _ _ Hans).
  unfold tts_of_result, abind, lift. rewrite (tts_decode_none res Hbad).
  unfold console_error, aret, log. cbn [fst snd events].
  rewrite InvokerMore.after_fetch_events, <- app_assoc. split; reflexivity.
Qed.

(** Audio in another encoding, and the body [null]. *)
Lemma tts_null_is_logged_witness :
  let res := speech_response "AAD/f2QA" "audio/mpeg" in
  fst (generateTTSAudio "hello" "Kore" (scripted [Fulfilled (json_response res)] 0))
    = inr None /\
  fst (generateTTSAudio "hello" "Kore" (scripted [Fulfilled (json_response JNull)] 0))
    = inr None.
Proof.
  intros res. split.
  - apply (@tts_null_is_logged "hello" "Kore"
             (scripted [Fulfilled (json_response res)] 0) res).
    + eexists; repeat split; reflexivity.
    + right. right. exists "audio/mpeg". split; reflexivity.
  - apply (@tts_null_is_logged "hello" "Kore"
             (scripted [Fulfilled (json_response JNull)] 0) JNull).
    + eexists; repeat split; reflexivity.
    + left. reflexivity.
Defined.



(** X21: a body that the image generator cannot read.  For the body
    [null], and for a [predictions] list whose first entry is [null],
    [generateImageContent] does not return [null]: it rejects with the
    [TypeError] of the property access. *)
Theorem image_rejects_null_prediction : forall P prompt w res,
  answered w res ->
  res = JNull \/
  (exists rest, own_prop res "predictions" = Some (JArr (JNull :: rest))) ->
  fst (generateImageContent P prompt w) = inl TypeError.
Proof.
  intros P prompt w res Hans Hbad.
  unfold generateImageContent, abind. rewrite (invoker_answer _ _ Hans).
  unfold image_of_result, abind, lift.
  assert (Hbytes : image_bytes P res = inl TypeError).
  { destruct Hbad as [-> | (rest & Hpred)]; [reflexivity|].
    assert (Hres : res <> JNull) by (intros ->; discriminate).
    unfold image_bytes. rewrite get_defined by exact Hres.
    replace (get_opt (Some res) "predictions") with (Some (JArr (JNull :: rest)))
      by (destruct res; try contradiction; now cbn [get_opt]).
    cbn [bind ret truthy get own_prop String.eqb Ascii.eqb Bool.eqb].
    cbn [gt_zero length].
    replace (0 <? Z.of_nat (S (length rest))) with true
      by (symmetry; apply Z.ltb_lt; lia).
    reflexivity. }
  now rewrite Hbytes.
Qed.

Lemma image_rejects_null_prediction_witness :
  let res := JObj [("predictions", JArr [JNull])] in
  let w := scripted [Fulfilled (json_response res)] 0 in
  answered w res /\
  fst (generateImageContent JsonText.reference "a cat" w) = inl TypeError.
Proof.
  intros res w.
  assert (Hans : answered w res) by (eexists; repeat split; reflexivity).
  split; [exact Hans|].
  apply (@image_rejects_null_prediction JsonText.reference "a cat" w res Hans).
  right. exists []. reflexivity.
Defined.

(** X22: a MIME type that is not a string.  When both [inlineData.data]
    and [inlineData.mimeType] are truthy but the MIME type is a number, a
    boolean, a list or an object, [generateTTSAudio] rejects with the
    [TypeError] of the call of [startsWith], and does not return
    [null]. *)
Theorem tts_rejects_non_string_mime : forall text voiceName w res a m,
  answered w res ->
  get_opt (inline_data res) "data" = Some a ->
  truthy (Some a) = true ->
  get_opt (inline_data res) "mimeType" = Some m ->
  truthy (Some m) = true ->
  (forall s, m <> JStr s) ->
  fst (generateTTSAudio text voiceName w) = inl TypeError.
Proof.
  intros text voice w res a m Hans Hdata Ha Hmime Hm Hns.
  unfold generateTTSAudio, abind. rewrite (invoker_answer _ _ Hans).
  unfold tts_of_result, abind, lift.
  rewrite SpeechClaims.tts_decode_fields, Hdata, Hmime, Ha, Hm.
  cbn [andb]. destruct m; try reflexivity. now destruct (Hns s).
Qed.

Lemma tts_rejects_non_string_mime_witness :
  let res :=
    envelope (JObj [("inlineData",
                     JObj [("data", JStr "AAD/f2QA");
                           ("mimeType", JObj [("type", JStr "audio/L16")])])]) [] in
  let w := scripted [Fulfilled (json_response res)] 0 in
  answered w res /\
  fst (generateTTSAudio "hello" "Kore" w) = inl TypeError.
Proof.
  intros res w.
  assert (Hans : answered w res) by (eexists; repeat split; reflexivity).
  split; [exact Hans|].
  apply (@tts_rejects_non_string_mime "hello" "Kore" w res (JStr "AAD/f2QA")
           (JObj [("type", JStr "audio/L16")]) Hans eq_refl eq_refl eq_refl eq_refl).
  intros s. discriminate.
Defined.

End GeneratorsMore.

(** ** The size of a decoded buffer *)

Module Base64Size.
Import Buffer Base64 Base64Encode.

(** Induction on a list, four elements at a time. *)
Lemma quads_ind : forall (A : Type) (P : list A -> Prop),
  P [] -> (forall a, P [a]) -> (forall a b, P [a; b]) ->
  (forall a b c, P [a; b; c]) ->
  (forall a b c d l, P l -> P (a :: b :: c :: d :: l)) ->
  forall l, P l.
Proof.
  intros A P H0 H1 H2 H3 H4.
  refine (fix go (l : list A) : P l :=
            match l with
            | [] => H0
            | [a] => H1 a
            | [a; b] => H2 a b
            | [a; b; c] => H3 a b c
            | a :: b :: c :: d :: rest => H4 a b c d rest (go rest)
            end).
Qed.

Lemma decode_groups_length : forall vs,
  length (decode_groups vs) = Nat.div (3 * length vs) 4.
Proof.
  induction vs as [|a|a b|a b c|a b c d rest IH] using quads_ind;
    try reflexivity.
  cbn [decode_groups length]. rewrite IH.
  replace (3 * S (S (S (S (length rest)))))%nat
    with (3 * 4 + 3 * length rest)%nat by lia.
  rewrite (Nat.div_add_l 3 4) by lia. reflexivity.
Qed.

Lemma sextets_length : forall cs vs, sextets cs = Some vs -> length vs = length cs.
Proof.
  induction cs as [|c cs IH]; intros vs H; cbn [sextets] in H.
  - now injection H as <-.
  - destruct (b64_value c); [|discriminate].
    destruct (sextets cs) as [vs'|]; [|discriminate].
    injection H as <-. cbn [length]. now rewrite (IH vs' eq_refl).
Qed.

Lemma char_codes_length : forall bs,
  length (char_codes (binary_string bs)) = length bs.
Proof.
  unfold binary_string. induction bs as [|b bs IH]; [reflexivity|].
  cbn [map string_of_list_ascii char_codes length]. now rewrite IH.
Qed.

(** X23: the size of the decoded buffer.  Let [n] be the number of
    characters of a text after the removal of ASCII whitespace and of the
    padding.  When [n] leaves the remainder 1 modulo 4
    [base64ToArrayBuffer] raises [InvalidCharacterError]; and whenever it
    returns a buffer, the buffer holds exactly [3 * n / 4] (rounded down)
    values, each of them a byte. *)
Theorem base64_decoded_size : forall text : string,
  (Nat.modulo (length (strip_padding (significant text))) 4 = 1%nat ->
   base64ToArrayBuffer text = inl InvalidCharacterError) /\
  (forall bs, base64ToArrayBuffer text = inr bs ->
     Forall is_byte bs /\
     length bs = Nat.div (3 * length (strip_padding (significant text))) 4).
Proof.
  intros text. unfold base64ToArrayBuffer, atob. cbv zeta.
  change (filter (fun c => negb (is_ascii_whitespace c)) (list_ascii_of_string text))
    with (significant text).
  set (cs := strip_padding (significant text)). split.
  - intros H. rewrite H. reflexivity.
  - intros bs H.
    destruct (Nat.eqb (Nat.modulo (length cs) 4) 1); [discriminate|].
    destruct (sextets cs) as [vs|] eqn:Hvs; [|discriminate].
    cbn [bind ret] in H. injection H as <-. split.
    + apply Base64More.char_codes_bytes.
    + now rewrite char_codes_length, decode_groups_length, (sextets_length cs Hvs).
Qed.

(** Seven characters after the removal of a space and the padding
    give five bytes; five characters give none. *)
Lemma base64_decoded_size_witness :
  Nat.modulo (length (strip_padding (significant "QUJDR"))) 4 = 1%nat /\
  base64ToArrayBuffer "QUJDR" = inl InvalidCharacterError /\
  length (strip_padding (significant "SGVs bG8=")) = 7%nat /\
  exists bs, base64ToArrayBuffer "SGVs bG8=" = inr bs /\ length bs = 5%nat.
Proof.
  split; [reflexivity|]. split.
  - apply (@base64_decoded_size "QUJDR"). reflexivity.
  - split; [reflexivity|]. eexists. split; [reflexivity|].
    destruct (@base64_decoded_size "SGVs bG8=") as [_ Hsize].
    destruct (Hsize _ eq_refl) as [_ Hlen]. exact Hlen.
Defined.

End Base64Size.
